(** * hayabusa-flow: case assembly and pipeline execution

    A shallow embedding of [main.py], [my-previous-runner.py] and
    [my-previous-setupcase.py], followed by the properties of the
    specification that are settled on it.

    Conventions of the embedding.
    - Python [str] values are [list ascii]; the files handled by the program
      (OpenFOAM dictionaries, STL file names) are taken to be ASCII text.
    - [print] appends one entry to [stdout]; [input] pops one line of [stdin]
      and raises [EOFError] when none is left.
    - External programs and libraries (the OpenFOAM tools started through
      PyFoam, [time.time], [trimesh], the number parser of [numpy.loadtxt])
      are parameters, collected in type classes. *)

From Stdlib Require Import Ascii String DecimalString Decimal.
From Stdlib Require Import Floats.SpecFloat.
From Stdlib Require Import List ZArith Lia Bool Arith DecimalPos.
Import ListNotations.

Set Implicit Arguments.

(* ================================================================= *)
(** * Part I: the embedding *)
(* ================================================================= *)

(** ** Text *)

Definition str := list ascii.

Definition text (s : string) : str := list_ascii_of_string s.

Module Text.

Definition eqb (a b : str) : bool :=
  if list_eq_dec ascii_dec a b then true else false.

(** [str.lower()] on ASCII text. *)
Definition lower_char (c : ascii) : ascii :=
  let n := nat_of_ascii c in
  if (65 <=? n) && (n <=? 90) then ascii_of_nat (n + 32) else c.

Definition lower (s : str) : str := map lower_char s.

(** [s.startswith(p)] *)
Fixpoint startswith (p s : str) : bool :=
  match p, s with
  | [], _ => true
  | a :: p', b :: s' => Ascii.eqb a b && startswith p' s'
  | _ :: _, [] => false
  end.

(** [p in s] *)
Fixpoint contains (p s : str) : bool :=
  startswith p s ||
  match s with
  | [] => false
  | _ :: s' => contains p s'
  end.

(** [s.find(p)]: where [p] first occurs in [s], if it does. *)
Fixpoint find (p s : str) : option nat :=
  if startswith p s then Some 0
  else match s with
       | [] => None
       | _ :: s' => option_map S (find p s')
       end.

(** [s.endswith(p)] *)
Definition endswith (p s : str) : bool :=
  startswith (rev p) (rev s).

(** [str(n)] for a Python [int]. *)
Definition of_Z (n : Z) : str :=
  text (NilZero.string_of_int (Z.to_int n)).

(** [c * n] for a one-character string [c]. *)
Definition times (c : ascii) (n : nat) : str := repeat c n.

Definition nl : ascii := ascii_of_nat 10.

Definition cr : ascii := ascii_of_nat 13.

(** Text-mode reading: [\r\n] and a lone [\r] become [\n]. *)
Fixpoint universal_newlines (s : str) : str :=
  match s with
  | [] => []
  | c :: s' =>
      if Ascii.eqb c cr
      then nl :: match s' with
                 | c' :: s'' =>
                     if Ascii.eqb c' nl then universal_newlines s''
                     else universal_newlines s'
                 | [] => []
                 end
      else c :: universal_newlines s'
  end.

End Text.

(** ** External programs *)

(** The machine the tools run on.  [spawn argv] stands for PyFoam's
  [runner.start(); runner.run.join(); runner.run.returncode]: it blocks
  until the process has exited and yields its exit status.  [clock] stands
  for [time.time()].  The two formatting functions stand for the float
  arithmetic and formatting of the elapsed-time report. *)
Class Platform := {
Host : Type;
Time : Type;
spawn : list str -> Host -> Z * Host;
clock : Host -> Time * Host;
fmt_seconds : Time -> Time -> str;   (* f"{end - start:.2f}" *)
fmt_minutes : Time -> Time -> str    (* f"{(end - start)/60:.1f}" *)
}.

(** ** OpenFOAMRunner (main.py) and OpenFOAMParallelRunner (legacy) *)

Module Runner.
Section WithPlatform.
Context {P : Platform}.

(** State threaded through a run: the machine, what has been printed, and
    the external processes started so far with their exit status. *)
Record state := mk_state {
  host : Host;
  stdout : list str;
  calls : list (list str * Z)
}.

Definition R (A : Type) := state -> A * state.

Definition ret {A} (a : A) : R A := fun s => (a, s).

Definition bind {A B} (m : R A) (k : A -> R B) : R B :=
  fun s => let (a, s') := m s in k a s'.

Definition print (line : str) : R unit :=
  fun s => (tt, mk_state (host s) (stdout s ++ [line]) (calls s)).

Definition start_and_join (argv : list str) : R Z :=
  fun s =>
    let (code, h) := spawn argv (host s) in
    (code, mk_state h (stdout s) (calls s ++ [(argv, code)])).

Definition time_time : R Time :=
  fun s =>
    let (t, h) := clock (host s) in
    (t, mk_state h (stdout s) (calls s)).

End WithPlatform.

Declare Scope run_scope.
Delimit Scope run_scope with run.
Notation "x <- m ;; k" := (bind m (fun x => k))
(at level 61, m at next level, right associativity) : run_scope.
Notation "m ;; k" := (bind m (fun _ => k))
(at level 61, right associativity) : run_scope.

Section WithPlatform.
Context {P : Platform}.
Local Open Scope run_scope.

Variable case_dir : str.   (* str(self.case_dir) *)
Variable n_proc : Z.

Definition _run_with_log (argv : list str) (operation : str) : R bool :=
  print (text "Running " ++ operation ++ text "...") ;;
  code <- start_and_join argv ;;
  let success := Z.eqb code 0 in
  (if success
   then print (text "✓ " ++ operation ++ text " completed successfully")
   else print (text "✗ " ++ operation ++ text " failed with return code: "
               ++ Text.of_Z code)) ;;
  ret success.

Definition blockMesh_argv : list str :=
  [text "blockMesh"; text "-case"; case_dir].

Definition surfaceFeatureExtract_argv (dictPath : str) : list str :=
  [text "surfaceFeatureExtract"; text "-case"; case_dir; text "-dict"; dictPath].

Definition snappyHexMesh_argv : list str :=
  [text "snappyHexMesh"; text "-overwrite"; text "-case"; case_dir].

Definition decomposePar_argv : list str :=
  [text "decomposePar"; text "-force"; text "-case"; case_dir].

Definition mpirun_argv : list str :=
  [text "mpirun"; text "--allow-run-as-root"; text "-np"; Text.of_Z n_proc;
   text "simpleFoam"; text "-case"; case_dir; text "-parallel"].

Definition reconstructPar_argv : list str :=
  [text "reconstructPar"; text "-case"; case_dir].

Definition run_blockMesh : R bool :=
  _run_with_log blockMesh_argv (text "blockMesh").

Definition run_surfaceFeatureExtract (dictPath : str) : R bool :=
  _run_with_log (surfaceFeatureExtract_argv dictPath)
    (text "surfaceFeatureExtract (" ++ dictPath ++ text ")").

Definition run_snappyHexMesh : R bool :=
  _run_with_log snappyHexMesh_argv (text "snappyHexMesh").

Definition decompose_case : R bool :=
  code <- start_and_join decomposePar_argv ;;
  let success := Z.eqb code 0 in
  (if success then print (text "✓ Case decomposition completed")
   else print (text "✗ Case decomposition failed")) ;;
  ret success.

Definition run_parallel_simpleFoam : R bool :=
  print (text "Running simpleFoam with " ++ Text.of_Z n_proc
         ++ text " processors...") ;;
  code <- start_and_join mpirun_argv ;;
  let success := Z.eqb code 0 in
  (if success then print (text "✓ Parallel simpleFoam completed")
   else print (text "✗ Parallel simpleFoam failed")) ;;
  ret success.

Definition reconstruct_case : R bool :=
  code <- start_and_join reconstructPar_argv ;;
  let success := Z.eqb code 0 in
  (if success then print (text "✓ Case reconstruction completed")
   else print (text "✗ Case reconstruction failed")) ;;
  ret success.

Definition dicts : list str :=
  [text "system/surfaceFeatureExtract_mainBodyDict";
   text "system/surfaceFeatureExtract_FLDict";
   text "system/surfaceFeatureExtract_FRDict";
   text "system/surfaceFeatureExtract_RLDict";
   text "system/surfaceFeatureExtract_RRDict"].

(** [for dict_path in dicts: if not run(dict_path): return False] *)
Fixpoint for_dicts (run : str -> R bool) (ds : list str) : R bool :=
  match ds with
  | [] => ret true
  | d :: ds' =>
      ok <- run d ;;
      if ok then for_dicts run ds' else ret false
  end.

Definition run_all_surfaceFeatureExtract : R bool :=
  for_dicts run_surfaceFeatureExtract dicts.

Definition steps : list (str * R bool) :=
  [(text "Background mesh generation", run_blockMesh);
   (text "Surface feature extraction", run_all_surfaceFeatureExtract);
   (text "Mesh generation", run_snappyHexMesh);
   (text "Case decomposition", decompose_case);
   (text "Parallel solver", run_parallel_simpleFoam);
   (text "Case reconstruction", reconstruct_case)].

Definition rule (n : nat) : str := Text.times "="%char n.

Definition failed_at (step_name : str) : str :=
  text "✗ Simulation failed at step: " ++ step_name.

(** The [for step_name, step_func in steps] loop; [None] stands for the
    loop running to its end, [Some false] for the [return False] in it. *)
Fixpoint for_steps (l : list (str * R bool)) : R (option bool) :=
  match l with
  | [] => ret None
  | (step_name, step_func) :: l' =>
      print (Text.nl :: rule 60) ;;
      print (text "Step: " ++ step_name) ;;
      print (rule 60) ;;
      ok <- step_func ;;
      if negb ok
      then print (failed_at step_name) ;; ret (Some false)
      else for_steps l'
  end.

Definition total_time (start_time end_time : Time) : str :=
  text "Total time elapsed: " ++ fmt_seconds start_time end_time
  ++ text " seconds (" ++ fmt_minutes start_time end_time ++ text " minutes)".

Definition run_full_simulation : R bool :=
  print (text "Starting full OpenFOAM simulation pipeline...") ;;
  start_time <- time_time ;;
  r <- for_steps steps ;;
  match r with
  | Some b => ret b
  | None =>
      end_time <- time_time ;;
      print (Text.nl :: rule 60) ;;
      print (text "✓ Full simulation completed successfully!") ;;
      print (total_time start_time end_time) ;;
      print (rule 60) ;;
      ret true
  end.

(** *** Vocabulary of the pipeline properties *)

(** The six stages in order, each with the external commands it stands
    for; the second one fans out over the five dictionaries. *)
Definition stage_table : list (str * list (list str)) :=
  [(text "Background mesh generation", [blockMesh_argv]);
   (text "Surface feature extraction", map surfaceFeatureExtract_argv dicts);
   (text "Mesh generation", [snappyHexMesh_argv]);
   (text "Case decomposition", [decomposePar_argv]);
   (text "Parallel solver", [mpirun_argv]);
   (text "Case reconstruction", [reconstructPar_argv])].

Definition flatten (t : list (str * list (list str))) : list (str * list str) :=
  flat_map (fun e => map (pair (fst e)) (snd e)) t.

(** Every invocation of a complete run, labelled with its stage. *)
Definition plan : list (str * list str) := flatten stage_table.

Definition succeeded (c : list str * Z) : Prop := snd c = 0%Z.




End WithPlatform.
End Runner.

(** The earlier runner, [my-previous-runner.py]: the same stages, started the
  same way, without the console report. *)
Module LegacyRunner.
Import Runner.
Section WithPlatform.
Context {P : Platform}.
Local Open Scope run_scope.

Variable case_dir : str.
Variable n_proc : Z.

Definition _run_with_log (argv : list str) (operation : str) : R bool :=
  code <- start_and_join argv ;;
  ret (Z.eqb code 0).

Definition run_blockMesh : R bool :=
  _run_with_log (blockMesh_argv case_dir) (text "blockMesh").

Definition run_surfaceFeatureExtract (dictPath : str) : R bool :=
  _run_with_log (surfaceFeatureExtract_argv case_dir dictPath)
    (text "surfaceFeatureExtract").

Definition run_snappyHexMesh : R bool :=
  _run_with_log (snappyHexMesh_argv case_dir) (text "snappyHexMesh").

Definition decompose_case : R bool :=
  code <- start_and_join (decomposePar_argv case_dir) ;;
  ret (Z.eqb code 0).

Definition run_parallel_simpleFoam : R bool :=
  code <- start_and_join (mpirun_argv case_dir n_proc) ;;
  ret (Z.eqb code 0).

Definition reconstruct_case : R bool :=
  code <- start_and_join (reconstructPar_argv case_dir) ;;
  ret (Z.eqb code 0).

Definition run_all_surfaceFeatureExtract : R bool :=
  for_dicts run_surfaceFeatureExtract dicts.


End WithPlatform.
End LegacyRunner.

(** ** The file system and the console *)

Module Fs.

(** A directory tree.  Entries of a directory are kept in listing order. *)
#[warnings="-register-all"]
Inductive node : Type :=
| File (data : str)
| Dir (entries : list (str * node)).

(** A path, as its components from the root of the tree. *)
Definition path := list str.

Fixpoint assoc {A} (k : str) (l : list (str * A)) : option A :=
  match l with
  | [] => None
  | (k', v) :: l' => if Text.eqb k k' then Some v else assoc k l'
  end.

(** Replace the entry [k], or add it at the end. *)
Fixpoint assoc_set {A} (k : str) (v : A) (l : list (str * A)) : list (str * A) :=
  match l with
  | [] => [(k, v)]
  | (k', v') :: l' =>
      if Text.eqb k k' then (k, v) :: l' else (k', v') :: assoc_set k v l'
  end.

Fixpoint assoc_del {A} (k : str) (l : list (str * A)) : list (str * A) :=
  match l with
  | [] => []
  | (k', v') :: l' =>
      if Text.eqb k k' then assoc_del k l' else (k', v') :: assoc_del k l'
  end.

Fixpoint lookup (p : path) (t : node) : option node :=
  match p with
  | [] => Some t
  | c :: p' =>
      match t with
      | Dir es => match assoc c es with
                  | Some n => lookup p' n
                  | None => None
                  end
      | File _ => None
      end
  end.

Definition exists_ (p : path) (t : node) : bool :=
  match lookup p t with Some _ => true | None => false end.

(** Put [v] at [p]; every proper ancestor of [p] must be a directory. *)
Fixpoint put (p : path) (v : node) (t : node) : option node :=
  match p with
  | [] => Some v
  | c :: p' =>
      match t with
      | Dir es =>
          match p' with
          | [] => Some (Dir (assoc_set c v es))
          | _ =>
              match assoc c es with
              | Some n =>
                  match put p' v n with
                  | Some n' => Some (Dir (assoc_set c n' es))
                  | None => None
                  end
              | None => None
              end
          end
      | File _ => None
      end
  end.

(** Remove the entry at [p]. *)
Fixpoint remove (p : path) (t : node) : option node :=
  match p with
  | [] => None
  | c :: p' =>
      match t with
      | Dir es =>
          match p' with
          | [] => match assoc c es with
                  | Some _ => Some (Dir (assoc_del c es))
                  | None => None
                  end
          | _ =>
              match assoc c es with
              | Some n =>
                  match remove p' n with
                  | Some n' => Some (Dir (assoc_set c n' es))
                  | None => None
                  end
              | None => None
              end
          end
      | File _ => None
      end
  end.

(** [os.makedirs(p, exist_ok=True)]: create the missing directories along
    [p]; a file in the way is an error. *)
Fixpoint makedirs (p : path) (t : node) : option node :=
  match p with
  | [] => match t with Dir _ => Some t | File _ => None end
  | c :: p' =>
      match t with
      | Dir es =>
          let sub := match assoc c es with
                     | Some n => n
                     | None => Dir []
                     end in
          match makedirs p' sub with
          | Some n' => Some (Dir (assoc_set c n' es))
          | None => None
          end
      | File _ => None
      end
  end.

Definition parent (p : path) : path := removelast p.

Definition basename (p : path) : str := last p [].

(** [a] is [b] or an ancestor of [b]. *)
Fixpoint is_prefix (a b : path) : bool :=
  match a, b with
  | [], _ => true
  | x :: a', y :: b' => Text.eqb x y && is_prefix a' b'
  | _ :: _, [] => false
  end.

End Fs.

(** Python exceptions that the program can meet. *)
Inductive exn : Type :=
| FileNotFoundError
| NotADirectoryError
| IsADirectoryError
| FileExistsError
| SameFileError
| RecursionError
| EOFError
| ValueError
| IndexError
| TypeError
| GeometryError.   (* whatever [trimesh] raises on a mesh it cannot handle *)

Inductive res (A : Type) : Type :=
| Ok (a : A)
| Raise (e : exn).
Arguments Ok {A} a.
Arguments Raise {A} e.

Module Io.

Record world := mk_world {
  fs : Fs.node;
  stdin : list str;
  stdout : list str
}.

(** Computations that read and write the world and may raise. *)
Definition M (A : Type) := world -> res A * world.

Definition ret {A} (a : A) : M A := fun w => (Ok a, w).

Definition raise {A} (e : exn) : M A := fun w => (Raise e, w).

Definition bind {A B} (m : M A) (k : A -> M B) : M B :=
  fun w =>
    match m w with
    | (Ok a, w') => k a w'
    | (Raise e, w') => (Raise e, w')
    end.

(** [try: m except Exception as e: h e] *)
Definition try_ {A} (m : M A) (h : exn -> M A) : M A :=
  fun w =>
    match m w with
    | (Ok a, w') => (Ok a, w')
    | (Raise e, w') => h e w'
    end.

Definition print (line : str) : M unit :=
  fun w => (Ok tt, mk_world (fs w) (stdin w) (stdout w ++ [line])).

(** [input(prompt)] *)
Definition input (prompt : str) : M str :=
  fun w =>
    match stdin w with
    | [] => (Raise EOFError, mk_world (fs w) [] (stdout w ++ [prompt]))
    | line :: rest => (Ok line, mk_world (fs w) rest (stdout w ++ [prompt]))
    end.

Definition get_fs : M Fs.node := fun w => (Ok (fs w), w).

Definition set_fs (t : Fs.node) : M unit :=
  fun w => (Ok tt, mk_world t (stdin w) (stdout w)).

(** Lift a file-system operation; [None] raises [e]. *)
Definition update_fs (f : Fs.node -> option Fs.node) (e : exn) : M unit :=
  fun w =>
    match f (fs w) with
    | Some t => (Ok tt, mk_world t (stdin w) (stdout w))
    | None => (Raise e, w)
    end.

(** [for x in l: body x] *)
Fixpoint for_each {A} (l : list A) (body : A -> M unit) : M unit :=
  match l with
  | [] => ret tt
  | x :: l' => bind (body x) (fun _ => for_each l' body)
  end.

(** [p.exists()] *)
Definition exists_ (p : Fs.path) : M bool :=
  fun w => (Ok (Fs.exists_ p (fs w)), w).

(** Reading the bytes of a file. *)
Definition read_bytes (p : Fs.path) : M str :=
  fun w =>
    match Fs.lookup p (fs w) with
    | Some (Fs.File data) => (Ok data, w)
    | Some (Fs.Dir _) => (Raise IsADirectoryError, w)
    | None => (Raise FileNotFoundError, w)
    end.

(** [open(p, 'r').read()]: text mode, where every line ending is read as
    a line feed. *)
Definition read_text (p : Fs.path) : M str :=
  bind (read_bytes p) (fun data => ret (Text.universal_newlines data)).

(** [open(p, 'w').write(data)] *)
Definition write_text (p : Fs.path) (data : str) : M unit :=
  fun w =>
    match Fs.lookup p (fs w) with
    | Some (Fs.Dir _) => (Raise IsADirectoryError, w)
    | _ => update_fs (Fs.put p (Fs.File data)) FileNotFoundError w
    end.

(** [shutil.rmtree(p)] *)
Definition rmtree (p : Fs.path) : M unit :=
  fun w =>
    match Fs.lookup p (fs w) with
    | Some (Fs.Dir _) => update_fs (Fs.remove p) NotADirectoryError w
    | Some (Fs.File _) => (Raise NotADirectoryError, w)
    | None => (Raise FileNotFoundError, w)
    end.

(** [shutil.copytree(src, dst)].  The entries of [src] are listed before
    [dst] is made, so a [dst] directly inside [src] receives the tree as it
    was; a [dst] deeper inside [src] makes the copy descend into itself
    until it fails. *)
Definition copytree (src dst : Fs.path) : M unit :=
  fun w =>
    match Fs.lookup src (fs w) with
    | Some (Fs.Dir es) =>
        if Fs.exists_ dst (fs w) then (Raise FileExistsError, w)
        else if Fs.is_prefix src (Fs.parent dst) && negb (Fs.is_prefix (Fs.parent dst) src)
        then (Raise RecursionError, w)
        else
          match Fs.makedirs (Fs.parent dst) (fs w) with
          | Some t => update_fs (Fs.put dst (Fs.Dir es)) NotADirectoryError
                        (mk_world t (stdin w) (stdout w))
          | None => (Raise NotADirectoryError, w)
          end
    | Some (Fs.File _) => (Raise NotADirectoryError, w)
    | None => (Raise FileNotFoundError, w)
    end.

(** [p.mkdir(parents=True, exist_ok=True)] *)
Definition mkdir_p (p : Fs.path) : M unit :=
  update_fs (Fs.makedirs p) FileExistsError.

(** [shutil.copy2(src, dst)]: when [dst] is a directory the file goes into
    it under the base name of [src]. *)
Definition copy2 (src dst : Fs.path) : M unit :=
  fun w =>
    match Fs.lookup src (fs w) with
    | Some (Fs.File data) =>
        let target := match Fs.lookup dst (fs w) with
                      | Some (Fs.Dir _) => dst ++ [Fs.basename src]
                      | _ => dst
                      end in
        if list_eq_dec (list_eq_dec ascii_dec) src target
        then (Raise SameFileError, w)
        else write_text target data w
    | Some (Fs.Dir _) => (Raise IsADirectoryError, w)
    | None => (Raise FileNotFoundError, w)
    end.

End Io.

Declare Scope io_scope.
Delimit Scope io_scope with io.
Notation "x <- m ;; k" := (Io.bind m (fun x => k))
(at level 61, m at next level, right associativity) : io_scope.
Notation "m ;; k" := (Io.bind m (fun _ => k))
(at level 61, right associativity) : io_scope.

(** ** Regular expressions *)

(** The fragment of Python's [re] that the program uses: literal text,
  repetitions of a character class (greedy or lazy) and capture groups,
  matched by backtracking in [re]'s order of preference. *)
Module Re.

(** Character classes on ASCII text. *)
Definition space (c : ascii) : bool :=            (* \s *)
  let n := nat_of_ascii c in
  ((9 <=? n) && (n <=? 13)) || ((28 <=? n) && (n <=? 32)).

Definition digit (c : ascii) : bool :=            (* \d *)
  let n := nat_of_ascii c in (48 <=? n) && (n <=? 57).

Definition any (c : ascii) : bool := true.        (* [\s\S] *)

Definition not_char (x : ascii) (c : ascii) : bool :=   (* [^x] *)
  negb (Ascii.eqb c x).

Inductive atom : Type :=
| Lit (s : str)                       (* the text itself *)
| Star (p : ascii -> bool)            (* p*  *)
| Plus (p : ascii -> bool)            (* p+  *)
| LazyStar (p : ascii -> bool)        (* p*? *)
| Open                                (* (   *)
| Close.                              (* )   *)

Definition pattern := list atom.

(** A match in progress: [pos] characters consumed since the start of the
    match, [marks] the positions of the group parentheses passed so far. *)
Definition outcome := option (nat * list nat).

(** [p*] then [k]: as many characters as possible first. *)
Fixpoint greedy (p : ascii -> bool) (k : str -> nat -> outcome)
    (s : str) (pos : nat) : outcome :=
  match s with
  | c :: s' =>
      if p c
      then match greedy p k s' (S pos) with
           | Some r => Some r
           | None => k s pos
           end
      else k s pos
  | [] => k s pos
  end.

(** [p*?] then [k]: as few characters as possible first. *)
Fixpoint lazy (p : ascii -> bool) (k : str -> nat -> outcome)
    (s : str) (pos : nat) : outcome :=
  match k s pos with
  | Some r => Some r
  | None =>
      match s with
      | c :: s' => if p c then lazy p k s' (S pos) else None
      | [] => None
      end
  end.

(** Match [pat] at the head of [s]. *)
Fixpoint run (pat : pattern) (marks : list nat) (s : str) (pos : nat)
    : outcome :=
  match pat with
  | [] => Some (pos, marks)
  | Lit l :: pat' =>
      if Text.startswith l s
      then run pat' marks (skipn (length l) s) (pos + length l)
      else None
  | Star p :: pat' => greedy p (run pat' marks) s pos
  | Plus p :: pat' =>
      match s with
      | c :: s' => if p c then greedy p (run pat' marks) s' (S pos) else None
      | [] => None
      end
  | LazyStar p :: pat' => lazy p (run pat' marks) s pos
  | Open :: pat' => run pat' (marks ++ [pos]) s pos
  | Close :: pat' => run pat' (marks ++ [pos]) s pos
  end.

(** [re.match]: the length of the match and the text of its groups. *)
Fixpoint groups (s : str) (marks : list nat) : list str :=
  match marks with
  | a :: b :: marks' => firstn (b - a) (skipn a s) :: groups s marks'
  | _ => []
  end.

Definition match_at (pat : pattern) (s : str) : option (nat * list str) :=
  match run pat [] s 0 with
  | Some (len, marks) => Some (len, groups s marks)
  | None => None
  end.

(** A replacement template: text and group references [\g<n>]. *)
Inductive piece : Type :=
| Txt (s : str)
| Grp (n : nat).

Definition expand (repl : list piece) (gs : list str) : str :=
  flat_map (fun x => match x with
                     | Txt t => t
                     | Grp n => nth (n - 1) gs []
                     end) repl.

(** [re.sub(pat, repl, s)]: scan from the left; at a match write the
    replacement and go on after it, otherwise copy one character.  [skip]
    counts the characters of the last match still to be passed over. *)
Fixpoint scan (pat : pattern) (repl : list piece) (s : str) (skip : nat)
    : str :=
  match skip with
  | S skip' =>
      match s with
      | _ :: s' => scan pat repl s' skip'
      | [] => []
      end
  | 0 =>
      match match_at pat s with
      | Some (len, gs) =>
          expand repl gs ++
          match s with
          | c :: s' =>
              match len with
              | 0 => c :: scan pat repl s' 0
              | S n => scan pat repl s' n
              end
          | [] => []
          end
      | None =>
          match s with
          | c :: s' => c :: scan pat repl s' 0
          | [] => []
          end
      end
  end.

Definition sub (pat : pattern) (repl : list piece) (s : str) : str :=
  scan pat repl s 0.

End Re.

(** ** Floating-point formatting *)

(** A Python [float] is an IEEE double, here [spec_float]: a zero, an
  infinity, a NaN, or [(-1)^s * m * 2^e].  [format_f n x] is [f"{x:.{n}f}"]:
  the exact value rounded to [n] decimals, ties to even. *)
Module Num.

Definition float := spec_float.

Definition pad_zeros (n : nat) (digits : str) : str :=
  repeat "0"%char (n - length digits) ++ digits.

(** [q / 10^n] written with [n] decimals. *)
Definition fixed (n : nat) (q : Z) : str :=
  let scale := (10 ^ Z.of_nat n)%Z in
  let whole := Text.of_Z (q / scale) in
  match n with
  | 0 => whole
  | _ => whole ++ "."%char :: pad_zeros n (Text.of_Z (q mod scale))
  end.

(** [m * 2^e * 10^n] rounded to the nearest integer, ties to even. *)
Definition scaled (n : nat) (m : positive) (e : Z) : Z :=
  let num := (Z.pos m * 10 ^ Z.of_nat n)%Z in
  if (0 <=? e)%Z then (num * 2 ^ e)%Z
  else
    let den := (2 ^ (- e))%Z in
    let q := (num / den)%Z in
    let r := (num mod den)%Z in
    match (2 * r ?= den)%Z with
    | Gt => (q + 1)%Z
    | Eq => if Z.even q then q else (q + 1)%Z
    | Lt => q
    end.

Definition sign (s : bool) : str := if s then text "-" else [].

Definition format_f (n : nat) (x : float) : str :=
  match x with
  | S754_nan => text "nan"
  | S754_infinity s => sign s ++ text "inf"
  | S754_zero s => sign s ++ fixed n 0
  | S754_finite s m e => sign s ++ fixed n (scaled n m e)
  end.

Definition vec : Type := float * float * float.

End Num.

(** ** STLFileSelector *)

Module Resolver.
Import Io.
Local Open Scope io_scope.

Definition stl_components : list str :=
  [text "FL"; text "FR"; text "RL"; text "RR"; text "mainBody"].

(** [folder.glob("*.stl")]: the entries of the folder whose name ends in
    [.stl], in listing order; nothing when the folder is not a directory. *)
Definition glob_stl (folder : Fs.path) (t : Fs.node) : list str :=
  match Fs.lookup folder t with
  | Some (Fs.Dir es) =>
      filter (Text.endswith (text ".stl")) (map fst es)
  | _ => []
  end.

(** The test of lines 69-75 on one file name. *)
Definition matches (component name : str) : bool :=
  let filename := Text.lower name in
  let component_lower := Text.lower component in
  Text.contains component_lower filename
  || Text.startswith component_lower filename
  || Text.endswith (component_lower ++ text ".stl") filename.

Definition matching_files (component : str) (stl_files : list str) : list str :=
  filter (matches component) stl_files.

(** [s.strip()] *)
Definition is_space (c : ascii) : bool :=
  let n := nat_of_ascii c in
  ((9 <=? n) && (n <=? 13)) || ((28 <=? n) && (n <=? 32)).

Fixpoint lstrip (s : str) : str :=
  match s with
  | c :: s' => if is_space c then lstrip s' else s
  | [] => []
  end.

Definition strip (s : str) : str := rev (lstrip (rev (lstrip s))).

(** [int(s)] on stripped ASCII text: an optional sign, then digits, with
    single underscores allowed between digits. *)
Definition digit_of (c : ascii) : option Z :=
  let n := nat_of_ascii c in
  if (48 <=? n) && (n <=? 57) then Some (Z.of_nat (n - 48)) else None.

Fixpoint int_digits (acc : Z) (after_digit : bool) (s : str) : option Z :=
  match s with
  | [] => if after_digit then Some acc else None
  | c :: s' =>
      match digit_of c with
      | Some d => int_digits (10 * acc + d) true s'
      | None =>
          if Ascii.eqb c "_" && after_digit
          then match s' with
               | c' :: _ => match digit_of c' with
                            | Some _ => int_digits acc false s'
                            | None => None
                            end
               | [] => None
               end
          else None
      end
  end.

Definition int_of (s : str) : option Z :=
  match s with
  | "-"%char :: s' => option_map Z.opp (int_digits 0 false s')
  | "+"%char :: s' => int_digits 0 false s'
  | _ => int_digits 0 false s
  end.

Definition tick (component name : str) : str :=
  text "✓ " ++ component ++ text ": " ++ name.

Definition no_file_found (component : str) : str :=
  text "✗ No file found for " ++ component.

(** The [while True] loop of lines 86-97, by recursion on the lines still
    to be read: it ends with the chosen index, or with [EOFError] when the
    input runs out. *)
Fixpoint choose (pending : list str) (component : str) (count : nat)
    (out : list str) : res nat * list str * list str :=
  let prompt :=
    text "Select file for " ++ component ++ text " (1-"
    ++ Text.of_Z (Z.of_nat count) ++ text "): " in
  match pending with
  | [] => (Raise EOFError, [], out ++ [prompt])
  | line :: rest =>
      match int_of (strip line) with
      | Some n =>
          let idx := (n - 1)%Z in
          if (0 <=? idx)%Z && (idx <? Z.of_nat count)%Z
          then (Ok (Z.to_nat idx), rest, out ++ [prompt])
          else choose rest component count
                 (out ++ [prompt; text "Invalid choice. Please try again."])
      | None =>
          choose rest component count
            (out ++ [prompt; text "Please enter a valid number."])
      end
  end.

Definition select_index (component : str) (count : nat) : M nat :=
  fun w =>
    match choose (stdin w) component count (stdout w) with
    | (r, rest, out) => (r, mk_world (fs w) rest out)
    end.

(** [for i, file in enumerate(matching_files): print(f"  {i+1}. {file.name}")] *)
Fixpoint print_numbered (i : nat) (files : list str) : M unit :=
  match files with
  | [] => ret tt
  | f :: files' =>
      print (text "  " ++ Text.of_Z (Z.of_nat (i + 1)) ++ text ". " ++ f) ;;
      print_numbered (S i) files'
  end.

(** The loop over the components (lines 64-100).  [None] stands for
    [return {}] from inside the loop. *)
Fixpoint for_components (folder : Fs.path) (stl_files : list str)
    (components : list str) (found_files : list (str * Fs.path))
    : M (option (list (str * Fs.path))) :=
  match components with
  | [] => ret (Some found_files)
  | component :: components' =>
      let matching := matching_files component stl_files in
      match matching with
      | [] =>
          print (no_file_found component) ;;
          ret None
      | [only] =>
          print (tick component only) ;;
          for_components folder stl_files components'
            (Fs.assoc_set component (folder ++ [only]) found_files)
      | _ =>
          print (text "⚠ Multiple files found for " ++ component ++ text ":") ;;
          print_numbered 0 matching ;;
          idx <- select_index component (length matching) ;;
          let chosen := nth idx matching [] in
          print (tick component chosen) ;;
          for_components folder stl_files components'
            (Fs.assoc_set component (folder ++ [chosen]) found_files)
      end
  end.

Definition _find_stl_files_in_folder (folder : Fs.path)
    : M (list (str * Fs.path)) :=
  t <- get_fs ;;
  let stl_files := glob_stl folder t in
  print (Text.nl :: text "Found " ++ Text.of_Z (Z.of_nat (length stl_files))
         ++ text " STL files in folder:") ;;
  for_each stl_files (fun name => print (text "  " ++ name)) ;;
  r <- for_components folder stl_files stl_components [] ;;
  match r with
  | Some found_files => ret found_files
  | None => ret []
  end.

(** *** Vocabulary of the resolver properties *)



(** The first component, in canonical order, with no matching file. *)
Definition first_missing (stl_files : list str) : option str :=
  find (fun c => match matching_files c stl_files with
                 | [] => true
                 | _ => false
                 end) stl_components.

End Resolver.

(** ** CaseSetup *)

(** [trimesh.load(path).centroid], as a function of the bytes of the mesh
  file; [None] when [trimesh] raises. *)
Class Geometry := {
centroid_of : str -> option Num.vec
}.

Module CaseSetup.
Import Io.
Local Open Scope io_scope.

Definition wheels : list str := [text "FL"; text "FR"; text "RL"; text "RR"].

Definition is_wheel (component : str) : bool :=
  existsb (Text.eqb component) wheels.

(** [str(path)] *)
Fixpoint show_path (p : Fs.path) : str :=
  match p with
  | [] => text "."
  | [c] => c
  | c :: p' => c ++ "/"%char :: show_path p'
  end.

(** [str(e)], for the console. *)
Definition describe (e : exn) : str :=
  match e with
  | FileNotFoundError => text "No such file or directory"
  | NotADirectoryError => text "Not a directory"
  | IsADirectoryError => text "Is a directory"
  | FileExistsError => text "File exists"
  | SameFileError => text "are the same file"
  | RecursionError => text "maximum recursion depth exceeded"
  | EOFError => text "EOF when reading a line"
  | ValueError => text "invalid value"
  | IndexError => text "index out of bounds"
  | TypeError => text "len() of unsized object"
  | GeometryError => text "could not load mesh"
  end.

(** f"({centroid[0]:.8f} {centroid[1]:.6f} {centroid[2]:.6f})" *)
Definition origin_numbers (centroid : Num.vec) : str :=
  match centroid with
  | (x, y, z) =>
      Num.format_f 8 x ++ text " " ++ Num.format_f 6 y
      ++ text " " ++ Num.format_f 6 z
  end.

Definition origin_str (centroid : Num.vec) : str :=
  text "(" ++ origin_numbers centroid ++ text ")".

(** r'numberOfSubdomains\s+\d+;' *)
Definition subdomains_pattern : Re.pattern :=
  [Re.Lit (text "numberOfSubdomains"); Re.Plus Re.space; Re.Plus Re.digit;
   Re.Lit (text ";")].

(** f'numberOfSubdomains {n_proc};' *)
Definition subdomains_entry (n_proc : Z) : str :=
  text "numberOfSubdomains " ++ Text.of_Z n_proc ++ text ";".

(** rf'(\s+{component}\s*\{{\s*[\s\S]*?type\s+rotatingWallVelocity;\s*origin\s+)\([^)]+\)(;[\s\S]*?\}})' *)
Definition origin_pattern (component : str) : Re.pattern :=
  [Re.Open;
     Re.Plus Re.space; Re.Lit component; Re.Star Re.space; Re.Lit (text "{");
     Re.Star Re.space; Re.LazyStar Re.any;
     Re.Lit (text "type"); Re.Plus Re.space;
     Re.Lit (text "rotatingWallVelocity;"); Re.Star Re.space;
     Re.Lit (text "origin"); Re.Plus Re.space;
   Re.Close;
   Re.Lit (text "("); Re.Plus (Re.not_char ")"); Re.Lit (text ")");
   Re.Open;
     Re.Lit (text ";"); Re.LazyStar Re.any; Re.Lit (text "}");
   Re.Close].

(** rf'\g<1>{origin_str}\g<2>' *)
Definition origin_replacement (centroid : Num.vec) : list Re.piece :=
  [Re.Grp 1; Re.Txt (origin_str centroid); Re.Grp 2].

(** One round of the loop of lines 254-270 on the text of the file. *)
Definition patch_origin (component : str) (centroid : Num.vec)
    (content : str) : str :=
  Re.sub (origin_pattern component) (origin_replacement centroid) content.

(** Line 231 on the text of the file. *)
Definition patch_subdomains (n_proc : Z) (content : str) : str :=
  Re.sub subdomains_pattern [Re.Txt (subdomains_entry n_proc)] content.

(** *** Vocabulary of the geometry patch: velocity files *)

(** A velocity file as the patch expects it: motion blocks of wheels, each
    with its origin vector right after its type, between stretches of other
    text.  A block reads

      <gap1><name><gap2>{<gap3>type<gap4>rotatingWallVelocity;<gap5>origin<gap6>(<vector>);<closing>}

    where the gaps are white space. *)
Record block : Type := mk_block {
  name : str;
  gap1 : str; gap2 : str; gap3 : str; gap4 : str; gap5 : str; gap6 : str;
  vector : str;
  closing : str
}.

Definition opening (b : block) : str :=
  gap1 b ++ name b ++ gap2 b ++ text "{" ++ gap3 b ++ text "type" ++ gap4 b
  ++ text "rotatingWallVelocity;" ++ gap5 b ++ text "origin" ++ gap6 b.













Section WithGeometry.
Context {G : Geometry}.

Variable base_dir : Fs.path.
Variable case_dir : Fs.path.
Variable n_proc : Z.

Definition decompose_file : Fs.path :=
  case_dir ++ [text "system"; text "decomposeParDict"].

Definition u_file : Fs.path := case_dir ++ [text "0"; text "U"].

Definition tri_surface_dir : Fs.path :=
  case_dir ++ [text "constant"; text "triSurface"].

Definition _update_decompose_par_dict : M unit :=
  present <- exists_ decompose_file ;;
  if present then
    content <- read_text decompose_file ;;
    write_text decompose_file (patch_subdomains n_proc content) ;;
    print (text "Updated decomposeParDict to use " ++ Text.of_Z n_proc
           ++ text " processors")
  else ret tt.

(** The loop over [wheel_centers.items()], on the text of the file. *)
Fixpoint for_wheel_centers (items : list (str * Num.vec)) (content : str)
    : M str :=
  match items with
  | [] => ret content
  | (component, centroid) :: items' =>
      let old_content := content in
      let content := patch_origin component centroid content in
      (if Text.eqb content old_content
       then print (text "  Warning: Could not find/update " ++ component
                   ++ text " origin in U file")
       else print (text "  Updated " ++ component ++ text " origin to: "
                   ++ origin_str centroid)) ;;
      for_wheel_centers items' content
  end.

Definition _update_wheel_centers (wheel_centers : list (str * Num.vec))
    : M unit :=
  present <- exists_ u_file ;;
  if negb present then
    print (text "Warning: U file not found at " ++ show_path u_file)
  else
    content <- read_text u_file ;;
    print (text "Updating wheel centers in U file...") ;;
    content <- for_wheel_centers wheel_centers content ;;
    write_text u_file content ;;
    print (text "✓ Wheel centers updated in U file").

(** [mesh = trimesh.load(file_path); centroid = mesh.centroid] *)
Definition load_centroid (file_path : Fs.path) : M Num.vec :=
  data <- read_bytes file_path ;;
  match centroid_of data with
  | Some centroid => ret centroid
  | None => raise GeometryError
  end.

(** The loop over [stl_files.items()] (lines 189-204). *)
Fixpoint place (items : list (str * Fs.path))
    (wheel_centers : list (str * Num.vec)) : M (list (str * Num.vec)) :=
  match items with
  | [] => ret wheel_centers
  | (component, file_path) :: items' =>
      let dest_name := component ++ text ".stl" in
      let dest_path := tri_surface_dir ++ [dest_name] in
      print (text "Copying " ++ component ++ text ": " ++ show_path file_path
             ++ text " → " ++ show_path dest_path) ;;
      copy2 file_path dest_path ;;
      wheel_centers <-
        (if is_wheel component then
           try_
             (centroid <- load_centroid file_path ;;
              print (text "  Calculated " ++ component ++ text " center: "
                     ++ origin_str centroid) ;;
              ret (Fs.assoc_set component centroid wheel_centers))
             (fun e =>
                print (text "  Warning: Could not calculate centroid for "
                       ++ component ++ text ": " ++ describe e) ;;
                ret wheel_centers)
         else ret wheel_centers) ;;
      place items' wheel_centers
  end.

Definition setup_case (stl_files : list (str * Fs.path)) : M bool :=
  try_
    (present <- exists_ case_dir ;;
     (if present then
        print (text "Removing existing case directory: " ++ show_path case_dir) ;;
        rmtree case_dir
      else ret tt) ;;
     print (text "Copying base case from " ++ show_path base_dir
            ++ text " to " ++ show_path case_dir) ;;
     copytree base_dir case_dir ;;
     mkdir_p tri_surface_dir ;;
     wheel_centers <- place stl_files [] ;;
     (match wheel_centers with
      | [] => ret tt
      | _ => _update_wheel_centers wheel_centers
      end) ;;
     _update_decompose_par_dict ;;
     print (text "✓ Case setup completed successfully!") ;;
     ret true)
    (fun e =>
       print (text "Error setting up case: " ++ describe e) ;;
       ret false).

End WithGeometry.
End CaseSetup.

(** The earlier set-up script, [my-previous-setupcase.py]. *)
Module LegacySetup.
Import Io.
Local Open Scope io_scope.

Definition update_decompose_par_dict (case_dir : Fs.path) (n_proc : Z) : M unit :=
  let decompose_file := case_dir ++ [text "system"; text "decomposeParDict"] in
  present <- exists_ decompose_file ;;
  if present then
    content <- read_text decompose_file ;;
    write_text decompose_file (CaseSetup.patch_subdomains n_proc content)
  else ret tt.

(** [n_proc] is [None] or an integer; [if n_proc:] holds for a non-zero
    integer. *)
Definition setup_case (base_dir case_dir : Fs.path) (n_proc : option Z) : M unit :=
  present <- exists_ case_dir ;;
  (if present then rmtree case_dir else ret tt) ;;
  copytree base_dir case_dir ;;
  (match n_proc with
   | Some n =>
       if Z.eqb n 0 then ret tt
       else
         update_decompose_par_dict case_dir n ;;
         print (text "Updated decomposeParDict to use " ++ Text.of_Z n
                ++ text " processors")
   | None => ret tt
   end) ;;
  print (text "Copied " ++ CaseSetup.show_path base_dir ++ text " → "
         ++ CaseSetup.show_path case_dir ++ text " Completed").

End LegacySetup.

(** ** ResultsExtractor *)

(** [float(token)], the number parser behind [numpy.loadtxt]; [None] when
  the token is not a number. *)
Class Numbers := {
float_of_string : str -> option Num.float
}.

Module Results.
Import Io.
Local Open Scope io_scope.

(** A [numpy] array of dimension 0, 1 or 2. *)
Inductive ndarray : Type :=
| Scalar (x : Num.float)
| Vector (xs : list Num.float)
| Matrix (rows : list (list Num.float)).

Record sample := mk_sample {
  time : Num.float;
  Cd : Num.float;
  Cl : Num.float;
  Cm : Num.float
}.

Fixpoint split_on (sep : ascii -> bool) (cur : str) (s : str) : list str :=
  match s with
  | [] => [rev cur]
  | c :: s' =>
      if sep c then rev cur :: split_on sep [] s'
      else split_on sep (c :: cur) s'
  end.

Definition lines (s : str) : list str :=
  split_on (Ascii.eqb Text.nl) [] s.

(** [line.split()] *)
Definition words (line : str) : list str :=
  filter (fun t => negb (Text.eqb t [])) (split_on Re.space [] line).

(** [line.split('#', 1)[0]] *)
Fixpoint strip_comment (line : str) : str :=
  match line with
  | [] => []
  | c :: line' => if Ascii.eqb c "#" then [] else c :: strip_comment line'
  end.

Section WithNumbers.
Context {N : Numbers}.

Fixpoint floats (tokens : list str) : option (list Num.float) :=
  match tokens with
  | [] => Some []
  | t :: tokens' =>
      match float_of_string t, floats tokens' with
      | Some x, Some xs => Some (x :: xs)
      | _, _ => None
      end
  end.

(** The rows of the table: the lines that hold anything besides a comment,
    each a list of numbers, all of the same length. *)
Fixpoint rows_of (ls : list str) (width : option nat)
    : res (list (list Num.float)) :=
  match ls with
  | [] => Ok []
  | l :: ls' =>
      match words (strip_comment l) with
      | [] => rows_of ls' width
      | tokens =>
          match floats tokens with
          | None => Raise ValueError
          | Some row =>
              let fits := match width with
                          | Some n => Nat.eqb (length row) n
                          | None => true
                          end in
              if fits then
                match rows_of ls' (Some (length row)) with
                | Ok rows => Ok (row :: rows)
                | Raise e => Raise e
                end
              else Raise ValueError
          end
      end
  end.

Definition table (content : str) : res (list (list Num.float)) :=
  rows_of (lines content) None.

(** The array [loadtxt] returns for a table: axes of length one are
    dropped. *)
Definition squeeze (rows : list (list Num.float)) : ndarray :=
  match rows with
  | [] => Vector []
  | [row] =>
      match row with
      | [x] => Scalar x
      | _ => Vector row
      end
  | _ =>
      if forallb (fun row => Nat.eqb (length row) 1) rows
      then Vector (flat_map (fun row => row) rows)
      else Matrix rows
  end.

(** [np.loadtxt(filepath, comments="#")] *)
Definition loadtxt (filepath : Fs.path) : M ndarray :=
  content <- read_text filepath ;;
  match table content with
  | Ok rows => ret (squeeze rows)
  | Raise e => raise e
  end.

(** [len(data)] *)
Definition len (data : ndarray) : M nat :=
  match data with
  | Scalar _ => raise TypeError
  | Vector xs => ret (length xs)
  | Matrix rows => ret (length rows)
  end.

(** [data] itself when [data.ndim == 1], else [data[-1]]. *)
Definition latest (data : ndarray) : M (list Num.float) :=
  match data with
  | Vector xs => ret xs
  | Matrix rows =>
      match rev rows with
      | row :: _ => ret row
      | [] => raise IndexError
      end
  | Scalar _ => raise IndexError
  end.

(** [row[i]] *)
Definition item (row : list Num.float) (i : nat) : M Num.float :=
  match nth_error row i with
  | Some x => ret x
  | None => raise IndexError
  end.

Variable case_dir : Fs.path.

Definition coefficient_file : Fs.path :=
  case_dir ++ [text "postProcessing"; text "forceCoeffs1"; text "0";
               text "coefficient.dat"].

Definition extract_latest_cd : M (option sample) :=
  let filepath := coefficient_file in
  present <- exists_ filepath ;;
  if negb present then
    print (text "Warning: coefficient.dat not found at: "
           ++ CaseSetup.show_path filepath) ;;
    ret None
  else
    try_
      (data <- loadtxt filepath ;;
       n <- len data ;;
       if Nat.eqb n 0 then
         print (text "Warning: No data found in coefficient.dat") ;;
         ret None
       else
         latest_row <- latest data ;;
         time <- item latest_row 0 ;;
         Cd <- item latest_row 1 ;;
         Cl <- item latest_row 4 ;;
         Cm <- item latest_row 6 ;;
         let result := mk_sample time Cd Cl Cm in
         print (Text.nl :: Text.times "=" 40) ;;
         print (text "SIMULATION RESULTS") ;;
         print (Text.times "=" 40) ;;
         print (text "Time: " ++ Num.format_f 6 time) ;;
         print (text "Drag Coefficient (Cd): " ++ Num.format_f 6 Cd) ;;
         print (text "Lift Coefficient (Cl): " ++ Num.format_f 6 Cl) ;;
         print (text "Moment Coefficient (Cm): " ++ Num.format_f 6 Cm) ;;
         print (Text.times "=" 40) ;;
         ret (Some result))
      (fun e =>
         print (text "Error extracting results: " ++ CaseSetup.describe e) ;;
         ret None).

(** *** Vocabulary of the extraction property *)

(** The sample made of columns 0, 1, 4 and 6 of a row. *)
Definition sample_of (row : list Num.float) : sample :=
  mk_sample (nth 0 row S754_nan) (nth 1 row S754_nan)
            (nth 4 row S754_nan) (nth 6 row S754_nan).

End WithNumbers.
End Results.

(** ** Sample inputs *)

Module Samples.

(** A machine on which the mesh refinement tool exits with status 2 and
    every other tool with 0; its clock counts the processes run so far. *)
Definition snappy_fails : Platform := {|
  Host := nat;
  Time := nat;
  spawn := fun argv h =>
    (if Text.eqb (hd [] argv) (text "snappyHexMesh") then 2%Z else 0%Z, S h);
  clock := fun h => (h, h);
  fmt_seconds := fun t0 t1 => Text.of_Z (Z.of_nat (t1 - t0));
  fmt_minutes := fun t0 t1 => Text.of_Z (Z.of_nat ((t1 - t0) / 60))
|}.

Definition fresh : @Runner.state snappy_fails := Runner.mk_state (P:=snappy_fails) 0 [] [].

(** A velocity file with a motion block for each wheel and a fixed wall
    for the body. *)
Definition u_template : str := text
"boundaryField
{
    inlet { type fixedValue; value uniform (20 0 0); }
    FL
    {
        type            rotatingWallVelocity;
        origin          (0 0 0);
        axis            (0 1 0);
        omega           66.7;
    }
    FR
    {
        type            rotatingWallVelocity;
        origin          (0 0 0);
        axis            (0 1 0);
        omega           66.7;
    }
    RL
    {
        type            rotatingWallVelocity;
        origin          (0 0 0);
        axis            (0 1 0);
        omega           66.7;
    }
    RR
    {
        type            rotatingWallVelocity;
        origin          (0 0 0);
        axis            (0 1 0);
        omega           66.7;
    }
    mainBody { type noSlip; }
}
".

Definition decompose_template : str := text
"numberOfSubdomains 4;
method          scotch;
".

Definition base_case : Fs.node :=
  Fs.Dir [(text "0", Fs.Dir [(text "U", Fs.File u_template)]);
          (text "constant", Fs.Dir []);
          (text "system",
           Fs.Dir [(text "decomposeParDict", Fs.File decompose_template)])].

(** A mesh is stood for by the text of its centroid's name. *)
Definition one : Num.float := S754_finite false 4503599627370496 (-52).
Definition half_neg : Num.float := S754_finite true 4503599627370496 (-53).
Definition x_example : Num.float := S754_finite false 5559999489367579 (-52).
Definition y_example : Num.float := S754_finite false 5281997283365585 (-51).

(** The centroid of the sample meshes: the mesh [broken] cannot be
    loaded, every other mesh has the centroid of the specification's
    example, (1.23456789, 2.345678, -0.5). *)
Definition sample_geometry : Geometry := {|
  centroid_of := fun data =>
    if Text.eqb data (text "broken") then None
    else Some (x_example, y_example, half_neg)
|}.

(** An input folder with one file per component. *)
Definition stl_folder : Fs.node :=
  Fs.Dir [(text "car_FL.stl", Fs.File (text "front left"));
          (text "car_FR.stl", Fs.File (text "front right"));
          (text "car_RL.stl", Fs.File (text "rear left"));
          (text "car_RR.stl", Fs.File (text "rear right"));
          (text "car_mainBody.stl", Fs.File (text "body"));
          (text "notes.txt", Fs.File (text "not a mesh"))].

(** The same without a file for [RR]. *)
Definition stl_folder_no_RR : Fs.node :=
  Fs.Dir [(text "car_FL.stl", Fs.File (text "front left"));
          (text "car_FR.stl", Fs.File (text "front right"));
          (text "car_RL.stl", Fs.File (text "rear left"));
          (text "car_mainBody.stl", Fs.File (text "body"))].

(** A folder where one file carries the tokens of two components. *)
Definition stl_folder_shared : Fs.node :=
  Fs.Dir [(text "FL_FR.stl", Fs.File (text "front axle"));
          (text "RL.stl", Fs.File (text "rear left"));
          (text "RR.stl", Fs.File (text "rear right"));
          (text "mainBody.stl", Fs.File (text "body"))].


Definition disk (stl : Fs.node) : Fs.node :=
  Fs.Dir [(text "baseCase", base_case); (text "stl", stl)].

Definition start (stl : Fs.node) : Io.world :=
  Io.mk_world (disk stl) [] [].

Definition base_dir : Fs.path := [text "baseCase"].
Definition case_dir : Fs.path := [text "case"].
Definition stl_dir : Fs.path := [text "stl"].




End Samples.

(** ** Folder selection and the program ([select_files_cli],
    [select_files_gui], [main]) *)

(** How a path given as text is read ([Path(s)], [os.path]): its components
    from the root of the tree. *)
Class Paths := {
path_of : str -> Fs.path
}.

(** The folder dialog of [tkinter]: whether its window can be opened, and
    what [askdirectory] answers (the empty text when the dialog is
    cancelled). *)
Class Dialog := {
open_window : res unit;
askdirectory : res str
}.

(** What the processes of a run leave on the disk: the tree after them,
    from the processes started, with their exit status, and the tree
    before. *)
Class Tools := {
leaves : list (list str * Z) -> Fs.node -> Fs.node
}.

Module Selector.
Import Io.
Local Open Scope io_scope.

Section WithPaths.
Context {Ps : Paths}.

(** [os.path.isdir(p)] *)
Definition isdir (p : Fs.path) : M bool :=
  fun w =>
    (Ok match Fs.lookup p (fs w) with
        | Some (Fs.Dir _) => true
        | _ => false
        end, w).

(** The [while True] loop of [select_files_cli] (lines 134-158).  Every
    round reads a line of input, so the loop is run for a number of rounds
    that exceeds the lines of input left; the round that finds no input
    raises [EOFError]. *)
Fixpoint cli_rounds (fuel : nat) : M (list (str * Fs.path)) :=
  match fuel with
  | 0 => raise EOFError
  | S fuel' =>
      line <- input (Text.nl
                     :: text "Enter path to folder containing STL files: ") ;;
      let folder_path := Resolver.strip line in
      match folder_path with
      | [] =>
          print (text "Path cannot be empty. Please try again.") ;;
          cli_rounds fuel'
      | _ =>
          present <- exists_ (path_of folder_path) ;;
          if negb present then
            print (text "Folder does not exist: " ++ folder_path
                   ++ text ". Please try again.") ;;
            cli_rounds fuel'
          else
            is_directory <- isdir (path_of folder_path) ;;
            if negb is_directory then
              print (text "Path is not a directory: " ++ folder_path
                     ++ text ". Please try again.") ;;
              cli_rounds fuel'
            else
              print (text "Selected folder: " ++ folder_path) ;;
              selected_files <-
                Resolver._find_stl_files_in_folder (path_of folder_path) ;;
              match selected_files with
              | [] =>
                  print (text "Could not find all required STL files in the selected folder.") ;;
                  cli_rounds fuel'
              | _ => ret selected_files
              end
      end
  end.

Definition select_files_cli : M (list (str * Fs.path)) :=
  fun w => cli_rounds (S (length (stdin w))) w.

End WithPaths.
End Selector.

Module Main.
Import Io.

(** How a computation of the program ends: it returns, it raises an
    exception, or it leaves the program through [sys.exit(code)], which
    [except Exception] does not catch. *)
Inductive outcome (A : Type) : Type :=
| Returned (a : A)
| Raised (e : exn)
| Exited (code : Z).
Arguments Returned {A} a.
Arguments Raised {A} e.
Arguments Exited {A} code.

(** The command line, as [argparse] hands it over. *)
Record args := mk_args {
  case_dir : str;
  base_dir : str;
  stl_dir : option str;
  n_proc : Z;
  auto_run : bool;
  cli_mode : bool
}.

Section WithEnvironment.
Context {P : Platform} {G : Geometry} {N : Numbers}.
Context {Ps : Paths} {D : Dialog} {T : Tools}.

(** The console and the disk, the machine the tools run on, and the
    processes started so far. *)
Record machine := mk_machine {
  io : world;
  host : Host;
  calls : list (list str * Z)
}.

Definition Proc (A : Type) := machine -> outcome A * machine.

Definition ret {A} (a : A) : Proc A := fun m => (Returned a, m).

Definition bind {A B} (c : Proc A) (k : A -> Proc B) : Proc B :=
  fun m =>
    match c m with
    | (Returned a, m') => k a m'
    | (Raised e, m') => (Raised e, m')
    | (Exited code, m') => (Exited code, m')
    end.

(** [sys.exit(code)] *)
Definition exit {A} (code : Z) : Proc A := fun m => (Exited code, m).

(** [try: c except Exception as e: h e] *)
Definition except {A} (c : Proc A) (h : exn -> Proc A) : Proc A :=
  fun m =>
    match c m with
    | (Raised e, m') => h e m'
    | r => r
    end.

(** A computation on the console and the disk, within the program. *)
Definition lift {A} (c : M A) : Proc A :=
  fun m =>
    match c (io m) with
    | (Ok a, w) => (Returned a, mk_machine w (host m) (calls m))
    | (Raise e, w) => (Raised e, mk_machine w (host m) (calls m))
    end.

(** A computation of the runner, within the program.  The runner prints and
    starts processes; what these processes wrote is on the disk when it
    returns. *)
Definition run {A} (c : Runner.R A) : Proc A :=
  fun m =>
    match c (Runner.mk_state (host m) (stdout (io m)) (calls m)) with
    | (a, s) =>
        (Returned a,
         mk_machine
           (mk_world
              (leaves (skipn (length (calls m)) (Runner.calls s)) (fs (io m)))
              (stdin (io m)) (Runner.stdout s))
           (Runner.host s) (Runner.calls s))
    end.

Definition print (line : str) : Proc unit := lift (Io.print line).

Definition of_res {A} (r : res A) : Proc A :=
  fun m =>
    match r with
    | Ok a => (Returned a, m)
    | Raise e => (Raised e, m)
    end.

End WithEnvironment.

Declare Scope proc_scope.
Delimit Scope proc_scope with proc.
Notation "x <- c ;; k" := (bind c (fun x => k))
(at level 61, c at next level, right associativity) : proc_scope.
Notation "c ;; k" := (bind c (fun _ => k))
(at level 61, right associativity) : proc_scope.

Section WithEnvironment.
Context {P : Platform} {G : Geometry} {N : Numbers}.
Context {Ps : Paths} {D : Dialog} {T : Tools}.
Local Open Scope proc_scope.

Definition could_not_find (where_ : str) : str :=
  text "Could not find all required STL files in the " ++ where_ ++ text ".".

(** [select_files_gui] (lines 104-130) *)
Definition select_files_gui : Proc (list (str * Fs.path)) :=
  of_res open_window ;;
  print (text "Please select the folder containing your STL files...") ;;
  folder_path <- of_res askdirectory ;;
  match folder_path with
  | [] =>
      print (text "No folder selected. Exiting...") ;;
      exit 1
  | _ =>
      print (text "Selected folder: " ++ folder_path) ;;
      selected_files <-
        lift (Resolver._find_stl_files_in_folder (path_of folder_path)) ;;
      match selected_files with
      | [] =>
          print (could_not_find (text "selected folder")) ;;
          exit 1
      | _ => ret selected_files
      end
  end.

(** The text written to [simulation_results.txt] (lines 567-572). *)
Definition results_text (results : Results.sample) : str :=
  text "OpenFOAM Simulation Results" ++ [Text.nl]
  ++ Text.times "=" 30 ++ [Text.nl]
  ++ text "Time: " ++ Num.format_f 6 (Results.time results) ++ [Text.nl]
  ++ text "Drag Coefficient (Cd): " ++ Num.format_f 6 (Results.Cd results)
  ++ [Text.nl]
  ++ text "Lift Coefficient (Cl): " ++ Num.format_f 6 (Results.Cl results)
  ++ [Text.nl]
  ++ text "Moment Coefficient (Cm): " ++ Num.format_f 6 (Results.Cm results)
  ++ [Text.nl].

(** [main] (lines 458-583), after [parser.parse_args()]. *)
Definition main (a : args) : Proc unit :=
  print (Text.times "=" 60) ;;
  print (text "OpenFOAM Manual Simulation Runner") ;;
  print (Text.times "=" 60) ;;
  present <- lift (exists_ (path_of (base_dir a))) ;;
  (if negb present then
     print (text "Error: Base directory does not exist: " ++ base_dir a) ;;
     exit 1
   else ret tt) ;;
  print (Text.nl :: text "1. STL Folder Selection") ;;
  print (Text.times "-" 30) ;;
  stl_files <-
    except
      (match stl_dir a with
       | Some (c :: d) =>
           let given := c :: d in
           present <- lift (exists_ (path_of given)) ;;
           (if negb present then
              print (text "Error: STL directory does not exist: " ++ given) ;;
              exit 1
            else ret tt) ;;
           is_directory <- lift (Selector.isdir (path_of given)) ;;
           (if negb is_directory then
              print (text "Error: STL path is not a directory: " ++ given) ;;
              exit 1
            else ret tt) ;;
           print (text "Using provided STL directory: " ++ given) ;;
           stl_files <-
             lift (Resolver._find_stl_files_in_folder (path_of given)) ;;
           match stl_files with
           | [] =>
               print (could_not_find (text "provided directory")) ;;
               exit 1
           | _ => ret stl_files
           end
       | _ =>
           if cli_mode a then lift Selector.select_files_cli
           else select_files_gui
       end)
      (fun e =>
         print (text "Error during file selection: " ++ CaseSetup.describe e) ;;
         exit 1) ;;
  print (Text.nl :: text "Selected STL files:") ;;
  lift (for_each stl_files
          (fun e => Io.print (text "  " ++ fst e ++ text ": "
                              ++ CaseSetup.show_path (snd e)))) ;;
  (if negb (auto_run a) then
     print (Text.nl :: text "Simulation settings:") ;;
     print (text "  Base directory: " ++ base_dir a) ;;
     print (text "  Case directory: " ++ case_dir a) ;;
     print (text "  Processors: " ++ Text.of_Z (n_proc a)) ;;
     line <- lift (input (Text.nl :: text "Proceed with simulation? (y/N): ")) ;;
     let confirm := Text.lower (Resolver.strip line) in
     if negb (Text.eqb confirm (text "y") || Text.eqb confirm (text "yes"))
     then
       print (text "Simulation cancelled.") ;;
       exit 0
     else ret tt
   else ret tt) ;;
  print (Text.nl :: text "2. Case Setup") ;;
  print (Text.times "-" 30) ;;
  ok <- lift (CaseSetup.setup_case (path_of (base_dir a))
                (path_of (case_dir a)) (n_proc a) stl_files) ;;
  (if negb ok then
     print (text "Case setup failed. Exiting...") ;;
     exit 1
   else ret tt) ;;
  print (Text.nl :: text "3. Running Simulation") ;;
  print (Text.times "-" 30) ;;
  ok <- run (Runner.run_full_simulation
               (CaseSetup.show_path (path_of (case_dir a))) (n_proc a)) ;;
  (if negb ok then
     print (text "Simulation failed. Exiting...") ;;
     exit 1
   else ret tt) ;;
  print (Text.nl :: text "4. Extracting Results") ;;
  print (Text.times "-" 30) ;;
  results <- lift (Results.extract_latest_cd (path_of (case_dir a))) ;;
  (match results with
   | Some r =>
       let results_file :=
         path_of (case_dir a) ++ [text "simulation_results.txt"] in
       lift (write_text results_file (results_text r)) ;;
       print (text "Results saved to: " ++ CaseSetup.show_path results_file)
   | None =>
       print (text "Warning: Could not extract results from simulation.")
   end) ;;
  print (Text.nl :: Text.times "=" 60) ;;
  print (text "Simulation completed!") ;;
  print (text "Case directory: " ++ case_dir a) ;;
  print (Text.times "=" 60).

End WithEnvironment.
End Main.

(** ** More sample inputs *)

Module MoreSamples.

(** A number parser that reads whole numbers only. *)
Definition float_of_Z (z : Z) : Num.float :=
  match z with
  | Z0 => S754_zero false
  | Zpos p => S754_finite false p 0
  | Zneg p => S754_finite true p 0
  end.

Definition whole_numbers : Numbers := {|
  float_of_string := fun s => option_map float_of_Z (Resolver.int_of s)
|}.

(** Paths written with [/], relative to the root of the tree. *)
Definition slash_paths : Paths := {|
  path_of := fun s =>
    filter (fun c => negb (Text.eqb c []) && negb (Text.eqb c (text ".")))
      (Results.split_on (Ascii.eqb "/") [] s)
|}.

(** A dialog that is cancelled. *)
Definition cancelled : Dialog := {|
  open_window := Ok tt;
  askdirectory := Ok []
|}.

(** Tools that write nothing. *)
Definition idle_tools : Tools := {|
  leaves := fun _ t => t
|}.

(** A machine on which every tool exits with status 0; its clock counts
    the processes run so far. *)
Definition all_succeed : Platform := {|
  Host := nat;
  Time := nat;
  spawn := fun argv h => (0%Z, S h);
  clock := fun h => (h, h);
  fmt_seconds := fun t0 t1 => Text.of_Z (Z.of_nat (t1 - t0));
  fmt_minutes := fun t0 t1 => Text.of_Z (Z.of_nat ((t1 - t0) / 60))
|}.

(** The [postProcessing] directory of a case, around a table of
    coefficients. *)
Definition post_processing (table : str) : Fs.node :=
  Fs.Dir [(text "forceCoeffs1",
           Fs.Dir [(text "0",
                    Fs.Dir [(text "coefficient.dat", Fs.File table)])])].

(** A disk with the case directory [case] that holds such a table. *)
Definition results_disk (table : str) : Fs.node :=
  Fs.Dir [(text "case",
           Fs.Dir [(text "postProcessing", post_processing table)])].

(** A table with two rows of seven columns. *)
Definition coefficient_table : str := text
"# Time Cd Cs Cl CmRoll CmPitch CmYaw
1 2 3 4 5 6 7
2 3 4 5 6 7 8
".


(** A table with eight rows of one column. *)
Definition column_table : str := text
"10
11
12
13
14
15
16
17
".

(** Tools that leave the table of coefficients in the case directory
    [case]. *)
Definition solver_writes : Tools := {|
  leaves := fun _ t =>
    match Fs.put [text "case"; text "postProcessing"]
            (post_processing coefficient_table) t with
    | Some t' => t'
    | None => t
    end
|}.

(** [--case-dir case --base-dir baseCase --stl-dir stl --n-proc 6], with
    or without [--auto-run]. *)
Definition arguments (auto_run : bool) : Main.args :=
  Main.mk_args (text "case") (text "baseCase") (Some (text "stl")) 6
    auto_run false.

(** A machine that has run nothing yet. *)
Definition machine_on (w : Io.world) : @Main.machine all_succeed :=
  Main.mk_machine (P:=all_succeed) w 0 [].

End MoreSamples.

(* ================================================================= *)
(** * Part II: properties *)
(* ================================================================= *)

(** ** Pipeline execution *)

Module RunnerFacts.
Import Runner.
Section WithPlatform.
Context {P : Platform}.
Local Open Scope run_scope.

Variable case_dir : str.
Variable n_proc : Z.

(** [follows seg tr ok]: the calls [tr] are what a short-circuiting run of
    the commands [seg] makes when its verdict is [ok]. *)
Definition follows (seg : list (list str)) (tr : list (list str * Z))
    (ok : bool) : Prop :=
  map fst tr = firstn (length tr) seg /\
  if ok then length tr = length seg /\ Forall succeeded tr
  else exists pre a c, tr = pre ++ [(a, c)] /\ Forall succeeded pre /\ c <> 0%Z.

Lemma follows_length seg tr ok : follows seg tr ok -> length tr <= length seg.
Proof.
  intros [H _]. apply (f_equal (@length _)) in H.
  rewrite length_map, length_firstn in H. lia.
Qed.

Lemma follows_app_true s1 s2 t1 t2 b :
  follows s1 t1 true -> follows s2 t2 b -> follows (s1 ++ s2) (t1 ++ t2) b.
Proof.
  intros [H1 [L1 F1]] [H2 H2'].
  split.
  - rewrite map_app, length_app, firstn_app, H1, H2, L1.
    rewrite (firstn_all2 (n := length s1 + length t2)) by lia.
    rewrite firstn_all. f_equal. f_equal. lia.
  - destruct b.
    + destruct H2' as [L2 F2]. split.
      * rewrite !length_app. lia.
      * apply Forall_app; auto.
    + destruct H2' as (pre & a & c & -> & Fp & Hc).
      exists (t1 ++ pre), a, c. rewrite app_assoc. repeat split; auto.
      apply Forall_app; auto.
Qed.

Lemma follows_app_false s1 s2 t1 :
  follows s1 t1 false -> follows (s1 ++ s2) t1 false.
Proof.
  intros H. pose proof (follows_length H) as L. destruct H as [H1 H2].
  split; auto.
  rewrite firstn_app. replace (length t1 - length s1) with 0 by lia.
  simpl. rewrite app_nil_r. exact H1.
Qed.

Lemma follows_one a c : follows [a] [(a, c)] (Z.eqb c 0).
Proof.
  split; [reflexivity|].
  destruct (Z.eqb_spec c 0).
  - split; auto.
  - exists [], a, c. repeat split; auto.
Qed.

Lemma follows_nil : follows [] [] true.
Proof. split; [reflexivity | split; auto]. Qed.

(** What a stage function does to the state, whatever it prints. *)
Definition runs (f : R bool) (seg : list (list str)) : Prop :=
  forall s, exists tr,
    calls (snd (f s)) = calls s ++ tr /\ follows seg tr (fst (f s)).

Lemma runs_single (f : R bool) a :
  (forall s, exists c,
      fst (f s) = Z.eqb c 0 /\ calls (snd (f s)) = calls s ++ [(a, c)]) ->
  runs f [a].
Proof.
  intros H s. destruct (H s) as (c & E1 & E2).
  exists [(a, c)]. split; auto. rewrite E1. apply follows_one.
Qed.

Lemma runs_with_log argv op : runs (_run_with_log argv op) [argv].
Proof.
  apply runs_single. intros s. unfold _run_with_log, bind, print, ret, start_and_join.
  simpl. destruct (spawn argv (host s)) as [c h]. simpl.
  exists c. destruct (Z.eqb c 0); simpl; eauto.
Qed.

Lemma runs_decompose : runs (decompose_case case_dir) [decomposePar_argv case_dir].
Proof.
  apply runs_single. intros s. unfold decompose_case, bind, print, ret, start_and_join.
  simpl. destruct (spawn _ (host s)) as [c h]. simpl.
  exists c. destruct (Z.eqb c 0); simpl; eauto.
Qed.

Lemma runs_simpleFoam :
  runs (run_parallel_simpleFoam case_dir n_proc) [mpirun_argv case_dir n_proc].
Proof.
  apply runs_single. intros s.
  unfold run_parallel_simpleFoam, bind, print, ret, start_and_join.
  simpl. destruct (spawn _ (host s)) as [c h]. simpl.
  exists c. destruct (Z.eqb c 0); simpl; eauto.
Qed.

Lemma runs_reconstruct :
  runs (reconstruct_case case_dir) [reconstructPar_argv case_dir].
Proof.
  apply runs_single. intros s. unfold reconstruct_case, bind, print, ret, start_and_join.
  simpl. destruct (spawn _ (host s)) as [c h]. simpl.
  exists c. destruct (Z.eqb c 0); simpl; eauto.
Qed.

Lemma runs_for_dicts (run : str -> R bool) (argv_of : str -> list str) ds :
  (forall d, runs (run d) [argv_of d]) ->
  runs (for_dicts run ds) (map argv_of ds).
Proof.
  intros Hrun. induction ds as [|d ds IH]; intros s; simpl.
  - exists []. rewrite app_nil_r. split; auto. apply follows_nil.
  - unfold bind. destruct (Hrun d s) as (t1 & C1 & F1).
    destruct (run d s) as [ok s1]; simpl in *. destruct ok.
    + destruct (IH s1) as (t2 & C2 & F2).
      exists (t1 ++ t2). split.
      * rewrite C2, C1, app_assoc. reflexivity.
      * apply (follows_app_true (s1:=[argv_of d])); auto.
    + exists t1. split; auto.
      apply (follows_app_false (s1:=[argv_of d])); auto.
Qed.

Lemma runs_blockMesh : runs (run_blockMesh case_dir) [blockMesh_argv case_dir].
Proof. apply runs_with_log. Qed.

Lemma runs_snappyHexMesh :
  runs (run_snappyHexMesh case_dir) [snappyHexMesh_argv case_dir].
Proof. apply runs_with_log. Qed.

Lemma runs_all_surfaceFeatureExtract :
  runs (run_all_surfaceFeatureExtract case_dir)
       (map (surfaceFeatureExtract_argv case_dir) dicts).
Proof. apply runs_for_dicts. intros d. apply runs_with_log. Qed.

(** The stage whose command is the [i]-th of a table. *)
Definition stage_at (t : list (str * list (list str))) (i : nat) : option str :=
  option_map fst (nth_error (flatten t) i).

Definition commands (t : list (str * list (list str))) : list (list str) :=
  map snd (flatten t).

Lemma commands_cons n seg t : commands ((n, seg) :: t) = seg ++ commands t.
Proof.
  unfold commands, flatten. simpl. rewrite map_app, map_map. simpl.
  rewrite map_id. reflexivity.
Qed.

Lemma stage_at_head n seg t i :
  i < length seg -> stage_at ((n, seg) :: t) i = Some n.
Proof.
  intros Hi. unfold stage_at, flatten. simpl.
  rewrite nth_error_app1 by (rewrite length_map; exact Hi).
  rewrite nth_error_map.
  destruct (nth_error seg i) eqn:E; [reflexivity|].
  apply nth_error_None in E. lia.
Qed.

Lemma stage_at_tail n seg t i :
  stage_at ((n, seg) :: t) (length seg + i) = stage_at t i.
Proof.
  unfold stage_at, flatten. simpl.
  rewrite nth_error_app2 by (rewrite length_map; lia).
  rewrite length_map. do 2 f_equal. lia.
Qed.

Definition banner (step_name : str) (s : state) : state :=
  mk_state (host s)
    (stdout s ++ [Text.nl :: rule 60; text "Step: " ++ step_name; rule 60])
    (calls s).

Lemma for_steps_cons n f l s :
  for_steps ((n, f) :: l) s =
  let (ok, s1) := f (banner n s) in
  if ok then for_steps l s1
  else (Some false,
        mk_state (host s1) (stdout s1 ++ [failed_at n]) (calls s1)).
Proof.
  simpl. unfold bind, print, banner. simpl.
  repeat rewrite <- app_assoc. simpl.
  destruct (f _) as [ok s1]. destruct ok; reflexivity.
Qed.

(** The loop over the steps: it follows the table, and when it leaves
    early the last line printed names the stage of the last call. *)
Lemma for_steps_follows l t :
  Forall2 (fun e d => fst e = fst d /\ runs (snd e) (snd d)) l t ->
  forall s, exists tr,
    calls (snd (for_steps l s)) = calls s ++ tr /\
    match fst (for_steps l s) with
    | None => follows (commands t) tr true
    | Some b =>
        b = false /\ follows (commands t) tr false /\
        exists stage,
          stage_at t (length tr - 1) = Some stage /\
          last (stdout (snd (for_steps l s))) [] = failed_at stage
    end.
Proof.
  induction 1 as [|[n f] [n' seg] l t [Hn Hf] _ IH]; intros s.
  - exists []. simpl. rewrite app_nil_r. split; auto. apply follows_nil.
  - simpl in Hn, Hf. subst n'. rewrite commands_cons, for_steps_cons.
    destruct (Hf (banner n s)) as (t1 & C1 & F1).
    destruct (f (banner n s)) as [ok s1]; simpl in C1, F1. destruct ok.
    + destruct (IH s1) as (t2 & C2 & F2).
      exists (t1 ++ t2). split.
      * rewrite C2, C1. rewrite app_assoc. reflexivity.
      * destruct (fst (for_steps l s1)) as [b|].
        -- destruct F2 as (-> & F2 & stage & St & Last).
           split; auto. split; [apply follows_app_true; auto|].
           exists stage. split; auto.
           destruct F1 as [_ [L1 _]].
           destruct F2 as [_ (pre & a & c & -> & _)].
           rewrite !length_app in *. simpl in *.
           replace (length t1 + (length pre + 1) - 1)
             with (length seg + length pre) by lia.
           rewrite stage_at_tail.
           replace (length pre + 1 - 1) with (length pre) in St by lia.
           exact St.
        -- apply follows_app_true; auto.
    + exists t1. simpl. split; [rewrite C1; reflexivity|].
      split; auto. split; [apply follows_app_false; auto|].
      exists n. split.
      * pose proof (follows_length F1) as L.
        destruct F1 as [_ (pre & a & c & -> & _)].
        rewrite length_app in *. simpl in *.
        apply stage_at_head. lia.
      * apply last_last.
Qed.

Lemma steps_follow_table :
  Forall2 (fun e d => fst e = fst d /\ runs (snd e) (snd d))
    (steps case_dir n_proc) (stage_table case_dir n_proc).
Proof.
  unfold steps, stage_table.
  repeat (apply Forall2_cons; [simpl; split; [reflexivity|]|]).
  - apply runs_blockMesh.
  - apply runs_all_surfaceFeatureExtract.
  - apply runs_snappyHexMesh.
  - apply runs_decompose.
  - apply runs_simpleFoam.
  - apply runs_reconstruct.
  - apply Forall2_nil.
Qed.

Definition opening (s : state) : state :=
  mk_state (snd (clock (host s)))
    (stdout s ++ [text "Starting full OpenFOAM simulation pipeline..."])
    (calls s).

Definition closing (start_time : Time) (s : state) : state :=
  mk_state (snd (clock (host s)))
    (stdout s ++ [Text.nl :: rule 60;
                  text "✓ Full simulation completed successfully!";
                  total_time start_time (fst (clock (host s)));
                  rule 60])
    (calls s).

Lemma run_full_simulation_eq s :
  run_full_simulation case_dir n_proc s =
  let r := for_steps (steps case_dir n_proc) (opening s) in
  match fst r with
  | Some b => (b, snd r)
  | None => (true, closing (fst (clock (host s))) (snd r))
  end.
Proof.
  unfold run_full_simulation. generalize (steps case_dir n_proc) as l. intros l.
  unfold bind, print, time_time, opening, closing, ret.
  cbn [host stdout calls fst snd].
  destruct (clock (host s)) as [t0 h0]; cbn [fst snd].
  destruct (for_steps l _) as [[b|] s2]; cbn [fst snd]; [reflexivity|].
  destruct (clock (host s2)) as [t1 h1]; cbn [host stdout calls fst snd].
  repeat rewrite <- app_assoc. reflexivity.
Qed.

(** The run as a whole follows the plan. *)
Lemma run_full_simulation_follows s :
  let r := run_full_simulation case_dir n_proc s in
  exists tr,
    calls (snd r) = calls s ++ tr /\
    follows (map snd (plan case_dir n_proc)) tr (fst r) /\
    (fst r = false ->
     exists stage,
       stage_at (stage_table case_dir n_proc) (length tr - 1) = Some stage /\
       last (stdout (snd r)) [] = failed_at stage).
Proof.
  cbv zeta. rewrite run_full_simulation_eq. cbv zeta.
  destruct (for_steps_follows steps_follow_table (opening s)) as (tr & C & F).
  exists tr. destruct (fst (for_steps _ _)) as [b|]; simpl.
  - destruct F as (-> & F & St).
    split; [exact C | split; [exact F | intros _; exact St]].
  - split; [exact C | split; [exact F | discriminate]].
Qed.


(** *** The legacy runner makes the same calls *)

(** Two computations agree when, from states with the same machine and the
    same calls, they give the same answer, machine and calls (they may
    print different things). *)
Definition alike (s1 s2 : state) : Prop :=
  host s1 = host s2 /\ calls s1 = calls s2.

Definition agree {A} (f g : R A) : Prop :=
  forall s1 s2, alike s1 s2 ->
    fst (f s1) = fst (g s2) /\ alike (snd (f s1)) (snd (g s2)).

Lemma agree_start argv : agree (start_and_join argv) (start_and_join argv).
Proof.
  intros s1 s2 [H C]. unfold start_and_join. rewrite H, C.
  destruct (spawn argv (host s2)); simpl. repeat split.
Qed.
















(** *** Elapsed time *)


















End WithPlatform.



End RunnerFacts.

(** ** Text *)

Module TextFacts.
Import Text.

Lemma eqb_eq a b : eqb a b = true <-> a = b.
Proof.
  unfold eqb. destruct (list_eq_dec ascii_dec a b); split; congruence.
Qed.

Lemma eqb_refl a : eqb a a = true.
Proof. apply eqb_eq. reflexivity. Qed.

Lemma eqb_neq a b : eqb a b = false <-> a <> b.
Proof.
  unfold eqb. destruct (list_eq_dec ascii_dec a b); split; congruence.
Qed.

Lemma startswith_iff p s : startswith p s = true <-> exists r, s = p ++ r.
Proof.
  revert s. induction p as [|a p IH]; intros s; simpl.
  - split; eauto.
  - destruct s as [|b s].
    + split; [discriminate | intros [r H]; discriminate].
    + rewrite andb_true_iff, Ascii.eqb_eq, IH. split.
      * intros [-> [r ->]]. eauto.
      * intros [r H]. inversion H; subst. eauto.
Qed.


Lemma contains_iff p s : contains p s = true <-> exists a b, s = a ++ p ++ b.
Proof.
  induction s as [|c s IH]; simpl; rewrite orb_true_iff, startswith_iff.
  - split.
    + intros [[r H]|H]; [|discriminate]. exists [], r. exact H.
    + intros (a & b & H). left. destruct a; simpl in H.
      * eauto.
      * discriminate.
  - rewrite IH. split.
    + intros [[r H]|(a & b & H)].
      * exists [], r. exact H.
      * exists (c :: a), b. simpl. congruence.
    + intros (a & b & H). destruct a as [|x a]; simpl in H.
      * left. eauto.
      * right. inversion H; subst. eauto.
Qed.


Lemma startswith_contains p s : startswith p s = true -> contains p s = true.
Proof.
  rewrite startswith_iff, contains_iff. intros [r ->]. exists [], r. reflexivity.
Qed.



Lemma lower_firstn n s : lower (firstn n s) = firstn n (lower s).
Proof. unfold lower. symmetry. apply firstn_map. Qed.











Lemma contains_suffix c a b : contains c b = true -> contains c (a ++ b) = true.
Proof.
  rewrite !contains_iff. intros (u & v & ->). exists (a ++ u), v.
  rewrite app_assoc. reflexivity.
Qed.

Lemma contains_prefix c a b : contains c a = true -> contains c (a ++ b) = true.
Proof.
  rewrite !contains_iff. intros (u & v & ->). exists u, (v ++ b).
  repeat rewrite <- app_assoc. reflexivity.
Qed.

End TextFacts.

(** ** Computations on the world *)

Module IoFacts.
Import Io.
Local Open Scope io_scope.

(** Computations that leave the file system as it is. *)
Definition keeps_fs {A} (m : M A) : Prop :=
  forall w, fs (snd (m w)) = fs w.

Lemma keeps_fs_ret {A} (a : A) : keeps_fs (ret a).
Proof. intros w. reflexivity. Qed.

Lemma keeps_fs_print line : keeps_fs (print line).
Proof. intros w. reflexivity. Qed.

Lemma keeps_fs_bind {A B} (m : M A) (k : A -> M B) :
  keeps_fs m -> (forall a, keeps_fs (k a)) -> keeps_fs (bind m k).
Proof.
  intros Hm Hk w. unfold bind. specialize (Hm w).
  destruct (m w) as [[a|e] w1]; simpl in *; [rewrite Hk|]; auto.
Qed.

Lemma keeps_fs_for_each {A} (l : list A) (body : A -> M unit) :
  (forall x, keeps_fs (body x)) -> keeps_fs (for_each l body).
Proof.
  intros Hb. induction l; simpl.
  - apply keeps_fs_ret.
  - apply keeps_fs_bind; auto.
Qed.

Lemma keeps_fs_try {A} (m : M A) (h : exn -> M A) :
  keeps_fs m -> (forall e, keeps_fs (h e)) -> keeps_fs (try_ m h).
Proof.
  intros Hm Hh w. unfold try_. specialize (Hm w).
  destruct (m w) as [[a|e] w1]; simpl in *; [|rewrite Hh]; auto.
Qed.

Lemma keeps_fs_raise {A} e : keeps_fs (raise (A:=A) e).
Proof. intros w. reflexivity. Qed.

Lemma keeps_fs_exists p : keeps_fs (exists_ p).
Proof. intros w. reflexivity. Qed.

Lemma keeps_fs_read_bytes p : keeps_fs (read_bytes p).
Proof.
  intros w. unfold read_bytes.
  destruct (Fs.lookup p (fs w)) as [[d|es]|]; reflexivity.
Qed.

Lemma keeps_fs_read_text p : keeps_fs (read_text p).
Proof.
  unfold read_text. apply keeps_fs_bind; [apply keeps_fs_read_bytes|].
  intros a. apply keeps_fs_ret.
Qed.





Lemma bind_exists {A} p (k : bool -> M A) w :
  (present <- exists_ p ;; k present) w = k (Fs.exists_ p (fs w)) w.
Proof. reflexivity. Qed.

End IoFacts.

(** ** Component resolution *)

Module ResolverFacts.
Import Io Resolver TextFacts IoFacts.




(** *** A missing component *)

Local Open Scope io_scope.

Definition missing (stl_files : list str) (c : str) : bool :=
  match matching_files c stl_files with
  | [] => true
  | _ => false
  end.

Lemma choose_spec pending component count out :
  match choose pending component count out with
  | (Ok idx, _, _) => idx < count
  | (Raise e, rest, _) => e = EOFError /\ rest = []
  end.
Proof.
  revert out. induction pending as [|line rest IH]; intros out; simpl; auto.
  destruct (int_of (strip line)) as [n|]; [|apply IH].
  destruct ((0 <=? n - 1)%Z && (n - 1 <? Z.of_nat count)%Z) eqn:E; [|apply IH].
  apply andb_true_iff in E. destruct E as [E1 E2].
  apply Z.leb_le in E1. apply Z.ltb_lt in E2. lia.
Qed.

Lemma keeps_fs_select component count : keeps_fs (select_index component count).
Proof.
  intros w. unfold select_index.
  destruct (choose _ _ _ _) as [[r rest] out]. reflexivity.
Qed.

Lemma keeps_fs_print_numbered i files : keeps_fs (print_numbered i files).
Proof.
  revert i. induction files; intros i; simpl.
  - apply keeps_fs_ret.
  - apply keeps_fs_bind; auto. apply keeps_fs_print.
Qed.

Lemma keeps_fs_for_components folder stl_files components found :
  keeps_fs (for_components folder stl_files components found).
Proof.
  revert found. induction components as [|c cs IH]; intros found; simpl.
  - apply keeps_fs_ret.
  - destruct (matching_files c stl_files) as [|f1 [|f2 fs']].
    + apply keeps_fs_bind; [apply keeps_fs_print | intros; apply keeps_fs_ret].
    + apply keeps_fs_bind; [apply keeps_fs_print | intros; apply IH].
    + repeat (apply keeps_fs_bind; intros);
        auto using keeps_fs_print, keeps_fs_print_numbered, keeps_fs_select.
Qed.

Lemma keeps_fs_find folder : keeps_fs (_find_stl_files_in_folder folder).
Proof.
  unfold _find_stl_files_in_folder.
  apply keeps_fs_bind; [intros w; reflexivity | intros t].
  apply keeps_fs_bind; [apply keeps_fs_print | intros _].
  apply keeps_fs_bind;
    [apply keeps_fs_for_each; intros; apply keeps_fs_print | intros _].
  apply keeps_fs_bind; [apply keeps_fs_for_components | intros [f|]];
    apply keeps_fs_ret.
Qed.

Lemma print_numbered_ok i files w :
  exists out, print_numbered i files w
              = (Ok tt, mk_world (fs w) (stdin w) (stdout w ++ out)).
Proof.
  revert i w. induction files as [|f files IH]; intros i w;
    cbn [print_numbered].
  - exists []. rewrite app_nil_r. destruct w; reflexivity.
  - unfold bind at 1, print at 1. cbv iota beta.
    match goal with
    | |- context [print_numbered (S i) files ?w'] =>
        destruct (IH (S i) w') as [out E]; rewrite E
    end.
    cbn [fs stdin stdout]. rewrite <- app_assoc. eauto.
Qed.

(** The loop over the components when one of them has no file. *)
Lemma for_components_missing folder stl_files components c :
  find (missing stl_files) components = Some c ->
  forall found w,
    match for_components folder stl_files components found w with
    | (v, w') =>
        (v = Ok None /\ last (stdout w') [] = no_file_found c) \/
        (v = Raise EOFError /\ stdin w' = [] /\
         exists c', In c' components /\
                    2 <= length (matching_files c' stl_files))
    end.
Proof.
  induction components as [|c0 cs IH]; simpl; [discriminate|].
  intros Hfind found w. unfold missing in Hfind at 1.
  destruct (matching_files c0 stl_files) as [|f1 [|f2 rest]] eqn:Em.
  - inversion Hfind; subst c0. left. unfold bind, print, ret. simpl.
    split; [reflexivity | apply last_last].
  - unfold bind at 1. unfold print at 1. cbv iota beta.
    match goal with
    | |- context [for_components _ _ cs ?f ?w'] =>
        specialize (IH Hfind f w'); destruct (for_components _ _ cs f w')
          as [v w'']
    end.
    destruct IH as [H|(H1 & H2 & c' & Hin & Hlen)]; [left; exact H|].
    right. split; [exact H1|]. split; [exact H2|]. eauto.
  - unfold bind at 1. unfold print at 1. cbv iota beta.
    unfold bind at 1.
    match goal with
    | |- context [print_numbered 0 ?l ?w'] =>
        destruct (print_numbered_ok 0 l w') as [out ->]
    end.
    cbv iota beta. unfold bind at 1. unfold select_index at 1.
    cbn [fs stdin stdout].
    match goal with
    | |- context [choose ?a ?b ?n ?o] =>
        pose proof (choose_spec a b n o) as Hc;
        destruct (choose a b n o) as [[[idx|e] pending] out']
    end.
    + unfold bind at 1. unfold print at 1. cbv iota beta.
      match goal with
      | |- context [for_components _ _ cs ?f ?w'] =>
          specialize (IH Hfind f w'); destruct (for_components _ _ cs f w')
            as [v w'']
      end.
      destruct IH as [H|(H1 & H2 & c' & Hin & Hlen)]; [left; exact H|].
      right. split; [exact H1|]. split; [exact H2|]. eauto.
    + destruct Hc as [-> ->]. right. cbn [fs stdin stdout]. repeat split.
      exists c0. rewrite Em. simpl. split; [auto | lia].
Qed.

Lemma for_each_print (l : list str) (line : str -> str) w :
  for_each l (fun x => print (line x)) w
  = (Ok tt, mk_world (fs w) (stdin w) (stdout w ++ map line l)).
Proof.
  revert w. induction l as [|x l IH]; intros w; simpl.
  - rewrite app_nil_r. destruct w; reflexivity.
  - unfold bind, print. rewrite IH. simpl. rewrite <- app_assoc. reflexivity.
Qed.

(** The resolver, with its opening prints folded into one state. *)
Definition listed (folder : Fs.path) (w : world) : world :=
  let stl_files := glob_stl folder (fs w) in
  mk_world (fs w) (stdin w)
    (stdout w
     ++ (Text.nl :: text "Found " ++ Text.of_Z (Z.of_nat (length stl_files))
         ++ text " STL files in folder:")
     :: map (fun name => text "  " ++ name) stl_files).

Lemma find_stl_files_eq folder w :
  _find_stl_files_in_folder folder w =
  match for_components folder (glob_stl folder (fs w)) stl_components []
          (listed folder w) with
  | (Ok (Some found), w') => (Ok found, w')
  | (Ok None, w') => (Ok [], w')
  | (Raise e, w') => (Raise e, w')
  end.
Proof.
  unfold _find_stl_files_in_folder, bind at 1, get_fs.
  unfold bind at 1, print at 1. cbv iota beta. unfold bind at 1.
  rewrite for_each_print. cbn [fs stdin stdout]. unfold bind, listed.
  rewrite <- app_assoc. cbn [app].
  destruct (for_components _ _ _ _ _) as [[[f|]|e] w']; reflexivity.
Qed.



End ResolverFacts.

(** ** The matcher *)

Module ReFacts.
Import Re TextFacts.

(** What a success of a repetition means. *)
Lemma greedy_sound p k s pos r :
  greedy p k s pos = Some r ->
  exists w s', s = w ++ s' /\ forallb p w = true /\
               k s' (pos + length w) = Some r.
Proof.
  revert pos. induction s as [|c s IH]; intros pos; simpl.
  - intros H. exists [], []. rewrite Nat.add_0_r. auto.
  - destruct (p c) eqn:Ep.
    + destruct (greedy p k s (S pos)) as [r'|] eqn:Eg.
      * intros H. inversion H; subst r'. clear H.
        destruct (IH _ Eg) as (w & s' & -> & Hw & Hk).
        exists (c :: w), s'. simpl. rewrite Ep, Hw.
        replace (pos + S (length w)) with (S pos + length w) by lia. auto.
      * intros H. exists [], (c :: s). rewrite Nat.add_0_r. auto.
    + intros H. exists [], (c :: s). rewrite Nat.add_0_r. auto.
Qed.

Lemma lazy_sound p k s pos r :
  lazy p k s pos = Some r ->
  exists w s', s = w ++ s' /\ forallb p w = true /\
               k s' (pos + length w) = Some r.
Proof.
  revert pos. induction s as [|c s IH]; intros pos; simpl.
  - destruct (k [] pos) eqn:Ek; [|discriminate].
    intros H. inversion H; subst. exists [], []. rewrite Nat.add_0_r. auto.
  - destruct (k (c :: s) pos) eqn:Ek.
    + intros H. inversion H; subst. exists [], (c :: s).
      rewrite Nat.add_0_r. auto.
    + destruct (p c) eqn:Ep; [|discriminate]. intros H.
      destruct (IH _ H) as (w & s' & -> & Hw & Hk).
      exists (c :: w), s'. simpl. rewrite Ep, Hw.
      replace (pos + S (length w)) with (S pos + length w) by lia. auto.
Qed.











Lemma run_star_sound p pat marks s pos r :
  run (Star p :: pat) marks s pos = Some r ->
  exists w s', s = w ++ s' /\ forallb p w = true /\
               run pat marks s' (pos + length w) = Some r.
Proof. simpl. apply greedy_sound. Qed.

Lemma run_lazy_sound p pat marks s pos r :
  run (LazyStar p :: pat) marks s pos = Some r ->
  exists w s', s = w ++ s' /\ forallb p w = true /\
               run pat marks s' (pos + length w) = Some r.
Proof. simpl. apply lazy_sound. Qed.





(** *** Scanning *)





End ReFacts.

(** ** The file system *)

Module FsFacts.
Import Fs TextFacts.

Lemma assoc_set_same {A} k (v : A) l : assoc k (assoc_set k v l) = Some v.
Proof.
  induction l as [|[k' v'] l IH]; simpl.
  - rewrite eqb_refl. reflexivity.
  - destruct (Text.eqb k k') eqn:E; simpl.
    + rewrite eqb_refl. reflexivity.
    + rewrite E. exact IH.
Qed.

Lemma assoc_set_other {A} k k' (v : A) l :
  k' <> k -> assoc k' (assoc_set k v l) = assoc k' l.
Proof.
  intros Hne. induction l as [|[k0 v0] l IH]; simpl.
  - apply eqb_neq in Hne. rewrite Hne. reflexivity.
  - destruct (Text.eqb k k0) eqn:E; simpl.
    + apply eqb_eq in E. subst k0.
      apply eqb_neq in Hne. rewrite Hne. reflexivity.
    + destruct (Text.eqb k' k0); auto.
Qed.

Lemma assoc_del_same {A} k (l : list (str * A)) : assoc k (assoc_del k l) = None.
Proof.
  induction l as [|[k' v'] l IH]; simpl; auto.
  destruct (Text.eqb k k') eqn:E; simpl; auto. rewrite E. exact IH.
Qed.

Lemma assoc_del_other {A} k k' (l : list (str * A)) :
  k' <> k -> assoc k' (assoc_del k l) = assoc k' l.
Proof.
  intros Hne. induction l as [|[k0 v0] l IH]; simpl; auto.
  destruct (Text.eqb k k0) eqn:E; simpl.
  - apply eqb_eq in E. subst k0. apply eqb_neq in Hne. rewrite Hne. exact IH.
  - destruct (Text.eqb k' k0); auto.
Qed.


Lemma lookup_put_same p v t t' : put p v t = Some t' -> lookup p t' = Some v.
Proof.
  revert t t'. induction p as [|c p IH]; intros t t'; simpl.
  - intros H. inversion H. reflexivity.
  - destruct t as [data|es]; [discriminate|].
    destruct p as [|c' p'].
    + intros H. inversion H; subst. simpl. rewrite assoc_set_same. reflexivity.
    + destruct (assoc c es) as [sub|]; [|discriminate].
      destruct (put (c' :: p') v sub) as [n'|] eqn:E; [|discriminate].
      intros H. inversion H; subst. cbn [lookup]. rewrite assoc_set_same.
      apply (IH _ _ E).
Qed.

Lemma assoc_set_set {A} k (v v' : A) l :
  assoc_set k v (assoc_set k v' l) = assoc_set k v l.
Proof.
  induction l as [|[k0 v0] l IH]; simpl.
  - rewrite eqb_refl. reflexivity.
  - destruct (Text.eqb k k0) eqn:E; simpl.
    + rewrite eqb_refl. reflexivity.
    + rewrite E, IH. reflexivity.
Qed.

Lemma assoc_del_set {A} k (v : A) l :
  assoc_del k (assoc_set k v l) = assoc_del k l.
Proof.
  induction l as [|[k0 v0] l IH]; simpl.
  - rewrite eqb_refl. reflexivity.
  - destruct (Text.eqb k k0) eqn:E; simpl.
    + rewrite eqb_refl. reflexivity.
    + rewrite E, IH. reflexivity.
Qed.

Lemma assoc_set_id {A} k (v : A) l : assoc k l = Some v -> assoc_set k v l = l.
Proof.
  induction l as [|[k0 v0] l IH]; simpl; [discriminate|].
  destruct (Text.eqb k k0) eqn:E.
  - intros H. inversion H; subst. apply eqb_eq in E. subst. reflexivity.
  - intros H. rewrite IH; auto.
Qed.

Lemma assoc_del_absent {A} k (l : list (str * A)) :
  assoc k l = None -> assoc_del k l = l.
Proof.
  induction l as [|[k0 v0] l IH]; simpl; auto.
  destruct (Text.eqb k k0); [discriminate|]. intros H. rewrite IH; auto.
Qed.

Definition is_dir (p : path) (t : node) : Prop :=
  exists es, lookup p t = Some (Dir es).

Lemma put_dir q v n n' : q <> [] -> put q v n = Some n' ->
  (exists es, n = Dir es) /\ (exists es', n' = Dir es').
Proof.
  destruct q as [|c q]; [congruence|]. intros _. simpl.
  destruct n as [d|es]; [discriminate|].
  destruct q as [|c' q'].
  - intros H. inversion H. eauto.
  - destruct (assoc c es); [|discriminate].
    destruct (put (c' :: q') v n); [|discriminate].
    intros H. inversion H. eauto.
Qed.

Lemma makedirs_dir q n n' : makedirs q n = Some n' -> exists es', n' = Dir es'.
Proof.
  destruct q as [|c q]; simpl; destruct n as [d|es]; try discriminate.
  - intros H. inversion H. eauto.
  - destruct (makedirs q _); [|discriminate]. intros H. inversion H. eauto.
Qed.

Lemma remove_cons2 c c' p' es :
  remove (c :: c' :: p') (Dir es) =
  match assoc c es with
  | Some n => match remove (c' :: p') n with
              | Some n' => Some (Dir (assoc_set c n' es))
              | None => None
              end
  | None => None
  end.
Proof. reflexivity. Qed.

Lemma put_cons2 c c' p' v es :
  put (c :: c' :: p') v (Dir es) =
  match assoc c es with
  | Some n => match put (c' :: p') v n with
              | Some n' => Some (Dir (assoc_set c n' es))
              | None => None
              end
  | None => None
  end.
Proof. reflexivity. Qed.

Lemma lookup_cons c p es :
  lookup (c :: p) (Dir es) =
  match assoc c es with
  | Some n => lookup p n
  | None => None
  end.
Proof. reflexivity. Qed.

(** Writing below [p] changes nothing outside [p]. *)
Lemma remove_put_inside p q v t t' :
  p <> [] -> q <> [] -> put (p ++ q) v t = Some t' ->
  remove p t' = remove p t /\ is_dir p t /\ is_dir p t'.
Proof.
  revert t t'. induction p as [|c p IH]; intros t t' Hp Hq; [congruence|].
  destruct t as [d|es]; [simpl; destruct (p ++ q); discriminate|].
  destruct p as [|c' p'].
  - simpl app. cbn [put]. destruct q as [|c1 q1]; [congruence|].
    destruct (assoc c es) as [n|] eqn:Ea; [|discriminate].
    destruct (put (c1 :: q1) v n) as [n'|] eqn:Ep; [|discriminate].
    intros H. inversion H; subst t'. clear H.
    destruct (put_dir _ _ Hq Ep) as [[e1 ->] [e2 ->]].
    unfold is_dir. cbn [remove lookup]. rewrite assoc_set_same, Ea, assoc_del_set.
    repeat split; eauto.
  - change (((c :: c' :: p') ++ q)) with (c :: c' :: (p' ++ q)).
    rewrite put_cons2.
    destruct (assoc c es) as [n|] eqn:Ea; [|discriminate].
    destruct (put (c' :: p' ++ q) v n) as [n'|] eqn:Ep; [|discriminate].
    intros H. inversion H; subst t'. clear H.
    destruct (IH n n' ltac:(discriminate) Hq Ep) as (Hr & [e1 H1] & [e2 H2]).
    unfold is_dir. rewrite !remove_cons2, !lookup_cons.
    rewrite assoc_set_same, Ea, Hr.
    split; [|split; eauto].
    destruct (remove (c' :: p') n); [|reflexivity].
    rewrite assoc_set_set. reflexivity.
Qed.

(** Putting something where nothing was, then removing it, gives the tree
    back. *)
Lemma remove_put_new p v t t' :
  p <> [] -> lookup p t = None -> put p v t = Some t' -> remove p t' = Some t.
Proof.
  revert t t'. induction p as [|c p IH]; intros t t' Hp; [congruence|].
  destruct t as [d|es]; [discriminate|].
  destruct p as [|c' p'].
  - cbn [lookup put remove]. destruct (assoc c es) eqn:Ea; [discriminate|].
    intros _ H. inversion H; subst t'.
    rewrite assoc_set_same, assoc_del_set, assoc_del_absent by exact Ea.
    reflexivity.
  - rewrite lookup_cons, put_cons2.
    destruct (assoc c es) as [n|] eqn:Ea; [|discriminate].
    intros Hl. destruct (put (c' :: p') v n) as [n'|] eqn:Ep; [|discriminate].
    intros H. inversion H; subst t'. rewrite remove_cons2, assoc_set_same.
    rewrite (IH n n' ltac:(discriminate) Hl Ep), assoc_set_set.
    rewrite assoc_set_id by exact Ea. reflexivity.
Qed.

Lemma remove_present p t n :
  p <> [] -> lookup p t = Some n -> exists t', remove p t = Some t'.
Proof.
  revert t. induction p as [|c p IH]; intros t Hp; [congruence|].
  destruct t as [d|es]; [discriminate|].
  destruct p as [|c' p'].
  - cbn [lookup remove]. destruct (assoc c es); [eauto | discriminate].
  - rewrite lookup_cons, remove_cons2.
    destruct (assoc c es) as [m|]; [|discriminate].
    intros Hl. destruct (IH m ltac:(discriminate) Hl) as [m' ->]. eauto.
Qed.

Lemma lookup_remove p t t' : remove p t = Some t' -> lookup p t' = None.
Proof.
  revert t t'. induction p as [|c p IH]; intros t t'; [discriminate|].
  destruct t as [d|es]; [discriminate|].
  destruct p as [|c' p'].
  - cbn [remove]. destruct (assoc c es); [|discriminate].
    intros H. inversion H. cbn [lookup]. rewrite assoc_del_same. reflexivity.
  - rewrite remove_cons2. destruct (assoc c es) as [m|]; [|discriminate].
    destruct (remove (c' :: p') m) as [m'|] eqn:Er; [|discriminate].
    intros H. inversion H. rewrite lookup_cons, assoc_set_same.
    apply (IH _ _ Er).
Qed.

Lemma parent_after_remove p t t' :
  remove p t = Some t' -> is_dir (parent p) t'.
Proof.
  unfold parent.
  revert t t'. induction p as [|c p IH]; intros t t'; [discriminate|].
  destruct t as [d|es]; [discriminate|].
  destruct p as [|c' p'].
  - cbn [remove]. destruct (assoc c es); [|discriminate].
    intros H. inversion H. eexists. reflexivity.
  - rewrite remove_cons2. destruct (assoc c es) as [m|]; [|discriminate].
    destruct (remove (c' :: p') m) as [m'|] eqn:Er; [|discriminate].
    intros H. inversion H. destruct (IH _ _ Er) as [es' H'].
    exists es'. change (removelast (c :: c' :: p')) with (c :: removelast (c' :: p')).
    rewrite lookup_cons, assoc_set_same. exact H'.
Qed.

Lemma makedirs_present p t : is_dir p t -> makedirs p t = Some t.
Proof.
  revert t. induction p as [|c p IH]; intros t [es H].
  - simpl in H. inversion H. reflexivity.
  - destruct t as [d|es0]; [discriminate|]. cbn [lookup makedirs] in *.
    destruct (assoc c es0) as [n|] eqn:Ea; [|discriminate].
    rewrite (IH n) by (exists es; exact H).
    rewrite assoc_set_id by exact Ea. reflexivity.
Qed.

Lemma put_in_dir p v t :
  p <> [] -> is_dir (parent p) t -> exists t', put p v t = Some t'.
Proof.
  unfold parent.
  revert t. induction p as [|c p IH]; intros t Hp [es H]; [congruence|].
  destruct p as [|c' p'].
  - simpl in H. inversion H. cbn [put]. eauto.
  - change (removelast (c :: c' :: p')) with (c :: removelast (c' :: p')) in H.
    destruct t as [d|es0]; [discriminate|].
    rewrite lookup_cons in H. rewrite put_cons2.
    destruct (assoc c es0) as [n|]; [|discriminate].
    destruct (IH n ltac:(discriminate) ltac:(exists es; exact H)) as [n' ->].
    eauto.
Qed.

(** Making directories below an existing [p] changes nothing outside [p]. *)
Lemma remove_makedirs_inside p q t t' :
  p <> [] -> is_dir p t -> makedirs (p ++ q) t = Some t' ->
  remove p t' = remove p t /\ is_dir p t'.
Proof.
  revert t t'. induction p as [|c p IH]; intros t t' Hp [es0 Hd]; [congruence|].
  destruct t as [d|es]; [discriminate|]. simpl app. cbn [makedirs lookup] in *.
  destruct (assoc c es) as [n|] eqn:Ea; [|discriminate].
  destruct (makedirs (p ++ q) n) as [n'|] eqn:Em; [|discriminate].
  intros H. inversion H; subst t'. clear H.
  destruct p as [|c' p'].
  - destruct (makedirs_dir _ _ Em) as [e' ->]. unfold is_dir.
    cbn [remove lookup]. rewrite assoc_set_same, Ea, assoc_del_set.
    split; eauto.
  - destruct (IH n n' ltac:(discriminate) ltac:(exists es0; exact Hd) Em)
      as [Hr [e2 H2]].
    unfold is_dir. rewrite !remove_cons2, !lookup_cons.
    rewrite assoc_set_same, Ea, Hr.
    split; [|eauto].
    destruct (remove (c' :: p') n); [|reflexivity].
    rewrite assoc_set_set. reflexivity.
Qed.

End FsFacts.

(** ** Number formatting *)

Module NumFacts.
Import Num.







End NumFacts.

(** ** Case assembly *)

Module CaseSetupFacts.
Import Io CaseSetup Re ReFacts TextFacts FsFacts IoFacts NumFacts.
Local Open Scope io_scope.

(** *** The processor-count patch *)













(** *** The geometry patch *)














































(** The loop over the wheel centres never raises and touches no file. *)
Lemma for_wheel_centers_ok items content w :
  exists final out,
    for_wheel_centers items content w
    = (Ok final, mk_world (fs w) (stdin w) (stdout w ++ out)) /\
    final = fold_left (fun text e => patch_origin (fst e) (snd e) text)
              items content.
Proof.
  revert content w. induction items as [|[c v] items IH]; intros content w.
  - exists content, []. rewrite app_nil_r. destruct w. split; reflexivity.
  - cbn [for_wheel_centers fold_left fst snd].
    destruct (Text.eqb (patch_origin c v content) content);
      unfold bind at 1, print at 1; cbv beta iota;
      match goal with
      | |- context [for_wheel_centers items ?t ?w'] =>
          destruct (IH t w') as (final & out & E & F); rewrite E
      end;
      cbn [fs stdin stdout]; rewrite <- app_assoc;
      exists final; eexists; (split; [reflexivity | exact F]).
Qed.



(** *** Geometry failures *)

Section WithGeometry.
Context {G : Geometry}.
Variable base_dir case_dir : Fs.path.
Variable n_proc : Z.



End WithGeometry.


(** *** Running assembly again *)

Section Idempotence.
Context {G : Geometry}.
Variable base_dir case_dir : Fs.path.
Variable n_proc : Z.
Variable stl_files : list (str * Fs.path).
Hypothesis case_dir_not_root : case_dir <> [].

(** Computations whose result and effect on the files depend on the files
    only, not on what was printed or typed before. *)
Definition respects {A} (m : M A) : Prop :=
  forall w w', fs w = fs w' ->
    fst (m w) = fst (m w') /\ fs (snd (m w)) = fs (snd (m w')).

(** Computations that, once the case directory exists, keep it a directory
    and change nothing outside it. *)
Definition inside {A} (m : M A) : Prop :=
  forall w, is_dir case_dir (fs w) ->
    is_dir case_dir (fs (snd (m w))) /\
    Fs.remove case_dir (fs (snd (m w))) = Fs.remove case_dir (fs w).







Lemma respects_update_fs f e : respects (update_fs f e).
Proof.
  intros w w' E. unfold update_fs. rewrite E.
  destruct (f (fs w')); simpl; auto.
Qed.




Lemma respects_rmtree p : respects (rmtree p).
Proof.
  intros w w' E. unfold rmtree. rewrite E.
  destruct (Fs.lookup p (fs w')) as [[d|es]|]; simpl; auto.
  apply respects_update_fs; exact E.
Qed.








(** What assembly does once the case directory has been copied. *)
Definition populate : M bool :=
  mkdir_p (tri_surface_dir case_dir) ;;
  wheel_centers <- place case_dir stl_files [] ;;
  (match wheel_centers with
   | [] => ret tt
   | _ => _update_wheel_centers case_dir wheel_centers
   end) ;;
  _update_decompose_par_dict case_dir n_proc ;;
  print (text "✓ Case setup completed successfully!") ;;
  ret true.

(** What assembly does once the old case directory is out of the way. *)
Definition rebuild : M bool :=
  try_
    (print (text "Copying base case from " ++ show_path base_dir
            ++ text " to " ++ show_path case_dir) ;;
     copytree base_dir case_dir ;;
     populate)
    (fun e => print (text "Error setting up case: " ++ describe e) ;; ret false).



Lemma inside_keeps {A} (m : M A) : keeps_fs m -> inside m.
Proof. intros H w Hd. rewrite H. auto. Qed.

Lemma inside_bind {A B} (m : M A) (k : A -> M B) :
  inside m -> (forall a, inside (k a)) -> inside (bind m k).
Proof.
  intros Hm Hk w Hd. unfold bind. destruct (Hm w Hd) as [D1 R1].
  destruct (m w) as [[a|e] w1]; simpl in *; [|auto].
  destruct (Hk a w1 D1) as [D2 R2]. rewrite R2. auto.
Qed.

Lemma inside_try {A} (m : M A) (h : exn -> M A) :
  inside m -> (forall e, inside (h e)) -> inside (try_ m h).
Proof.
  intros Hm Hh w Hd. unfold try_. destruct (Hm w Hd) as [D1 R1].
  destruct (m w) as [[a|e] w1]; simpl in *; [auto|].
  destruct (Hh e w1 D1) as [D2 R2]. rewrite R2. auto.
Qed.

Lemma inside_write_text q data :
  q <> [] -> inside (write_text (case_dir ++ q) data).
Proof.
  intros Hq w Hd. unfold write_text.
  assert (Hu : is_dir case_dir
                 (fs (snd (update_fs (Fs.put (case_dir ++ q) (Fs.File data))
                             FileNotFoundError w))) /\
               Fs.remove case_dir
                 (fs (snd (update_fs (Fs.put (case_dir ++ q) (Fs.File data))
                             FileNotFoundError w)))
               = Fs.remove case_dir (fs w)).
  { unfold update_fs.
    destruct (Fs.put (case_dir ++ q) (Fs.File data) (fs w)) as [t'|] eqn:Ep;
      simpl; [|auto].
    destruct (@remove_put_inside _ _ _ _ _ case_dir_not_root Hq Ep) as (R & _ & D).
    auto. }
  destruct (Fs.lookup (case_dir ++ q) (fs w)) as [[d|es]|]; simpl; auto.
Qed.

Lemma inside_mkdir q : inside (mkdir_p (case_dir ++ q)).
Proof.
  intros w Hd. unfold mkdir_p, update_fs.
  destruct (Fs.makedirs (case_dir ++ q) (fs w)) as [t'|] eqn:Em; simpl; [|auto].
  destruct (@remove_makedirs_inside _ _ _ _ case_dir_not_root Hd Em) as [R D]. auto.
Qed.

Lemma inside_copy2 src q : q <> [] -> inside (copy2 src (case_dir ++ q)).
Proof.
  intros Hq w Hd. unfold copy2.
  destruct (Fs.lookup src (fs w)) as [[d|es]|]; simpl; auto.
  destruct (list_eq_dec _ _ _); simpl; auto.
  destruct (Fs.lookup (case_dir ++ q) (fs w)) as [[d'|es']|].
  - apply inside_write_text; auto.
  - rewrite <- app_assoc. apply inside_write_text; auto.
    destruct q; discriminate.
  - apply inside_write_text; auto.
Qed.

Lemma keeps_fs_for_wheel_centers items content :
  keeps_fs (for_wheel_centers items content).
Proof.
  intros w. destruct (for_wheel_centers_ok items content w) as (f & o & -> & _).
  reflexivity.
Qed.

Lemma inside_update_wheel_centers wc : inside (_update_wheel_centers case_dir wc).
Proof.
  unfold _update_wheel_centers.
  apply inside_bind; [apply inside_keeps, keeps_fs_exists | intros present].
  destruct (negb present); [apply inside_keeps, keeps_fs_print|].
  apply inside_bind; [apply inside_keeps, keeps_fs_read_text | intros content].
  apply inside_bind; [apply inside_keeps, keeps_fs_print | intros _].
  apply inside_bind;
    [apply inside_keeps, keeps_fs_for_wheel_centers | intros content'].
  apply inside_bind; [|intros _; apply inside_keeps, keeps_fs_print].
  apply inside_write_text. discriminate.
Qed.

Lemma inside_update_decompose : inside (_update_decompose_par_dict case_dir n_proc).
Proof.
  unfold _update_decompose_par_dict.
  apply inside_bind; [apply inside_keeps, keeps_fs_exists | intros present].
  destruct present; [|apply inside_keeps, keeps_fs_ret].
  apply inside_bind; [apply inside_keeps, keeps_fs_read_text | intros content].
  apply inside_bind; [|intros _; apply inside_keeps, keeps_fs_print].
  apply inside_write_text. discriminate.
Qed.

Lemma keeps_fs_load_centroid p : keeps_fs (load_centroid p).
Proof.
  unfold load_centroid.
  apply keeps_fs_bind; [apply keeps_fs_read_bytes | intros data].
  destruct (centroid_of data); [apply keeps_fs_ret | apply keeps_fs_raise].
Qed.

Lemma inside_place items wc : inside (place case_dir items wc).
Proof.
  revert wc. induction items as [|[c f] items IH]; intros wc; cbn [place].
  - apply inside_keeps, keeps_fs_ret.
  - apply inside_bind; [apply inside_keeps, keeps_fs_print | intros _].
    apply inside_bind.
    { unfold tri_surface_dir. rewrite <- app_assoc.
      apply inside_copy2. discriminate. }
    intros _. apply inside_bind; [|intros wc'; apply IH].
    apply inside_keeps.
    destruct (is_wheel c); [|apply keeps_fs_ret].
    apply keeps_fs_try.
    + apply keeps_fs_bind; [apply keeps_fs_load_centroid | intros v].
      apply keeps_fs_bind; [apply keeps_fs_print | intros _].
      apply keeps_fs_ret.
    + intros e. apply keeps_fs_bind; [apply keeps_fs_print | intros _].
      apply keeps_fs_ret.
Qed.

Lemma inside_populate : inside populate.
Proof.
  unfold populate.
  apply inside_bind; [apply inside_mkdir | intros _].
  apply inside_bind; [apply inside_place | intros wc].
  apply inside_bind.
  { destruct wc; [apply inside_keeps, keeps_fs_ret
                 | apply inside_update_wheel_centers]. }
  intros _. apply inside_bind; [apply inside_update_decompose | intros _].
  apply inside_bind; [apply inside_keeps, keeps_fs_print | intros _].
  apply inside_keeps, keeps_fs_ret.
Qed.

(** Rebuilding from a tree without a case directory: either nothing is
    left at the case directory, or it is a directory and the rest of the
    tree is as before. *)
Lemma rebuild_confined w :
  Fs.lookup case_dir (fs w) = None -> is_dir (Fs.parent case_dir) (fs w) ->
  fs (snd (rebuild w)) = fs w \/
  (is_dir case_dir (fs (snd (rebuild w))) /\
   Fs.remove case_dir (fs (snd (rebuild w))) = Some (fs w)).
Proof.
  intros Habsent Hparent.
  set (P := fun t1 : Fs.node =>
              t1 = fs w \/
              (is_dir case_dir t1 /\ Fs.remove case_dir t1 = Some (fs w))).
  change (P (fs (snd (rebuild w)))).
  assert (P0 : P (fs w)) by (left; reflexivity).
  unfold rebuild, try_.
  unfold bind at 1, print at 1. cbv beta iota.
  unfold bind at 1, copytree at 1. cbn [fs stdin stdout].
  destruct (Fs.lookup base_dir (fs w)) as [[d|es]|]; cbn [fst snd fs]; auto.
  unfold Fs.exists_. rewrite Habsent.
  destruct (_ && _); cbn [fst snd fs]; auto.
  rewrite (@makedirs_present _ _ Hparent).
  destruct (@put_in_dir _ (Fs.Dir es) _ case_dir_not_root Hparent) as [tb Hput].
  unfold update_fs. cbn [fs stdin stdout]. rewrite Hput.
  pose proof (@remove_put_new _ _ _ _ case_dir_not_root Habsent Hput) as Hrm.
  pose proof (@lookup_put_same _ _ _ _ Hput) as Hlk.
  match goal with
  | |- context [populate ?w1] =>
      destruct (inside_populate w1 ltac:(eexists; exact Hlk)) as [D R];
      destruct (populate w1) as [[b|e] w2]
  end; cbn [fst snd fs] in D, R;
    [|unfold bind, print, ret]; cbn [fst snd fs];
    right; rewrite R; auto.
Qed.

(** How assembly starts, by what is at the case directory. *)
Lemma setup_case_absent w :
  Fs.lookup case_dir (fs w) = None ->
  setup_case base_dir case_dir n_proc stl_files w = rebuild w.
Proof.
  intros H. unfold setup_case, rebuild, try_. rewrite bind_exists.
  unfold Fs.exists_. rewrite H. reflexivity.
Qed.

Lemma setup_case_directory w es t :
  Fs.lookup case_dir (fs w) = Some (Fs.Dir es) ->
  Fs.remove case_dir (fs w) = Some t ->
  setup_case base_dir case_dir n_proc stl_files w
  = rebuild (mk_world t (stdin w)
               (stdout w ++ [text "Removing existing case directory: "
                             ++ show_path case_dir])).
Proof.
  intros H Hr. unfold setup_case, rebuild, try_. rewrite bind_exists.
  unfold Fs.exists_. rewrite H.
  unfold bind at 1. unfold bind at 1. unfold print at 1. cbv beta iota.
  unfold rmtree, update_fs. cbn [fs stdin stdout]. rewrite H, Hr. reflexivity.
Qed.

Lemma setup_case_file w d :
  Fs.lookup case_dir (fs w) = Some (Fs.File d) ->
  setup_case base_dir case_dir n_proc stl_files w
  = (Ok false,
     mk_world (fs w) (stdin w)
       (stdout w
        ++ [text "Removing existing case directory: " ++ show_path case_dir;
            text "Error setting up case: " ++ describe NotADirectoryError])).
Proof.
  intros H. unfold setup_case, try_. rewrite bind_exists.
  unfold Fs.exists_. rewrite H.
  unfold bind at 1. unfold bind at 1. unfold print at 1. cbv beta iota.
  unfold rmtree. cbn [fs stdin stdout]. rewrite H.
  unfold bind, print, ret. cbn [fs stdin stdout]. rewrite <- app_assoc.
  reflexivity.
Qed.



End Idempotence.


(** *** One file for two components *)

(** C10.  There is an input folder for which resolution succeeds with [FL]
    and [FR] bound to one and the same file, and assembly then writes the
    bytes of that file both to [FL.stl] and to [FR.stl]. *)
Theorem one_file_bound_to_two_components :
  exists (stl : Fs.node) (shared : Fs.path) (data : str),
    let w := Samples.start stl in
    let r := Resolver._find_stl_files_in_folder Samples.stl_dir w in
    let tri := tri_surface_dir Samples.case_dir in
    Fs.lookup shared (fs w) = Some (Fs.File data) /\
    exists found,
      fst r = Ok found /\
      map fst found = Resolver.stl_components /\
      Fs.assoc (text "FL") found = Some shared /\
      Fs.assoc (text "FR") found = Some shared /\
      let r' := setup_case (G:=Samples.sample_geometry) Samples.base_dir
                  Samples.case_dir 6 found (snd r) in
      fst r' = Ok true /\
      Fs.lookup (tri ++ [text "FL.stl"]) (fs (snd r')) = Some (Fs.File data) /\
      Fs.lookup (tri ++ [text "FR.stl"]) (fs (snd r')) = Some (Fs.File data).
Proof.
  exists Samples.stl_folder_shared, [text "stl"; text "FL_FR.stl"],
    (text "front axle").
  cbv zeta. split; [vm_compute; reflexivity|].
  eexists. split; [vm_compute; reflexivity|].
  split; [vm_compute; reflexivity|].
  split; [vm_compute; reflexivity|].
  split; [vm_compute; reflexivity|].
  split; [vm_compute; reflexivity|].
  split; vm_compute; reflexivity.
Qed.

End CaseSetupFacts.

(** ** Result extraction *)

Module ResultsFacts.
Import Io Results IoFacts.
Local Open Scope io_scope.

Section WithNumbers.
Context {N : Numbers}.
Variable case_dir : Fs.path.

Lemma keeps_fs_item row i : keeps_fs (item row i).
Proof.
  unfold item. destruct (nth_error row i);
    [apply keeps_fs_ret | apply keeps_fs_raise].
Qed.

Lemma keeps_fs_extract : keeps_fs (extract_latest_cd case_dir).
Proof.
  unfold extract_latest_cd. cbv zeta.
  apply keeps_fs_bind; [apply keeps_fs_exists | intros present].
  destruct (negb present).
  - apply keeps_fs_bind; [apply keeps_fs_print | intros; apply keeps_fs_ret].
  - apply keeps_fs_try.
    + apply keeps_fs_bind.
      { unfold loadtxt. apply keeps_fs_bind; [apply keeps_fs_read_text|].
        intros content. destruct (table content);
          [apply keeps_fs_ret | apply keeps_fs_raise]. }
      intros data. apply keeps_fs_bind.
      { destruct data; [apply keeps_fs_raise | apply keeps_fs_ret ..]. }
      intros n. destruct (Nat.eqb n 0).
      { apply keeps_fs_bind; [apply keeps_fs_print | intros; apply keeps_fs_ret]. }
      apply keeps_fs_bind.
      { destruct data as [x|xs|rows]; simpl;
          [apply keeps_fs_raise | apply keeps_fs_ret |].
        destruct (rev rows); [apply keeps_fs_raise | apply keeps_fs_ret]. }
      intros row.
      repeat (apply keeps_fs_bind;
              [first [apply keeps_fs_item | apply keeps_fs_print] | intros]).
      apply keeps_fs_ret.
    + intros e. apply keeps_fs_bind; [apply keeps_fs_print|].
      intros. apply keeps_fs_ret.
Qed.


(** The array of a table whose last row has at least two entries. *)
Lemma squeeze_last rows row :
  2 <= length row ->
  exists n, n <> 0 /\
    len (squeeze (rows ++ [row])) = ret n /\
    latest (squeeze (rows ++ [row])) = ret row.
Proof.
  intros Hrow. destruct rows as [|r0 rows].
  - destruct row as [|x [|y row]]; simpl in Hrow; try lia.
    exists (length (x :: y :: row)). simpl. repeat split. discriminate.
  - assert (E : exists a b l, (r0 :: rows) ++ [row] = a :: b :: l).
    { destruct rows; simpl; eauto. }
    destruct E as (a & b & l & E). rewrite E. cbn [squeeze].
    assert (F : forallb (fun r => Nat.eqb (length r) 1) (a :: b :: l) = false).
    { rewrite <- E. rewrite forallb_app. simpl.
      destruct (Nat.eqb_spec (length row) 1); [lia|].
      rewrite andb_false_r. reflexivity. }
    rewrite F. exists (length (a :: b :: l)). split; [discriminate|].
    split; [reflexivity|]. cbn [latest]. rewrite <- E, rev_app_distr.
    reflexivity.
Qed.

Lemma extract_present w data :
  Fs.lookup (coefficient_file case_dir) (fs w) = Some (Fs.File data) ->
  fst (extract_latest_cd case_dir w) =
  fst (try_
         (match table (Text.universal_newlines data) with
          | Ok rows =>
              let data := squeeze rows in
              n <- len data ;;
              if Nat.eqb n 0 then ret None
              else
                latest_row <- latest data ;;
                time <- item latest_row 0 ;;
                Cd <- item latest_row 1 ;;
                Cl <- item latest_row 4 ;;
                Cm <- item latest_row 6 ;;
                ret (Some (mk_sample time Cd Cl Cm))
          | Raise e => raise e
          end)
         (fun _ => ret None) w).
Proof.
  intros Hl. unfold extract_latest_cd. cbv zeta. rewrite bind_exists.
  unfold Fs.exists_. rewrite Hl. cbn [negb].
  unfold try_, loadtxt, read_text, read_bytes.
  cbv beta delta [bind ret raise]. rewrite Hl. cbv beta iota.
  destruct (table _) as [rows|e]; [|reflexivity].
  cbv beta iota zeta.
  destruct (len (squeeze rows) w) as [[n|e] w1] eqn:El;
    [|reflexivity].
  unfold len in El. destruct (squeeze rows) as [x|xs|rs];
    cbv beta delta [ret raise] in El; inversion El; subst n w1; clear El.
  - destruct (Nat.eqb (length xs) 0); [reflexivity|].
    cbv beta iota delta [latest ret]. 
    unfold item, print.
    destruct (nth_error xs 0); cbv beta iota delta [ret raise]; [|reflexivity].
    destruct (nth_error xs 1); cbv beta iota delta [ret raise]; [|reflexivity].
    destruct (nth_error xs 4); cbv beta iota delta [ret raise]; [|reflexivity].
    destruct (nth_error xs 6); cbv beta iota delta [ret raise]; reflexivity.
  - destruct (Nat.eqb (length rs) 0); [reflexivity|].
    cbv beta iota delta [latest ret raise].
    destruct (rev rs) as [|xs ?]; cbv beta iota; [reflexivity|].
    unfold item, print.
    destruct (nth_error xs 0); cbv beta iota delta [ret raise]; [|reflexivity].
    destruct (nth_error xs 1); cbv beta iota delta [ret raise]; [|reflexivity].
    destruct (nth_error xs 4); cbv beta iota delta [ret raise]; [|reflexivity].
    destruct (nth_error xs 6); cbv beta iota delta [ret raise]; reflexivity.
Qed.

Lemma nth_error_nth_of (row : list Num.float) i :
  i < length row -> nth_error row i = Some (nth i row S754_nan).
Proof.
  revert i. induction row as [|x row IH]; intros [|i] H; simpl in *;
    try lia; auto. apply IH. lia.
Qed.

Lemma extract_last w data rows row :
  Fs.lookup (coefficient_file case_dir) (fs w) = Some (Fs.File data) ->
  table (Text.universal_newlines data) = Ok (rows ++ [row]) ->
  7 <= length row ->
  fst (extract_latest_cd case_dir w) = Ok (Some (sample_of row)).
Proof.
  intros Hl Ht Hrow. rewrite (extract_present w Hl), Ht. cbv zeta.
  destruct (squeeze_last rows row ltac:(lia)) as (n & Hn & -> & ->).
  unfold try_. cbv beta delta [bind ret]. cbv beta iota.
  destruct (Nat.eqb_spec n 0) as [|_]; [contradiction|].
  unfold item. rewrite !nth_error_nth_of by lia. reflexivity.
Qed.


End WithNumbers.
End ResultsFacts.

(* ================================================================= *)
(** * Part III: further properties of the code *)
(* ================================================================= *)

(** ** The pipeline, when nothing fails *)

Module RunnerMore.
Import Runner RunnerFacts.
Section WithPlatform.
Context {P : Platform}.
Variable case_dir : str.
Variable n_proc : Z.


End WithPlatform.
End RunnerMore.

(** ** Component resolution, when it succeeds *)

Module ResolverMore.
Import Io Resolver TextFacts IoFacts ResolverFacts.
Local Open Scope io_scope.

(** *** Reading a number *)








(** *** The loop over the components *)

Lemma assoc_set_new {A} k (v : A) l :
  ~ In k (map fst l) -> Fs.assoc_set k v l = l ++ [(k, v)].
Proof.
  induction l as [|[k' v'] l IH]; [reflexivity|].
  cbn [map fst In Fs.assoc_set app]. intros H.
  destruct (Text.eqb k k') eqn:E.
  - apply eqb_eq in E. subst k'. tauto.
  - rewrite IH by tauto. reflexivity.
Qed.

Lemma NoDup_mid {A} (l : list A) x r :
  NoDup (l ++ x :: r) -> ~ In x l /\ NoDup ((l ++ [x]) ++ r).
Proof.
  intros H. split.
  - apply NoDup_remove_2 in H. intros Hin. apply H. apply in_or_app. auto.
  - rewrite <- app_assoc. exact H.
Qed.

(** A component bound to a file of the folder that matches it. *)
Definition bound (folder : Fs.path) (stl_files : list str)
    (e : str * Fs.path) : Prop :=
  exists name,
    snd e = folder ++ [name] /\ In name (matching_files (fst e) stl_files).

Lemma for_components_bound folder stl_files components :
  forall found w result w',
    NoDup (map fst found ++ components) ->
    Forall (bound folder stl_files) found ->
    for_components folder stl_files components found w
    = (Ok (Some result), w') ->
    map fst result = map fst found ++ components /\
    Forall (bound folder stl_files) result.
Proof.
  induction components as [|c cs IH]; intros found w result w' Hn Hb.
  - cbn [for_components]. unfold ret. intros E. inversion E; subst.
    rewrite app_nil_r. auto.
  - destruct (NoDup_mid _ _ _ Hn) as [Hc Hn'].
    cbn [for_components].
    destruct (matching_files c stl_files) as [|f1 [|f2 rest]] eqn:Em.
    + unfold bind, print, ret. discriminate.
    + unfold bind at 1. unfold print at 1. cbv iota beta.
      rewrite (assoc_set_new _ _ _ Hc). intros E.
      apply IH in E.
      * rewrite map_app, <- app_assoc in E. exact E.
      * rewrite map_app. exact Hn'.
      * apply Forall_app. split; [exact Hb|]. constructor; [|constructor].
        exists f1. cbn [fst snd]. rewrite Em. simpl. auto.
    + unfold bind at 1. unfold print at 1. cbv iota beta.
      unfold bind at 1.
      match goal with
      | |- context [print_numbered 0 ?l ?w0] =>
          destruct (print_numbered_ok 0 l w0) as [out ->]
      end.
      cbv iota beta. unfold bind at 1. unfold select_index at 1.
      cbn [fs stdin stdout].
      match goal with
      | |- context [choose ?a ?b ?n ?o] =>
          pose proof (choose_spec a b n o) as Hch;
          destruct (choose a b n o) as [[[idx|e] pending] out']
      end; [|discriminate].
      unfold bind at 1. unfold print at 1. cbv iota beta.
      rewrite (assoc_set_new _ _ _ Hc). intros E.
      apply IH in E.
      * rewrite map_app, <- app_assoc in E. exact E.
      * rewrite map_app. exact Hn'.
      * apply Forall_app. split; [exact Hb|]. constructor; [|constructor].
        exists (nth idx (f1 :: f2 :: rest) []). cbn [fst snd].
        split; [reflexivity|]. rewrite Em. apply nth_In. exact Hch.
Qed.

Lemma stl_components_distinct : NoDup stl_components.
Proof.
  unfold stl_components.
  repeat (constructor; [simpl; intuition discriminate|]). constructor.
Qed.

Lemma find_bound folder w found :
  fst (_find_stl_files_in_folder folder w) = Ok found -> found <> [] ->
  map fst found = stl_components /\
  Forall (bound folder (glob_stl folder (fs w))) found.
Proof.
  intros Hr Hne. rewrite find_stl_files_eq in Hr.
  destruct (for_components _ _ _ _ _) as [[[result|]|e] w'] eqn:E;
    cbn [fst] in Hr; inversion Hr; subst; [|congruence].
  apply for_components_bound in E.
  - exact E.
  - apply stl_components_distinct.
  - constructor.
Qed.

(** X2.  Whenever resolution returns a mapping that is not empty, the mapping
    has exactly the five canonical components as its keys, in canonical
    order, and each is bound to a file of the folder's listing that matches
    it; the files on disk are as before. *)
Theorem resolution_binds_every_component (folder : Fs.path) (w : world)
    (found : list (str * Fs.path)) :
  let r := _find_stl_files_in_folder folder w in
  fst r = Ok found -> found <> [] ->
  map fst found = stl_components /\
  Forall (fun e => exists name,
              snd e = folder ++ [name] /\
              In name (matching_files (fst e) (glob_stl folder (fs w))))
         found /\
  fs (snd r) = fs w.
Proof.
  cbv zeta. intros Hr Hne.
  destruct (find_bound folder w Hr Hne) as [Hkeys Hbound].
  split; [exact Hkeys|]. split; [exact Hbound|]. apply keeps_fs_find.
Qed.

(** *** Every component with exactly one file *)

Lemma for_components_unique folder stl_files components :
  forall found w,
    NoDup (map fst found ++ components) ->
    (forall c, In c components ->
               exists name, matching_files c stl_files = [name]) ->
    exists out,
      for_components folder stl_files components found w
      = (Ok (Some (found ++
                   map (fun c => (c, folder
                                     ++ [hd [] (matching_files c stl_files)]))
                     components)),
         mk_world (fs w) (stdin w) (stdout w ++ out)).
Proof.
  induction components as [|c cs IH]; intros found w Hn Hu.
  - exists []. cbn [for_components map]. rewrite !app_nil_r.
    destruct w; reflexivity.
  - destruct (NoDup_mid _ _ _ Hn) as [Hc Hn'].
    destruct (Hu c (or_introl eq_refl)) as [name Em].
    cbn [for_components map]. rewrite Em. cbn [hd].
    unfold bind at 1. unfold print at 1. cbv iota beta.
    rewrite (assoc_set_new _ _ _ Hc).
    match goal with
    | |- context [for_components _ _ cs ?f ?w0] =>
        destruct (IH f w0) as [out E]
    end.
    + rewrite map_app. exact Hn'.
    + intros c' Hin. apply Hu. right. exact Hin.
    + rewrite E. cbn [fs stdin stdout].
      rewrite <- !app_assoc. cbn [app]. eauto.
Qed.

Lemma find_unique folder w :
  (forall c, In c stl_components ->
             exists name,
               matching_files c (glob_stl folder (fs w)) = [name]) ->
  exists out,
    _find_stl_files_in_folder folder w
    = (Ok (map (fun c => (c, folder
                             ++ [hd [] (matching_files c
                                          (glob_stl folder (fs w)))]))
             stl_components),
       mk_world (fs w) (stdin w) (stdout w ++ out)).
Proof.
  intros Hu. rewrite find_stl_files_eq.
  destruct (@for_components_unique folder (glob_stl folder (fs w))
              stl_components [] (listed folder w)
              stl_components_distinct Hu) as [out E].
  cbn [app] in E. rewrite E. cbn [listed fs stdin stdout].
  rewrite <- app_assoc. eauto.
Qed.

(** X3.  When every canonical component has exactly one matching file in the
    folder, resolution succeeds without asking anything: it binds each
    component to its one file, reads no input and changes no file. *)
Theorem unique_files_resolve_silently (folder : Fs.path) (w : world) :
  let stl_files := glob_stl folder (fs w) in
  let r := _find_stl_files_in_folder folder w in
  (forall c, In c stl_components ->
             exists name, matching_files c stl_files = [name]) ->
  fst r = Ok (map (fun c => (c, folder ++ [hd [] (matching_files c stl_files)]))
                stl_components) /\
  stdin (snd r) = stdin w /\
  fs (snd r) = fs w.
Proof.
  cbv zeta. intros Hu. destruct (find_unique folder w Hu) as [out ->].
  cbn [fst snd fs stdin]. auto.
Qed.

(** *** Choosing among several files *)

Definition prompt (component : str) (count : nat) : str :=
  text "Select file for " ++ component ++ text " (1-"
  ++ Text.of_Z (Z.of_nat count) ++ text "): ".





(** *** A folder that is not there *)

(** X5.  When the folder does not exist or is a file, resolution raises nothing:
    it reports zero files, names the first canonical component as missing
    and returns the empty mapping, without reading any input. *)
Theorem missing_folder_resolves_nothing (folder : Fs.path) (w : world) :
  (Fs.lookup folder (fs w) = None \/
   exists data, Fs.lookup folder (fs w) = Some (Fs.File data)) ->
  _find_stl_files_in_folder folder w
  = (Ok [],
     mk_world (fs w) (stdin w)
       (stdout w ++ [Text.nl :: text "Found 0 STL files in folder:";
                     no_file_found (text "FL")])).
Proof.
  intros Hl.
  assert (Hg : glob_stl folder (fs w) = []).
  { unfold glob_stl. destruct Hl as [->|[data ->]]; reflexivity. }
  rewrite find_stl_files_eq. unfold listed. rewrite Hg.
  cbn [for_components stl_components matching_files filter].
  unfold bind, print, ret. cbn [fs stdin stdout map length].
  rewrite <- app_assoc. reflexivity.
Qed.

(** The folder with a file for two components at once: resolution binds
    all five. *)
Lemma resolution_binds_every_component_witness :
  let w := Samples.start Samples.stl_folder_shared in
  let found :=
    [(text "FL", Samples.stl_dir ++ [text "FL_FR.stl"]);
     (text "FR", Samples.stl_dir ++ [text "FL_FR.stl"]);
     (text "RL", Samples.stl_dir ++ [text "RL.stl"]);
     (text "RR", Samples.stl_dir ++ [text "RR.stl"]);
     (text "mainBody", Samples.stl_dir ++ [text "mainBody.stl"])] in
  fst (_find_stl_files_in_folder Samples.stl_dir w) = Ok found /\
  found <> [] /\
  map fst found = stl_components.
Proof.
  cbv zeta.
  assert (H1 : fst (_find_stl_files_in_folder Samples.stl_dir
                      (Samples.start Samples.stl_folder_shared))
               = Ok [(text "FL", Samples.stl_dir ++ [text "FL_FR.stl"]);
                     (text "FR", Samples.stl_dir ++ [text "FL_FR.stl"]);
                     (text "RL", Samples.stl_dir ++ [text "RL.stl"]);
                     (text "RR", Samples.stl_dir ++ [text "RR.stl"]);
                     (text "mainBody", Samples.stl_dir ++ [text "mainBody.stl"])])
    by (vm_compute; reflexivity).
  split; [exact H1|]. split; [discriminate|].
  apply (resolution_binds_every_component Samples.stl_dir
           (Samples.start Samples.stl_folder_shared) H1).
  discriminate.
Defined.

(** The folder with one file per component. *)
Lemma unique_files_resolve_silently_witness :
  let w := Samples.start Samples.stl_folder in
  let r := _find_stl_files_in_folder Samples.stl_dir w in
  (forall c, In c stl_components ->
             exists name,
               matching_files c (glob_stl Samples.stl_dir (fs w)) = [name]) /\
  fst r = Ok [(text "FL", Samples.stl_dir ++ [text "car_FL.stl"]);
              (text "FR", Samples.stl_dir ++ [text "car_FR.stl"]);
              (text "RL", Samples.stl_dir ++ [text "car_RL.stl"]);
              (text "RR", Samples.stl_dir ++ [text "car_RR.stl"]);
              (text "mainBody", Samples.stl_dir ++ [text "car_mainBody.stl"])] /\
  stdin (snd r) = [].
Proof.
  cbv zeta.
  assert (H : forall c, In c stl_components ->
                exists name,
                  matching_files c
                    (glob_stl Samples.stl_dir
                       (fs (Samples.start Samples.stl_folder))) = [name]).
  { intros c [<-|[<-|[<-|[<-|[<-|[]]]]]]; eexists; vm_compute; reflexivity. }
  split; [exact H|].
  destruct (unique_files_resolve_silently Samples.stl_dir
              (Samples.start Samples.stl_folder) H) as (Hr & Hin & _).
  split; [rewrite Hr; vm_compute; reflexivity | exact Hin].
Defined.


(** A folder that is not on the disk. *)
Lemma missing_folder_resolves_nothing_witness :
  let w := Samples.start Samples.stl_folder in
  Fs.lookup [text "nowhere"] (fs w) = None /\
  fst (_find_stl_files_in_folder [text "nowhere"] w) = Ok [].
Proof.
  cbv zeta.
  assert (H : Fs.lookup [text "nowhere"] (fs (Samples.start Samples.stl_folder))
              = None) by (vm_compute; reflexivity).
  split; [exact H|].
  rewrite (missing_folder_resolves_nothing [text "nowhere"]
             (Samples.start Samples.stl_folder) (or_introl H)).
  reflexivity.
Defined.

End ResolverMore.

(** ** The patches, when there is nothing to patch *)

Module PatchMore.
Import Io CaseSetup Re ReFacts TextFacts FsFacts IoFacts CaseSetupFacts.
Local Open Scope io_scope.






(** *** A wheel that the velocity file does not name *)









End PatchMore.

(** ** Paths that lie apart *)

Module FsMore.
Import Fs TextFacts FsFacts.

(** Neither path is the other or an ancestor of the other. *)
Definition apart (a b : path) : Prop :=
  is_prefix a b = false /\ is_prefix b a = false.

Lemma apart_sym a b : apart a b -> apart b a.
Proof. intros [H1 H2]. split; assumption. Qed.

Lemma apart_cons x a b : apart (x :: a) (x :: b) -> apart a b.
Proof.
  unfold apart. cbn [is_prefix]. rewrite eqb_refl. cbn [andb]. auto.
Qed.

Lemma apart_head x y a b : x <> y -> apart (x :: a) (y :: b).
Proof.
  intros H. unfold apart. cbn [is_prefix].
  apply eqb_neq in H as H1. assert (H2 : Text.eqb y x = false)
    by (apply eqb_neq; congruence).
  rewrite H1, H2. auto.
Qed.

Lemma apart_nonempty a b : apart a b -> a <> [] /\ b <> [].
Proof.
  intros [H1 H2]. split; intros ->; [destruct b | destruct a]; discriminate.
Qed.

Lemma apart_app a b c : apart a b -> apart (a ++ c) b.
Proof.
  revert b. induction a as [|x a IH]; intros b H.
  - destruct (apart_nonempty H) as [H1 _]. congruence.
  - destruct b as [|y b]; [destruct (apart_nonempty H); congruence|].
    destruct (Text.eqb x y) eqn:E.
    + apply eqb_eq in E. subst y. apply apart_cons in H.
      specialize (IH b H). unfold apart in *. cbn [app is_prefix].
      rewrite eqb_refl. exact IH.
    + apply eqb_neq in E. cbn [app]. apply apart_head. exact E.
Qed.

Lemma apart_below q x y r : x <> y -> apart (q ++ x :: r) (q ++ [y]).
Proof.
  intros H. induction q as [|z q IH]; cbn [app].
  - apply apart_head. exact H.
  - unfold apart in *. cbn [is_prefix]. rewrite eqb_refl. exact IH.
Qed.

Lemma lookup_nil_dir p : p <> [] -> lookup p (Dir []) = None.
Proof. destruct p; [congruence | reflexivity]. Qed.

Lemma lookup_app a b t :
  lookup (a ++ b) t
  = match lookup a t with Some n => lookup b n | None => None end.
Proof.
  revert t. induction a as [|x a IH]; intros t; [reflexivity|].
  cbn [app]. destruct t as [d|es]; [reflexivity|].
  rewrite !lookup_cons. destruct (assoc x es); auto.
Qed.

Ltac split_head x y :=
  let E := fresh "E" in
  destruct (Text.eqb x y) eqn:E;
  [apply eqb_eq in E; subst y | apply eqb_neq in E].

(** Writing at a path changes nothing at a path apart from it. *)
Lemma lookup_put_apart q v t t' p :
  put q v t = Some t' -> apart q p -> lookup p t' = lookup p t.
Proof.
  revert t t' p. induction q as [|x q IH]; intros t t' p Hput Hap.
  - destruct (apart_nonempty Hap). congruence.
  - destruct p as [|y p]; [destruct (apart_nonempty Hap); congruence|].
    destruct t as [d|es]; [discriminate|].
    destruct q as [|x2 q2].
    + simpl in Hput. inversion Hput; subst t'. rewrite !lookup_cons.
      split_head x y.
      * destruct Hap as [Hap _]. cbn [is_prefix] in Hap.
        rewrite eqb_refl in Hap. discriminate.
      * rewrite assoc_set_other by congruence. reflexivity.
    + rewrite put_cons2 in Hput.
      destruct (assoc x es) as [n|] eqn:Ea; [|discriminate].
      destruct (put (x2 :: q2) v n) as [n'|] eqn:Ep; [|discriminate].
      inversion Hput; subst t'. rewrite !lookup_cons.
      split_head x y.
      * rewrite assoc_set_same, Ea. apply (IH _ _ _ Ep).
        apply apart_cons in Hap. exact Hap.
      * rewrite assoc_set_other by congruence. reflexivity.
Qed.

(** Removing at a path changes nothing at a path apart from it. *)
Lemma lookup_remove_apart q t t' p :
  remove q t = Some t' -> apart q p -> lookup p t' = lookup p t.
Proof.
  revert t t' p. induction q as [|x q IH]; intros t t' p Hrm Hap.
  - discriminate.
  - destruct p as [|y p]; [destruct (apart_nonempty Hap); congruence|].
    destruct t as [d|es]; [discriminate|].
    destruct q as [|x2 q2].
    + simpl in Hrm. destruct (assoc x es) as [n|] eqn:Ea; [|discriminate].
      inversion Hrm; subst t'. rewrite !lookup_cons.
      split_head x y.
      * destruct Hap as [Hap _]. cbn [is_prefix] in Hap.
        rewrite eqb_refl in Hap. discriminate.
      * rewrite assoc_del_other by congruence. reflexivity.
    + rewrite remove_cons2 in Hrm.
      destruct (assoc x es) as [n|] eqn:Ea; [|discriminate].
      destruct (remove (x2 :: q2) n) as [n'|] eqn:Ep; [|discriminate].
      inversion Hrm; subst t'. rewrite !lookup_cons.
      split_head x y.
      * rewrite assoc_set_same, Ea. apply (IH _ _ _ Ep).
        apply apart_cons in Hap. exact Hap.
      * rewrite assoc_set_other by congruence. reflexivity.
Qed.

(** Making directories along a path changes nothing at a path apart from
    it. *)
Lemma lookup_makedirs_apart q t t' p :
  makedirs q t = Some t' -> apart q p -> lookup p t' = lookup p t.
Proof.
  revert t t' p. induction q as [|x q IH]; intros t t' p Hmk Hap.
  - destruct (apart_nonempty Hap). congruence.
  - destruct p as [|y p]; [destruct (apart_nonempty Hap); congruence|].
    destruct t as [d|es]; [discriminate|].
    cbn [makedirs] in Hmk.
    destruct (makedirs q match assoc x es with
                         | Some n => n
                         | None => Dir []
                         end) as [n'|] eqn:Em; [|discriminate].
    inversion Hmk; subst t'. rewrite !lookup_cons.
    split_head x y.
    + rewrite assoc_set_same. apply apart_cons in Hap.
      rewrite (IH _ _ _ Em Hap).
      destruct (assoc x es); [reflexivity|].
      apply lookup_nil_dir. apply (apart_nonempty Hap).
    + rewrite assoc_set_other by congruence. reflexivity.
Qed.

(** Making directories along a path changes nothing below the path that
    was there before. *)
Lemma lookup_makedirs_below q t t' r :
  makedirs q t = Some t' -> r <> [] ->
  lookup (q ++ r) t' = lookup (q ++ r) t.
Proof.
  revert t t'. induction q as [|x q IH]; intros t t' Hmk Hr.
  - destruct t; simpl in Hmk; [discriminate|]. inversion Hmk. reflexivity.
  - destruct t as [d|es]; [discriminate|].
    cbn [makedirs] in Hmk.
    destruct (makedirs q match assoc x es with
                         | Some n => n
                         | None => Dir []
                         end) as [n'|] eqn:Em; [|discriminate].
    inversion Hmk; subst t'. cbn [app]. rewrite !lookup_cons.
    rewrite assoc_set_same, (IH _ _ Em Hr).
    destruct (assoc x es); [reflexivity|].
    apply lookup_nil_dir. destruct q; simpl; [exact Hr | discriminate].
Qed.

Lemma lookup_below_none a b t :
  lookup a t = None -> lookup (a ++ b) t = None.
Proof. intros H. rewrite lookup_app, H. reflexivity. Qed.

Lemma is_prefix_app a b : is_prefix a b = true -> exists r, b = a ++ r.
Proof.
  revert b. induction a as [|x a IH]; intros b H; [exists b; reflexivity|].
  destruct b as [|y b]; cbn [is_prefix] in H; [discriminate|].
  apply andb_true_iff in H. destruct H as [E H]. apply eqb_eq in E. subst y.
  destruct (IH b H) as [r ->]. exists r. reflexivity.
Qed.

Lemma lookup_remove_none q t t' p :
  remove q t = Some t' -> lookup p t = None -> lookup p t' = None.
Proof.
  revert t t' p. induction q as [|x q IH]; intros t t' p Hrm Hl;
    [discriminate|].
  destruct p as [|y p]; [discriminate|].
  destruct t as [d|es]; [discriminate|].
  rewrite lookup_cons in Hl.
  destruct q as [|x2 q2].
  - simpl in Hrm. destruct (assoc x es) as [n|] eqn:Ea; [|discriminate].
    inversion Hrm; subst t'. rewrite lookup_cons.
    split_head x y.
    + rewrite assoc_del_same. reflexivity.
    + rewrite assoc_del_other by congruence. exact Hl.
  - rewrite remove_cons2 in Hrm.
    destruct (assoc x es) as [n|] eqn:Ea; [|discriminate].
    destruct (remove (x2 :: q2) n) as [n'|] eqn:Ep; [|discriminate].
    inversion Hrm; subst t'. rewrite lookup_cons.
    split_head x y.
    + rewrite assoc_set_same. rewrite Ea in Hl. apply (IH _ _ _ Ep Hl).
    + rewrite assoc_set_other by congruence. exact Hl.
Qed.

End FsMore.

(** ** Assembly: failures and the rest of the disk *)

Module SetupMore.
Import Io CaseSetup TextFacts FsFacts IoFacts CaseSetupFacts FsMore.
Local Open Scope io_scope.

Section WithGeometry.
Context {G : Geometry}.
Variable base_dir case_dir : Fs.path.
Variable n_proc : Z.
Variable stl_files : list (str * Fs.path).







Hypothesis case_dir_not_root : case_dir <> [].

(** *** A base case that is not there *)


(** *** The rest of the disk *)

Lemma inside_lookup {A} (m : M A) p w :
  inside case_dir m -> apart case_dir p -> is_dir case_dir (fs w) ->
  is_dir case_dir (fs (snd (m w))) /\
  Fs.lookup p (fs (snd (m w))) = Fs.lookup p (fs w).
Proof.
  intros Hm Hp Hd. destruct (Hm w Hd) as [D R]. split; [exact D|].
  destruct Hd as [es Hd]. destruct D as [es' D].
  destruct (@remove_present _ _ _ case_dir_not_root Hd) as [t Ht].
  destruct (@remove_present _ _ _ case_dir_not_root D) as [t' Ht'].
  rewrite <- (@lookup_remove_apart _ _ _ _ Ht Hp).
  rewrite <- (@lookup_remove_apart _ _ _ _ Ht' Hp). congruence.
Qed.

(** X10.  Assembly changes nothing at any path that is neither at or under the
    destination nor an ancestor of it: the base case and the mesh files it
    reads are as before, whether assembly succeeds or fails. *)
Theorem assembly_touches_only_destination (w : world) (p : Fs.path) :
  is_dir (Fs.parent case_dir) (fs w) -> apart case_dir p ->
  Fs.lookup p (fs (snd (setup_case base_dir case_dir n_proc stl_files w)))
  = Fs.lookup p (fs w).
Proof.
  intros Hpar Hp.
  assert (Hreb : forall w0,
             Fs.lookup case_dir (fs w0) = None ->
             is_dir (Fs.parent case_dir) (fs w0) ->
             Fs.lookup p (fs (snd (rebuild base_dir case_dir n_proc stl_files w0)))
             = Fs.lookup p (fs w0)).
  { intros w0 Ha Hd.
    destruct (@rebuild_confined _ base_dir case_dir n_proc stl_files
                case_dir_not_root w0 Ha Hd) as [->|[_ R]]; [reflexivity|].
    symmetry. apply (@lookup_remove_apart _ _ _ _ R Hp). }
  destruct (Fs.lookup case_dir (fs w)) as [[d|es]|] eqn:Hl.
  - rewrite (@setup_case_file _ base_dir case_dir n_proc stl_files _ _ Hl). reflexivity.
  - destruct (@remove_present _ _ _ case_dir_not_root Hl) as [t Hr].
    rewrite (@setup_case_directory _ base_dir case_dir n_proc stl_files _ _ _ Hl Hr).
    rewrite Hreb; cbn [fs].
    + apply (@lookup_remove_apart _ _ _ _ Hr Hp).
    + apply (@lookup_remove _ _ _ Hr).
    + apply (@parent_after_remove _ _ _ Hr).
  - rewrite (@setup_case_absent _ base_dir case_dir n_proc stl_files _ Hl). apply Hreb; assumption.
Qed.


(** *** Mesh files that cannot be copied *)

(** The centroid step of one round of the placement loop. *)
Definition centre (component : str) (file_path : Fs.path)
    (wheel_centers : list (str * Num.vec)) : M (list (str * Num.vec)) :=
  if is_wheel component then
    try_
      (centroid <- load_centroid file_path ;;
       print (text "  Calculated " ++ component ++ text " center: "
              ++ origin_str centroid) ;;
       ret (Fs.assoc_set component centroid wheel_centers))
      (fun e =>
         print (text "  Warning: Could not calculate centroid for "
                ++ component ++ text ": " ++ describe e) ;;
         ret wheel_centers)
  else ret wheel_centers.

Definition dest (component : str) : Fs.path :=
  tri_surface_dir case_dir ++ [component ++ text ".stl"].

Lemma place_cons c p items wc :
  place case_dir ((c, p) :: items) wc
  = (print (text "Copying " ++ c ++ text ": " ++ show_path p
            ++ text " → " ++ show_path (dest c)) ;;
     copy2 p (dest c) ;;
     wc' <- centre c p wc ;;
     place case_dir items wc').
Proof. reflexivity. Qed.

Lemma centre_ok c p wc w :
  exists wc' out,
    centre c p wc w = (Ok wc', mk_world (fs w) (stdin w) (stdout w ++ out)).
Proof.
  unfold centre. destruct (is_wheel c).
  - unfold try_, bind at 1.
    pose proof (keeps_fs_load_centroid p w) as K.
    assert (Kin : stdin (snd (load_centroid p w)) = stdin w
                  /\ stdout (snd (load_centroid p w)) = stdout w).
    { unfold load_centroid, bind, read_bytes.
      destruct (Fs.lookup p (fs w)) as [[d|es]|]; auto.
      destruct (centroid_of d); auto. }
    destruct (load_centroid p w) as [[v|e] w1]; cbn [snd] in K, Kin;
      destruct Kin as [K1 K2]; unfold bind, print, ret;
      cbn [fs stdin stdout]; rewrite K, K1, K2; eauto.
  - exists wc, []. unfold ret. rewrite app_nil_r. destruct w; reflexivity.
Qed.

Lemma dest_inside c :
  dest c = case_dir ++ [text "constant"; text "triSurface"; c ++ text ".stl"].
Proof. unfold dest, tri_surface_dir. rewrite <- app_assoc. reflexivity. Qed.

Lemma inside_copy_to_dest p c : inside case_dir (copy2 p (dest c)).
Proof.
  rewrite dest_inside. apply inside_copy2; [assumption | discriminate].
Qed.

Definition not_a_file (p : Fs.path) (t : Fs.node) : Prop :=
  forall data, Fs.lookup p t <> Some (Fs.File data).

Lemma place_fails c p items :
  In (c, p) items -> apart case_dir p ->
  forall wc w,
    is_dir case_dir (fs w) -> not_a_file p (fs w) ->
    exists e w', place case_dir items wc w = (Raise e, w').
Proof.
  intros Hin Hap. induction items as [|[c0 p0] items IH]; [destruct Hin|].
  intros wc w Hd Hnf. rewrite place_cons.
  unfold bind at 1, print at 1. cbv beta iota. unfold bind at 1.
  match goal with
  | |- context [copy2 p0 (dest c0) ?w1] =>
      pose proof (@inside_lookup _ (copy2 p0 (dest c0)) p w1
                    (inside_copy_to_dest p0 c0) Hap Hd) as [D L];
      destruct (copy2 p0 (dest c0) w1) as [[[]|e] w2] eqn:Ec; [|eauto]
  end.
  cbn [snd fs] in D, L.
  destruct Hin as [E|Hin].
  - inversion E; subst c0 p0. exfalso. unfold copy2 in Ec. cbn [fs] in Ec.
    destruct (Fs.lookup p (fs w)) as [[d|es]|] eqn:El; try discriminate.
    apply (Hnf d). exact El.
  - unfold bind at 1.
    destruct (centre_ok c0 p0 wc w2) as (wc' & out & ->).
    apply IH; cbn [fs]; auto.
    unfold not_a_file. rewrite L. exact Hnf.
Qed.

Lemma copytree_ok w w' :
  Fs.lookup case_dir (fs w) = None -> is_dir (Fs.parent case_dir) (fs w) ->
  copytree base_dir case_dir w = (Ok tt, w') ->
  exists es,
    Fs.lookup base_dir (fs w) = Some (Fs.Dir es) /\
    Fs.put case_dir (Fs.Dir es) (fs w) = Some (fs w') /\
    stdin w' = stdin w /\ stdout w' = stdout w.
Proof.
  intros Ha Hpar. unfold copytree.
  destruct (Fs.lookup base_dir (fs w)) as [[d|es]|]; try discriminate.
  unfold Fs.exists_. rewrite Ha.
  destruct (_ && _); [discriminate|].
  rewrite (@makedirs_present _ _ Hpar). unfold update_fs. cbn [fs stdin stdout].
  destruct (Fs.put case_dir (Fs.Dir es) (fs w)) as [t|] eqn:Ep; [|discriminate].
  intros E. inversion E; subst w'. exists es. auto.
Qed.

Lemma rebuild_fails c p w :
  In (c, p) stl_files -> apart case_dir p ->
  Fs.lookup case_dir (fs w) = None -> is_dir (Fs.parent case_dir) (fs w) ->
  not_a_file p (fs w) ->
  fst (rebuild base_dir case_dir n_proc stl_files w) = Ok false.
Proof.
  intros Hin Hap Ha Hpar Hnf. unfold rebuild, try_.
  match goal with
  | |- context [match ?m w with _ => _ end] =>
      assert (F : forall a w1, m w <> (Ok a, w1));
      [|destruct (m w) as [[a|e] w1];
        [exfalso; apply (F a w1); reflexivity | reflexivity]]
  end.
  intros a wz. unfold bind at 1, print at 1. cbv beta iota. unfold bind at 1.
  match goal with
  | |- context [copytree base_dir case_dir ?w1] =>
      destruct (copytree base_dir case_dir w1) as [[[]|e] w2] eqn:Ec;
      [apply copytree_ok in Ec; [|exact Ha | exact Hpar] | discriminate]
  end.
  destruct Ec as (es & _ & Hput & _). cbn [fs] in Hput.
  assert (D2 : is_dir case_dir (fs w2))
    by (eexists; apply (@lookup_put_same _ _ _ _ Hput)).
  assert (L2 : Fs.lookup p (fs w2) = Fs.lookup p (fs w))
    by (apply (@lookup_put_apart _ _ _ _ _ Hput Hap)).
  unfold populate. unfold bind at 1.
  pose proof (@inside_lookup _ (mkdir_p (tri_surface_dir case_dir)) p w2
                (inside_mkdir case_dir_not_root _) Hap D2) as [D3 L3].
  destruct (mkdir_p (tri_surface_dir case_dir) w2) as [[[]|e] w3];
    [|discriminate].
  cbn [snd] in D3, L3. unfold bind at 1.
  destruct (@place_fails c p stl_files Hin Hap [] w3 D3) as (e & w4 & ->).
  - unfold not_a_file. rewrite L3, L2. exact Hnf.
  - discriminate.
Qed.

(** X11.  When the mapping names a source that is not a regular file (it is
    missing, or it is a directory), and the source does not lie at or under
    the destination, assembly answers [False]. *)
Theorem unreadable_source_fails_assembly (w : world) (c : str) (p : Fs.path) :
  is_dir (Fs.parent case_dir) (fs w) ->
  In (c, p) stl_files -> apart case_dir p ->
  (forall data, Fs.lookup p (fs w) <> Some (Fs.File data)) ->
  fst (setup_case base_dir case_dir n_proc stl_files w) = Ok false.
Proof.
  intros Hpar Hin Hap Hnf.
  destruct (Fs.lookup case_dir (fs w)) as [[d|es]|] eqn:Hl.
  - rewrite (@setup_case_file _ base_dir case_dir n_proc stl_files _ _ Hl).
    reflexivity.
  - destruct (@remove_present _ _ _ case_dir_not_root Hl) as [t Hr].
    rewrite (@setup_case_directory _ base_dir case_dir n_proc stl_files _ _ _ Hl Hr).
    apply (@rebuild_fails c p); cbn [fs]; auto.
    + apply (@lookup_remove _ _ _ Hr).
    + apply (@parent_after_remove _ _ _ Hr).
    + unfold not_a_file. rewrite (@lookup_remove_apart _ _ _ _ Hr Hap).
      exact Hnf.
  - rewrite (@setup_case_absent _ base_dir case_dir n_proc stl_files _ Hl).
    apply (@rebuild_fails c p); auto.
Qed.


(** *** What a successful assembly has placed *)

(** Computations that leave what is at [q] as it is. *)
Definition keeps_at {A} (q : Fs.path) (m : M A) : Prop :=
  forall w, Fs.lookup q (fs (snd (m w))) = Fs.lookup q (fs w).

Lemma keeps_at_keeps {A} q (m : M A) : keeps_fs m -> keeps_at q m.
Proof. intros H w. rewrite H. reflexivity. Qed.

Lemma keeps_at_bind {A B} q (m : M A) (k : A -> M B) :
  keeps_at q m -> (forall a, keeps_at q (k a)) -> keeps_at q (bind m k).
Proof.
  intros Hm Hk w. unfold bind. specialize (Hm w).
  destruct (m w) as [[a|e] w1]; cbn [snd] in *; [|exact Hm].
  rewrite Hk. exact Hm.
Qed.

Lemma keeps_at_write_text q target data :
  apart target q -> keeps_at q (write_text target data).
Proof.
  intros Hap w. unfold write_text, update_fs.
  destruct (Fs.lookup target (fs w)) as [[d|es]|]; try reflexivity;
    destruct (Fs.put target (Fs.File data) (fs w)) as [t|] eqn:Ep;
    cbn [snd fs]; try reflexivity;
    apply (@lookup_put_apart _ _ _ _ _ Ep Hap).
Qed.

Lemma keeps_at_copy2 q src dst :
  (forall r, apart (dst ++ r) q) -> keeps_at q (copy2 src dst).
Proof.
  intros Hap w. unfold copy2.
  destruct (Fs.lookup src (fs w)) as [[d|es]|]; try reflexivity.
  destruct (list_eq_dec _ _ _); [reflexivity|].
  destruct (Fs.lookup dst (fs w)) as [[d'|es']|];
    apply keeps_at_write_text; try apply Hap.
  all: rewrite <- (app_nil_r dst); apply Hap.
Qed.

Lemma dest_apart c c' r : c' <> c -> apart (dest c' ++ r) (dest c).
Proof.
  intros H. unfold dest. rewrite <- app_assoc. cbn [app].
  apply apart_below. intros E. apply app_inv_tail in E. congruence.
Qed.

Lemma keeps_at_centre q c p wc : keeps_at q (centre c p wc).
Proof.
  intros w. destruct (centre_ok c p wc w) as (wc' & out & ->). reflexivity.
Qed.

Lemma place_keeps_dest c items :
  ~ In c (map fst items) -> forall wc, keeps_at (dest c) (place case_dir items wc).
Proof.
  induction items as [|[c0 p0] items IH]; intros Hc wc.
  - apply keeps_at_keeps, keeps_fs_ret.
  - cbn [map fst In] in Hc. rewrite place_cons.
    apply keeps_at_bind; [apply keeps_at_keeps, keeps_fs_print | intros _].
    apply keeps_at_bind.
    { apply keeps_at_copy2. intros r. apply dest_apart. tauto. }
    intros _. apply keeps_at_bind; [apply keeps_at_centre | intros wc'].
    apply IH. tauto.
Qed.

Lemma place_sets c p items :
  In (c, p) items -> NoDup (map fst items) -> apart case_dir p ->
  forall wc w wc' w',
    is_dir case_dir (fs w) ->
    (forall es, Fs.lookup (dest c) (fs w) <> Some (Fs.Dir es)) ->
    place case_dir items wc w = (Ok wc', w') ->
    exists data,
      Fs.lookup p (fs w) = Some (Fs.File data) /\
      Fs.lookup (dest c) (fs w') = Some (Fs.File data).
Proof.
  intros Hin Hnd Hap. induction items as [|[c0 p0] items IH]; [destruct Hin|].
  intros wc w wc' w' Hd Hfree. rewrite place_cons.
  cbn [map fst] in Hnd. inversion Hnd as [|? ? Hc0 Hnd']; subst.
  unfold bind at 1, print at 1. cbv beta iota. unfold bind at 1.
  match goal with
  | |- context [copy2 p0 (dest c0) ?w1] =>
      pose proof (@inside_lookup _ (copy2 p0 (dest c0)) p w1
                    (inside_copy_to_dest p0 c0) Hap Hd) as [D L];
      pose proof (fun H => @keeps_at_copy2 (dest c) p0 (dest c0) H w1) as K;
      destruct (copy2 p0 (dest c0) w1) as [[[]|e] w2] eqn:Ec; [|discriminate]
  end.
  cbn [snd fs] in D, L, K. unfold bind at 1.
  destruct (centre_ok c0 p0 wc w2) as (wc1 & out & ->).
  destruct Hin as [E|Hin].
  - inversion E; subst c0 p0. clear K. intros Hrest.
    match type of Hrest with
    | place _ _ _ ?w3 = _ =>
        pose proof (@place_keeps_dest c items Hc0 wc1 w3) as Kp
    end.
    rewrite Hrest in Kp. cbn [snd fs] in Kp. rewrite Kp.
    unfold copy2 in Ec. cbn [fs] in Ec.
    destruct (Fs.lookup p (fs w)) as [[data|es]|] eqn:El; try discriminate.
    exists data. split; [reflexivity|].
    assert (Et : match Fs.lookup (dest c) (fs w) with
                 | Some (Fs.Dir _) => dest c ++ [Fs.basename p]
                 | _ => dest c
                 end = dest c).
    { destruct (Fs.lookup (dest c) (fs w)) as [[d|es]|] eqn:Ed; auto.
      exfalso. apply (Hfree es). reflexivity. }
    rewrite Et in Ec. destruct (list_eq_dec _ _ _); [discriminate|].
    unfold write_text, update_fs in Ec. cbn [fs stdin stdout] in Ec.
    destruct (Fs.lookup (dest c) (fs w)) as [[d|es]|] eqn:Ed;
      try (exfalso; apply (Hfree es); reflexivity);
      destruct (Fs.put (dest c) (Fs.File data) (fs w)) as [t|] eqn:Ep;
      try discriminate; inversion Ec; subst w2; cbn [fs];
      apply (@lookup_put_same _ _ _ _ Ep).
  - assert (Hne : c0 <> c).
    { intros ->. apply Hc0. apply (in_map fst) in Hin. exact Hin. }
    intros Hrest. apply IH in Hrest; auto.
    + cbn [fs] in Hrest. rewrite L in Hrest. exact Hrest.
    + cbn [fs]. rewrite K; [exact Hfree|].
      intros r. apply dest_apart. exact Hne.
Qed.

Lemma case_files_apart x r c :
  x <> text "constant" ->
  apart (case_dir ++ x :: r) (dest c).
Proof.
  intros Hx. rewrite dest_inside. apply apart_sym.
  change (case_dir ++ [text "constant"; text "triSurface"; c ++ text ".stl"])
    with (case_dir ++ [text "constant"]
          ++ [text "triSurface"; c ++ text ".stl"]).
  rewrite app_assoc. apply apart_app, apart_sym, apart_below. exact Hx.
Qed.

Lemma u_file_apart c : apart (u_file case_dir) (dest c).
Proof. apply case_files_apart. discriminate. Qed.

Lemma decompose_file_apart c : apart (decompose_file case_dir) (dest c).
Proof. apply case_files_apart. discriminate. Qed.

Lemma keeps_at_update_wheel_centers c wc :
  keeps_at (dest c) (_update_wheel_centers case_dir wc).
Proof.
  unfold _update_wheel_centers.
  apply keeps_at_bind; [apply keeps_at_keeps, keeps_fs_exists | intros present].
  destruct (negb present); [apply keeps_at_keeps, keeps_fs_print|].
  apply keeps_at_bind; [apply keeps_at_keeps, keeps_fs_read_text | intros content].
  apply keeps_at_bind; [apply keeps_at_keeps, keeps_fs_print | intros _].
  apply keeps_at_bind;
    [apply keeps_at_keeps, keeps_fs_for_wheel_centers | intros content'].
  apply keeps_at_bind; [|intros _; apply keeps_at_keeps, keeps_fs_print].
  apply keeps_at_write_text, u_file_apart.
Qed.

Lemma keeps_at_update_decompose c :
  keeps_at (dest c) (_update_decompose_par_dict case_dir n_proc).
Proof.
  unfold _update_decompose_par_dict.
  apply keeps_at_bind; [apply keeps_at_keeps, keeps_fs_exists | intros present].
  destruct present; [|apply keeps_at_keeps, keeps_fs_ret].
  apply keeps_at_bind; [apply keeps_at_keeps, keeps_fs_read_text | intros content].
  apply keeps_at_bind; [|intros _; apply keeps_at_keeps, keeps_fs_print].
  apply keeps_at_write_text, decompose_file_apart.
Qed.


(** What assembly does after the placement loop. *)
Definition finish (wheel_centers : list (str * Num.vec)) : M bool :=
  (match wheel_centers with
   | [] => ret tt
   | _ => _update_wheel_centers case_dir wheel_centers
   end) ;;
  _update_decompose_par_dict case_dir n_proc ;;
  print (text "✓ Case setup completed successfully!") ;;
  ret true.

Lemma keeps_at_finish c wc : keeps_at (dest c) (finish wc).
Proof.
  unfold finish. apply keeps_at_bind.
  { destruct wc; [apply keeps_at_keeps, keeps_fs_ret
                 | apply keeps_at_update_wheel_centers]. }
  intros _. apply keeps_at_bind; [apply keeps_at_update_decompose | intros _].
  apply keeps_at_bind; [apply keeps_at_keeps, keeps_fs_print | intros _].
  apply keeps_at_keeps, keeps_fs_ret.
Qed.

Lemma populate_eq :
  populate case_dir n_proc stl_files
  = (mkdir_p (tri_surface_dir case_dir) ;;
     wheel_centers <- place case_dir stl_files [] ;;
     finish wheel_centers).
Proof. reflexivity. Qed.

Definition in_base (c : str) : Fs.path :=
  base_dir ++ [text "constant"; text "triSurface"; c ++ text ".stl"].

Lemma rebuild_places c p w :
  In (c, p) stl_files -> NoDup (map fst stl_files) -> apart case_dir p ->
  Fs.lookup case_dir (fs w) = None -> is_dir (Fs.parent case_dir) (fs w) ->
  (forall es, Fs.lookup (in_base c) (fs w) <> Some (Fs.Dir es)) ->
  fst (rebuild base_dir case_dir n_proc stl_files w) = Ok true ->
  exists data,
    Fs.lookup p (fs w) = Some (Fs.File data) /\
    Fs.lookup (dest c) (fs (snd (rebuild base_dir case_dir n_proc stl_files w)))
    = Some (Fs.File data).
Proof.
  intros Hin Hnd Hap Ha Hpar Hfree. unfold rebuild, try_.
  match goal with
  | |- context [match ?m w with _ => _ end] =>
      destruct (m w) as [[a|e] w'] eqn:E; [|discriminate]
  end.
  cbn [fst snd]. intros Ht. inversion Ht; subst a. clear Ht.
  unfold bind at 1, print at 1 in E. cbv beta iota in E.
  unfold bind at 1 in E.
  match type of E with
  | context [copytree base_dir case_dir ?w1] =>
      destruct (copytree base_dir case_dir w1) as [[[]|e] w2] eqn:Ec;
      [apply copytree_ok in Ec; [|exact Ha | exact Hpar] | discriminate]
  end.
  destruct Ec as (es & Hbase & Hput & _). cbn [fs] in Hbase, Hput.
  assert (D2 : is_dir case_dir (fs w2))
    by (eexists; apply (@lookup_put_same _ _ _ _ Hput)).
  assert (L2 : Fs.lookup p (fs w2) = Fs.lookup p (fs w))
    by (apply (@lookup_put_apart _ _ _ _ _ Hput Hap)).
  assert (F2 : forall es', Fs.lookup (dest c) (fs w2) <> Some (Fs.Dir es')).
  { intros es'. rewrite dest_inside, lookup_app.
    rewrite (@lookup_put_same _ _ _ _ Hput).
    specialize (Hfree es'). unfold in_base in Hfree.
    rewrite lookup_app, Hbase in Hfree. exact Hfree. }
  rewrite populate_eq in E. unfold bind at 1 in E.
  pose proof (@inside_lookup _ (mkdir_p (tri_surface_dir case_dir)) p w2
                (inside_mkdir case_dir_not_root _) Hap D2) as [D3 L3].
  destruct (mkdir_p (tri_surface_dir case_dir) w2) as [[[]|e] w3] eqn:Em;
    [|discriminate].
  cbn [snd] in D3, L3.
  assert (F3 : forall es', Fs.lookup (dest c) (fs w3) <> Some (Fs.Dir es')).
  { unfold mkdir_p, update_fs in Em.
    destruct (Fs.makedirs (tri_surface_dir case_dir) (fs w2)) as [t|] eqn:Emk;
      [|discriminate].
    inversion Em; subst w3. cbn [fs]. unfold dest.
    rewrite (@lookup_makedirs_below _ _ _ [c ++ text ".stl"] Emk)
      by discriminate.
    exact F2. }
  unfold bind at 1 in E.
  destruct (place case_dir stl_files [] w3) as [[wc|e] w4] eqn:Ep;
    [|discriminate].
  destruct (@place_sets c p stl_files Hin Hnd Hap [] w3 wc w4 D3 F3 Ep)
    as (data & Hsrc & Hdst).
  exists data. split; [rewrite <- L2, <- L3; exact Hsrc|].
  pose proof (keeps_at_finish c wc w4) as K. rewrite E in K. cbn [snd] in K.
  rewrite K. exact Hdst.
Qed.

(** X12.  When assembly answers [True], every component of the mapping has the
    bytes of its source under its own name in the destination's
    [constant/triSurface]: this for sources outside the destination,
    components that are distinct, a base case apart from the destination,
    and a base case that has no directory where the component's file
    goes. *)
Theorem placed_files_hold_source_bytes (w : world) (c : str) (p : Fs.path) :
  is_dir (Fs.parent case_dir) (fs w) ->
  apart case_dir base_dir -> apart case_dir p ->
  NoDup (map fst stl_files) -> In (c, p) stl_files ->
  (forall es, Fs.lookup (in_base c) (fs w) <> Some (Fs.Dir es)) ->
  let r := setup_case base_dir case_dir n_proc stl_files w in
  fst r = Ok true ->
  exists data,
    Fs.lookup p (fs w) = Some (Fs.File data) /\
    Fs.lookup (tri_surface_dir case_dir ++ [c ++ text ".stl"]) (fs (snd r))
    = Some (Fs.File data).
Proof.
  intros Hpar Hbase Hap Hnd Hin Hfree. cbv zeta. fold (dest c).
  destruct (Fs.lookup case_dir (fs w)) as [[d|es]|] eqn:Hl.
  - rewrite (@setup_case_file _ base_dir case_dir n_proc stl_files _ _ Hl).
    discriminate.
  - destruct (@remove_present _ _ _ case_dir_not_root Hl) as [t Hr].
    rewrite (@setup_case_directory _ base_dir case_dir n_proc stl_files _ _ _ Hl Hr).
    intros Hok.
    rewrite <- (@lookup_remove_apart _ _ _ _ Hr Hap).
    apply (@rebuild_places c p (mk_world t _ _)); cbn [fs]; auto.
    + apply (@lookup_remove _ _ _ Hr).
    + apply (@parent_after_remove _ _ _ Hr).
    + intros es'. rewrite (@lookup_remove_apart _ _ _ _ Hr); [apply Hfree|].
      unfold in_base. apply apart_sym, apart_app, apart_sym, Hbase.
  - rewrite (@setup_case_absent _ base_dir case_dir n_proc stl_files _ Hl).
    apply rebuild_places; auto.
Qed.


End WithGeometry.

(** The sample mapping: one mesh file per component. *)
Definition sample_files : list (str * Fs.path) :=
  [(text "FL", Samples.stl_dir ++ [text "car_FL.stl"]);
   (text "FR", Samples.stl_dir ++ [text "car_FR.stl"]);
   (text "RL", Samples.stl_dir ++ [text "car_RL.stl"]);
   (text "RR", Samples.stl_dir ++ [text "car_RR.stl"]);
   (text "mainBody", Samples.stl_dir ++ [text "car_mainBody.stl"])].


(** Assembly on the sample disk leaves the mesh of [FL] where it was. *)
Lemma assembly_touches_only_destination_witness :
  let w := Samples.start Samples.stl_folder in
  let p := Samples.stl_dir ++ [text "car_FL.stl"] in
  is_dir (Fs.parent Samples.case_dir) (fs w) /\
  apart Samples.case_dir p /\
  Fs.lookup p (fs (snd (setup_case (G:=Samples.sample_geometry)
                          Samples.base_dir Samples.case_dir 6 sample_files w)))
  = Some (Fs.File (text "front left")).
Proof.
  cbv zeta.
  assert (H1 : is_dir (Fs.parent Samples.case_dir)
                 (fs (Samples.start Samples.stl_folder)))
    by (eexists; reflexivity).
  assert (H2 : apart Samples.case_dir (Samples.stl_dir ++ [text "car_FL.stl"]))
    by (split; reflexivity).
  split; [exact H1|]. split; [exact H2|].
  rewrite (@assembly_touches_only_destination Samples.sample_geometry
             Samples.base_dir Samples.case_dir 6 sample_files
             ltac:(discriminate) _ _ H1 H2).
  reflexivity.
Defined.

(** A mapping that names a mesh file which is not there. *)
Lemma unreadable_source_fails_assembly_witness :
  let w := Samples.start Samples.stl_folder in
  let p := Samples.stl_dir ++ [text "wheel.stl"] in
  is_dir (Fs.parent Samples.case_dir) (fs w) /\
  apart Samples.case_dir p /\
  Fs.lookup p (fs w) = None /\
  fst (setup_case (G:=Samples.sample_geometry) Samples.base_dir
         Samples.case_dir 6 [(text "FL", p)] w) = Ok false.
Proof.
  cbv zeta.
  assert (H1 : is_dir (Fs.parent Samples.case_dir)
                 (fs (Samples.start Samples.stl_folder)))
    by (eexists; reflexivity).
  assert (H2 : apart Samples.case_dir (Samples.stl_dir ++ [text "wheel.stl"]))
    by (split; reflexivity).
  assert (H3 : Fs.lookup (Samples.stl_dir ++ [text "wheel.stl"])
                 (fs (Samples.start Samples.stl_folder)) = None)
    by reflexivity.
  split; [exact H1|]. split; [exact H2|]. split; [exact H3|].
  apply (@unreadable_source_fails_assembly Samples.sample_geometry
           Samples.base_dir Samples.case_dir 6
           [(text "FL", Samples.stl_dir ++ [text "wheel.stl"])]
           ltac:(discriminate) _ (text "FL")
           (Samples.stl_dir ++ [text "wheel.stl"]) H1
           (or_introl eq_refl) H2).
  intros data. rewrite H3. discriminate.
Defined.

(** Assembly on the sample disk puts the mesh of [RL] in place. *)
Lemma placed_files_hold_source_bytes_witness :
  let w := Samples.start Samples.stl_folder in
  let r := setup_case (G:=Samples.sample_geometry) Samples.base_dir
             Samples.case_dir 6 sample_files w in
  fst r = Ok true /\
  Fs.lookup (tri_surface_dir Samples.case_dir ++ [text "RL.stl"]) (fs (snd r))
  = Some (Fs.File (text "rear left")).
Proof.
  cbv zeta.
  assert (H0 : fst (setup_case (G:=Samples.sample_geometry) Samples.base_dir
                      Samples.case_dir 6 sample_files
                      (Samples.start Samples.stl_folder)) = Ok true)
    by (vm_compute; reflexivity).
  split; [exact H0|].
  destruct (@placed_files_hold_source_bytes Samples.sample_geometry
              Samples.base_dir Samples.case_dir 6 sample_files
              ltac:(discriminate) (Samples.start Samples.stl_folder)
              (text "RL") (Samples.stl_dir ++ [text "car_RL.stl"]))
    as (data & Hsrc & Hdst).
  - eexists; reflexivity.
  - split; reflexivity.
  - split; reflexivity.
  - unfold sample_files. cbn [map fst].
    repeat (constructor; [simpl; intuition discriminate|]). constructor.
  - simpl. tauto.
  - intros es. vm_compute. discriminate.
  - exact H0.
  - transitivity (Some (Fs.File data)); [exact Hdst|].
    rewrite <- Hsrc. reflexivity.
Defined.

End SetupMore.

(** ** Result extraction on tables of other shapes *)

Module ResultsMore.
Import Io Results IoFacts ResultsFacts.
Local Open Scope io_scope.

Section WithNumbers.
Context {N : Numbers}.
Variable case_dir : Fs.path.






(** X14.  When every row of the table holds a single number and there are at
    least seven rows, the array is one-dimensional and the sample is read
    down the column: time, drag, lift and moment are the numbers of rows 0,
    1, 4 and 6 of the file, not numbers of its last row. *)
Theorem single_column_is_read_down_the_column (w : world) (data : str)
    (rows : list (list Num.float)) :
  Fs.lookup (coefficient_file case_dir) (fs w) = Some (Fs.File data) ->
  table (Text.universal_newlines data) = Ok rows ->
  Forall (fun row => length row = 1) rows -> 7 <= length rows ->
  fst (extract_latest_cd case_dir w)
  = Ok (Some (sample_of (flat_map (fun row => row) rows))).
Proof.
  intros Hl Ht Hone Hlen. rewrite (extract_present case_dir w Hl), Ht.
  cbv zeta.
  assert (Hsq : squeeze rows = Vector (flat_map (fun row => row) rows)).
  { destruct rows as [|r1 [|r2 rows']]; simpl in Hlen; try lia.
    cbn [squeeze].
    replace (forallb (fun row => Nat.eqb (length row) 1) (r1 :: r2 :: rows'))
      with true; [reflexivity|].
    symmetry. apply forallb_forall. intros r Hr.
    rewrite Forall_forall in Hone. apply Nat.eqb_eq. auto. }
  assert (Hcol : length (flat_map (fun row => row) rows) = length rows).
  { clear Hlen Hsq Ht. induction Hone as [|r rows' Hr _ IH]; [reflexivity|].
    cbn [flat_map]. rewrite length_app, IH, Hr. reflexivity. }
  rewrite Hsq. unfold try_, len, latest. cbv beta delta [bind ret]. cbv beta iota.
  destruct (Nat.eqb_spec (length (flat_map (fun row => row) rows)) 0);
    [lia|].
  unfold item. rewrite !nth_error_nth_of by lia. reflexivity.
Qed.

End WithNumbers.


Lemma single_column_is_read_down_the_column_witness :
  let w := mk_world (MoreSamples.results_disk MoreSamples.column_table) [] [] in
  fst (extract_latest_cd (N:=MoreSamples.whole_numbers) Samples.case_dir w)
  = Ok (Some (mk_sample (MoreSamples.float_of_Z 10) (MoreSamples.float_of_Z 11)
                (MoreSamples.float_of_Z 14) (MoreSamples.float_of_Z 16))).
Proof.
  cbv zeta.
  apply (@single_column_is_read_down_the_column MoreSamples.whole_numbers
           Samples.case_dir
           (mk_world (MoreSamples.results_disk MoreSamples.column_table) [] [])
           MoreSamples.column_table
           (map (fun z => [MoreSamples.float_of_Z z])
              [10; 11; 12; 13; 14; 15; 16; 17]%Z)).
  - vm_compute. reflexivity.
  - vm_compute. reflexivity.
  - cbn [map]. repeat constructor.
  - cbn [map length]. lia.
Defined.

End ResultsMore.

(** ** Folder selection on the command line *)

Module SelectorFacts.
Import Io Resolver Selector TextFacts IoFacts ResolverFacts ResolverMore.
Local Open Scope io_scope.

(** The resolver reads input and never puts any back. *)
Lemma choose_stdin pending component count out :
  length (snd (fst (choose pending component count out))) <= length pending.
Proof.
  revert out. induction pending as [|line rest IH]; intros out;
    cbn [choose]; [reflexivity|].
  destruct (int_of (strip line)) as [n|].
  - destruct ((0 <=? n - 1)%Z && (n - 1 <? Z.of_nat count)%Z).
    + cbn [fst snd length]. lia.
    + specialize (IH (out ++ [text "Select file for " ++ component
                               ++ text " (1-" ++ Text.of_Z (Z.of_nat count)
                               ++ text "): ";
                              text "Invalid choice. Please try again."])).
      cbn [length]. lia.
  - specialize (IH (out ++ [text "Select file for " ++ component
                             ++ text " (1-" ++ Text.of_Z (Z.of_nat count)
                             ++ text "): ";
                            text "Please enter a valid number."])).
    cbn [length]. lia.
Qed.

(** Computations that read input but never add to it, and raise nothing
    but [EOFError], and this only when the input has run out. *)
Definition reads {A} (m : M A) : Prop :=
  forall w,
    length (stdin (snd (m w))) <= length (stdin w) /\
    (forall e, fst (m w) = Raise e -> e = EOFError /\ stdin (snd (m w)) = []).

Lemma reads_ret {A} (a : A) : reads (ret a).
Proof. intros w. split; [reflexivity | discriminate]. Qed.

Lemma reads_print line : reads (print line).
Proof. intros w. split; [reflexivity | discriminate]. Qed.

Lemma reads_bind {A B} (m : M A) (k : A -> M B) :
  reads m -> (forall a, reads (k a)) -> reads (bind m k).
Proof.
  intros Hm Hk w. unfold bind. destruct (Hm w) as [L E].
  destruct (m w) as [[a|e] w1]; cbn [fst snd] in *.
  - destruct (Hk a w1) as [L' E']. split; [lia | exact E'].
  - split; [exact L|]. intros e0 H0. inversion H0; subst e0.
    apply E. reflexivity.
Qed.

Lemma reads_for_each {A} (l : list A) (body : A -> M unit) :
  (forall x, reads (body x)) -> reads (for_each l body).
Proof.
  intros H. induction l; cbn [for_each];
    [apply reads_ret | apply reads_bind; auto].
Qed.

Lemma reads_select component count : reads (select_index component count).
Proof.
  intros w. unfold select_index.
  pose proof (choose_stdin (stdin w) component count (stdout w)) as L.
  pose proof (choose_spec (stdin w) component count (stdout w)) as S.
  destruct (choose _ _ _ _) as [[r rest] out]. cbn [fst snd stdin] in *.
  split; [exact L|]. intros e E. subst r. destruct S. auto.
Qed.

Lemma reads_print_numbered i files : reads (print_numbered i files).
Proof.
  revert i. induction files; intros i; cbn [print_numbered].
  - apply reads_ret.
  - apply reads_bind; [apply reads_print | auto].
Qed.

Lemma reads_for_components folder stl_files components found :
  reads (for_components folder stl_files components found).
Proof.
  revert found. induction components as [|c cs IH]; intros found;
    cbn [for_components].
  - apply reads_ret.
  - destruct (matching_files c stl_files) as [|f1 [|f2 fs']].
    + apply reads_bind; [apply reads_print | intros; apply reads_ret].
    + apply reads_bind; [apply reads_print | intros; apply IH].
    + repeat (apply reads_bind; intros);
        auto using reads_print, reads_print_numbered, reads_select.
Qed.

Lemma reads_find folder : reads (_find_stl_files_in_folder folder).
Proof.
  unfold _find_stl_files_in_folder.
  apply reads_bind.
  { intros w. split; [reflexivity | discriminate]. }
  intros t. apply reads_bind; [apply reads_print | intros _].
  apply reads_bind;
    [apply reads_for_each; intros; apply reads_print | intros _].
  apply reads_bind; [apply reads_for_components | intros [f|]];
    apply reads_ret.
Qed.

Section WithPaths.
Context {Ps : Paths}.

Definition ask : str :=
  Text.nl :: text "Enter path to folder containing STL files: ".

(** One round of the loop after its line has been read, with [next] for
    the rounds that follow. *)
Definition after_line (next : M (list (str * Fs.path))) (line : str)
    : M (list (str * Fs.path)) :=
  let folder_path := strip line in
  match folder_path with
  | [] =>
      print (text "Path cannot be empty. Please try again.") ;;
      next
  | _ =>
      present <- exists_ (path_of folder_path) ;;
      if negb present then
        print (text "Folder does not exist: " ++ folder_path
               ++ text ". Please try again.") ;;
        next
      else
        is_directory <- isdir (path_of folder_path) ;;
        if negb is_directory then
          print (text "Path is not a directory: " ++ folder_path
                 ++ text ". Please try again.") ;;
          next
        else
          print (text "Selected folder: " ++ folder_path) ;;
          selected_files <-
            _find_stl_files_in_folder (path_of folder_path) ;;
          match selected_files with
          | [] =>
              print (text "Could not find all required STL files in the selected folder.") ;;
              next
          | _ => ret selected_files
          end
  end.

Lemma cli_rounds_S fuel :
  cli_rounds (S fuel) = (line <- input ask ;; after_line (cli_rounds fuel) line).
Proof. reflexivity. Qed.

(** How a round ends: it goes on to the next round, with the files as they
    were and no more input than before, or it returns a full mapping, or
    the input has run out. *)
Lemma after_line_cases line w :
  (exists w', fs w' = fs w /\ length (stdin w') <= length (stdin w) /\
              forall next, after_line next line w = next w') \/
  (exists found w', fs w' = fs w /\ map fst found = stl_components /\
                    forall next, after_line next line w = (Ok found, w')) \/
  (exists w', fs w' = fs w /\ stdin w' = [] /\
              forall next, after_line next line w = (Raise EOFError, w')).
Proof.
  destruct (strip line) as [|c s] eqn:Es.
  { left. eexists. split; [|split]; [| |intros next; unfold after_line;
      cbv zeta; rewrite Es; unfold bind, print; reflexivity];
      cbn [fs stdin]; reflexivity. }
  destruct (Fs.exists_ (path_of (c :: s)) (fs w)) eqn:Ep.
  2:{ left. eexists. split; [|split]; [| |intros next; unfold after_line;
        cbv zeta; rewrite Es; unfold bind at 1, exists_; rewrite Ep; cbn [negb];
        unfold bind, print; reflexivity];
        cbn [fs stdin]; reflexivity. }
  destruct (match Fs.lookup (path_of (c :: s)) (fs w) with
            | Some (Fs.Dir _) => true
            | _ => false
            end) eqn:Ed.
  2:{ left. eexists. split; [|split]; [| |intros next; unfold after_line;
        cbv zeta; rewrite Es; unfold bind at 1, exists_; rewrite Ep; cbn [negb];
        unfold bind at 1, isdir; rewrite Ed; cbn [negb];
        unfold bind, print; reflexivity];
        cbn [fs stdin]; reflexivity. }
  set (w1 := mk_world (fs w) (stdin w)
               (stdout w ++ [text "Selected folder: " ++ c :: s])).
  assert (Hstep : forall next,
             after_line next line w
             = (selected_files <-
                  _find_stl_files_in_folder (path_of (c :: s)) ;;
                match selected_files with
                | [] =>
                    print (text "Could not find all required STL files in the selected folder.") ;;
                    next
                | _ => ret selected_files
                end) w1).
  { intros next. unfold after_line. cbv zeta. rewrite Es.
    unfold bind at 1, exists_. rewrite Ep. cbn [negb].
    unfold bind at 1, isdir. rewrite Ed. cbn [negb]. reflexivity. }
  destruct (reads_find (path_of (c :: s)) w1) as [L E].
  pose proof (keeps_fs_find (path_of (c :: s)) w1) as K.
  pose proof (@find_bound (path_of (c :: s)) w1) as B.
  destruct (_find_stl_files_in_folder (path_of (c :: s)) w1)
    as [[[|e1 found]|e] w2] eqn:Ef; cbn [fst snd stdin fs] in L, E, K, B.
  - left. eexists. split; [|split];
      [| |intros next; rewrite Hstep; unfold bind at 1; rewrite Ef;
          unfold bind, print; reflexivity]; cbn [fs stdin]; assumption.
  - right. left. exists (e1 :: found), w2. split; [exact K|]. split.
    + apply (B _ eq_refl). discriminate.
    + intros next. rewrite Hstep. unfold bind at 1. rewrite Ef. reflexivity.
  - right. right. destruct (E e eq_refl) as [-> E0].
    exists w2. split; [exact K|]. split; [exact E0|].
    intros next. rewrite Hstep. unfold bind at 1. rewrite Ef. reflexivity.
Qed.

(** One more round than there are lines of input is enough: further
    rounds change nothing. *)
Lemma cli_rounds_enough fuel1 :
  forall fuel2 w,
    length (stdin w) < fuel1 -> length (stdin w) < fuel2 ->
    cli_rounds fuel1 w = cli_rounds fuel2 w.
Proof.
  induction fuel1 as [|f1 IH]; intros [|f2] w H1 H2; try lia.
  rewrite !cli_rounds_S. unfold bind, input.
  destruct (stdin w) as [|line rest] eqn:Ein; [reflexivity|].
  cbn [length] in H1, H2.
  match goal with
  | |- after_line _ line ?w1 = _ =>
      destruct (after_line_cases line w1)
        as [(w' & F & L & E)|[(found & w' & F & K & E)|(w' & F & L & E)]]
  end; rewrite !E; try reflexivity.
  cbn [stdin] in L. apply IH; lia.
Qed.

Lemma cli_rounds_ends fuel :
  forall w, length (stdin w) < fuel ->
    fs (snd (cli_rounds fuel w)) = fs w /\
    ((exists found,
         fst (cli_rounds fuel w) = Ok found /\ map fst found = stl_components) \/
     (fst (cli_rounds fuel w) = Raise EOFError /\
      stdin (snd (cli_rounds fuel w)) = [])).
Proof.
  induction fuel as [|f IH]; intros w H; [lia|].
  rewrite cli_rounds_S. unfold bind, input.
  destruct (stdin w) as [|line rest] eqn:Ein.
  { cbn [fst snd fs stdin]. auto. }
  cbn [length] in H.
  match goal with
  | |- context [after_line _ line ?w1] =>
      destruct (after_line_cases line w1)
        as [(w' & F & L & E)|[(found & w' & F & K & E)|(w' & F & L & E)]]
  end; rewrite !E; cbn [fs stdin] in *.
  - destruct (IH w' ltac:(lia)) as [F' R]. rewrite F', F. auto.
  - cbn [fst snd]. split; [exact F|]. left. eauto.
  - cbn [fst snd]. split; [exact F|]. right. auto.
Qed.

(** X15.  The selection on the command line always ends, on any input: it
    returns a mapping with the five canonical components as its keys, or
    it raises [EOFError] when the input has run out; it raises nothing else
    and changes no file.  Running the loop for more rounds than
    [select_files_cli] allows for gives the same result. *)
Theorem cli_selection_ends (w : world) :
  let r := select_files_cli w in
  fs (snd r) = fs w /\
  ((exists found, fst r = Ok found /\ map fst found = stl_components) \/
   (fst r = Raise EOFError /\ stdin (snd r) = [])) /\
  (forall fuel, length (stdin w) < fuel -> cli_rounds fuel w = r).
Proof.
  cbv zeta. unfold select_files_cli.
  destruct (cli_rounds_ends (fuel := S (length (stdin w))) w (Nat.lt_succ_diag_r _))
    as [F R].
  split; [exact F|]. split; [exact R|].
  intros fuel Hf. apply cli_rounds_enough; [exact Hf | apply Nat.lt_succ_diag_r].
Qed.


End WithPaths.


End SelectorFacts.

(** ** The program *)

Module MainFacts.
Import Io Main TextFacts FsFacts IoFacts ResolverFacts ResolverMore.

Section WithEnvironment.
Context {P : Platform} {G : Geometry} {N : Numbers}.
Context {Ps : Paths} {D : Dialog} {T : Tools}.
Local Open Scope proc_scope.

(** The machine after some lines have been printed. *)
Definition says (lines : list str) (m : machine) : machine :=
  mk_machine
    (mk_world (fs (io m)) (stdin (io m)) (stdout (io m) ++ lines))
    (host m) (calls m).

Lemma says_says l1 l2 m : says l2 (says l1 m) = says (l1 ++ l2) m.
Proof.
  unfold says. cbn [io fs stdin stdout host calls]. rewrite <- app_assoc.
  reflexivity.
Qed.

Lemma bind_print {A} line (k : Proc A) m :
  (print line ;; k) m = k (says [line] m).
Proof. reflexivity. Qed.

Lemma bind_exit {A B} code (k : A -> Proc B) m :
  (x <- exit code ;; k x) m = (Exited code, m).
Proof. reflexivity. Qed.

Lemma bind_lift {A B} (c : M A) (k : A -> Proc B) m :
  (x <- lift c ;; k x) m
  = match c (io m) with
    | (Ok a, w) => k a (mk_machine w (host m) (calls m))
    | (Raise e, w) => (Raised e, mk_machine w (host m) (calls m))
    end.
Proof. unfold bind, lift. destruct (c (io m)) as [[a|e] w]; reflexivity. Qed.

Lemma bind_assoc {A B C} (c : Proc A) (k : A -> Proc B)
    (k' : B -> Proc C) m :
  (y <- (x <- c ;; k x) ;; k' y) m = (x <- c ;; y <- k x ;; k' y) m.
Proof. unfold bind. destruct (c m) as [[a|e|code] m1]; reflexivity. Qed.

Definition greeting : list str :=
  [Text.times "=" 60; text "OpenFOAM Manual Simulation Runner";
   Text.times "=" 60].

(** X17.  When the base directory does not exist, the program prints its banner
    and the error and leaves with status 1: no input is read, no file is
    touched and no process is started. *)
Theorem missing_base_stops_main (a : args) (m : machine) :
  Fs.lookup (path_of (base_dir a)) (fs (io m)) = None ->
  main a m
  = (Exited 1,
     says (greeting ++ [text "Error: Base directory does not exist: "
                      ++ base_dir a]) m).
Proof.
  intros Hb. unfold main. rewrite !bind_print, !says_says.
  rewrite bind_lift. unfold exists_, Fs.exists_. cbn [io says fs].
  rewrite Hb. cbn [negb]. rewrite bind_assoc, bind_print, bind_exit.
  unfold says, greeting. cbn [io fs stdin stdout host calls].
  repeat rewrite <- app_assoc. reflexivity.
Qed.

(** *** The parts of [main] *)

Definition header : list str :=
  greeting ++ [Text.nl :: text "1. STL Folder Selection"; Text.times "-" 30].

(** The selection when [--stl-dir] is given. *)
Definition provided (given : str) : Proc (list (str * Fs.path)) :=
  present <- lift (exists_ (path_of given)) ;;
  (if negb present then
     print (text "Error: STL directory does not exist: " ++ given) ;;
     exit 1
   else ret tt) ;;
  is_directory <- lift (Selector.isdir (path_of given)) ;;
  (if negb is_directory then
     print (text "Error: STL path is not a directory: " ++ given) ;;
     exit 1
   else ret tt) ;;
  print (text "Using provided STL directory: " ++ given) ;;
  stl_files <- lift (Resolver._find_stl_files_in_folder (path_of given)) ;;
  match stl_files with
  | [] =>
      print (could_not_find (text "provided directory")) ;;
      exit 1
  | _ => ret stl_files
  end.

Definition selection (a : args) : Proc (list (str * Fs.path)) :=
  match stl_dir a with
  | Some (c :: d) => provided (c :: d)
  | _ => if cli_mode a then lift Selector.select_files_cli
         else select_files_gui
  end.

Definition selection_failed (e : exn) : Proc (list (str * Fs.path)) :=
  print (text "Error during file selection: " ++ CaseSetup.describe e) ;;
  exit 1.

Definition confirm (a : args) : Proc unit :=
  if negb (auto_run a) then
    print (Text.nl :: text "Simulation settings:") ;;
    print (text "  Base directory: " ++ base_dir a) ;;
    print (text "  Case directory: " ++ case_dir a) ;;
    print (text "  Processors: " ++ Text.of_Z (n_proc a)) ;;
    line <- lift (input (Text.nl :: text "Proceed with simulation? (y/N): ")) ;;
    let confirm := Text.lower (Resolver.strip line) in
    if negb (Text.eqb confirm (text "y") || Text.eqb confirm (text "yes"))
    then
      print (text "Simulation cancelled.") ;;
      exit 0
    else ret tt
  else ret tt.

Definition results_file (a : args) : Fs.path :=
  path_of (case_dir a) ++ [text "simulation_results.txt"].

Definition footer (a : args) : list str :=
  [Text.nl :: Text.times "=" 60; text "Simulation completed!";
   text "Case directory: " ++ case_dir a; Text.times "=" 60].

(** What [main] does once the simulation has run. *)
Definition report (a : args) : Proc unit :=
  print (Text.nl :: text "4. Extracting Results") ;;
  print (Text.times "-" 30) ;;
  results <- lift (Results.extract_latest_cd (path_of (case_dir a))) ;;
  (match results with
   | Some r =>
       lift (write_text (results_file a) (results_text r)) ;;
       print (text "Results saved to: " ++ CaseSetup.show_path (results_file a))
   | None =>
       print (text "Warning: Could not extract results from simulation.")
   end) ;;
  print (Text.nl :: Text.times "=" 60) ;;
  print (text "Simulation completed!") ;;
  print (text "Case directory: " ++ case_dir a) ;;
  print (Text.times "=" 60).

(** What [main] does once the simulation is confirmed. *)
Definition work (a : args) (stl_files : list (str * Fs.path)) : Proc unit :=
  print (Text.nl :: text "2. Case Setup") ;;
  print (Text.times "-" 30) ;;
  ok <- lift (CaseSetup.setup_case (path_of (base_dir a))
                (path_of (case_dir a)) (n_proc a) stl_files) ;;
  (if negb ok then
     print (text "Case setup failed. Exiting...") ;;
     exit 1
   else ret tt) ;;
  print (Text.nl :: text "3. Running Simulation") ;;
  print (Text.times "-" 30) ;;
  ok <- run (Runner.run_full_simulation
               (CaseSetup.show_path (path_of (case_dir a))) (n_proc a)) ;;
  (if negb ok then
     print (text "Simulation failed. Exiting...") ;;
     exit 1
   else ret tt) ;;
  report a.

Definition listing (stl_files : list (str * Fs.path)) : list str :=
  (Text.nl :: text "Selected STL files:")
  :: map (fun e => text "  " ++ fst e ++ text ": "
                   ++ CaseSetup.show_path (snd e)) stl_files.

Lemma main_start (a : args) (m : machine) :
  Fs.exists_ (path_of (base_dir a)) (fs (io m)) = true ->
  main a m
  = (stl_files <- except (selection a) selection_failed ;;
     print (Text.nl :: text "Selected STL files:") ;;
     lift (for_each stl_files
             (fun e => Io.print (text "  " ++ fst e ++ text ": "
                                 ++ CaseSetup.show_path (snd e)))) ;;
     confirm a ;;
     work a stl_files) (says header m).
Proof.
  intros Hb. unfold main. rewrite !bind_print, !says_says.
  rewrite bind_lift. unfold exists_. cbn [io says fs].
  rewrite Hb. cbn [negb]. unfold bind at 1. unfold ret at 1.
  rewrite !bind_print.
  unfold says, header, greeting. cbn [io fs stdin stdout host calls].
  repeat rewrite <- app_assoc. reflexivity.
Qed.

Lemma for_each_lines {A} (l : list A) (line : A -> str) w :
  for_each l (fun x => Io.print (line x)) w
  = (Ok tt, mk_world (fs w) (stdin w) (stdout w ++ map line l)).
Proof.
  revert w. induction l as [|x l IH]; intros w; cbn [for_each map].
  - rewrite app_nil_r. destruct w; reflexivity.
  - unfold Io.bind, Io.print. rewrite IH. cbn [fs stdin stdout].
    rewrite <- app_assoc. reflexivity.
Qed.

Lemma listed_files {A} (stl_files : list (str * Fs.path)) (k : Proc A) m :
  (print (Text.nl :: text "Selected STL files:") ;;
   lift (for_each stl_files
           (fun e => Io.print (text "  " ++ fst e ++ text ": "
                               ++ CaseSetup.show_path (snd e)))) ;;
   k) m
  = k (says (listing stl_files) m).
Proof.
  rewrite bind_print, bind_lift.
  rewrite (for_each_lines stl_files
             (fun e => text "  " ++ fst e ++ text ": "
                       ++ CaseSetup.show_path (snd e))).
  unfold says, listing. cbn [io fs stdin stdout host calls].
  rewrite <- app_assoc. reflexivity.
Qed.

Lemma bind_ret {A B} (x : A) (k : A -> Proc B) m :
  (y <- ret x ;; k y) m = k x m.
Proof. reflexivity. Qed.

Lemma bind_except {A B} (c : Proc A) h (k : A -> Proc B) m :
  (x <- except c h ;; k x) m
  = match c m with
    | (Returned a, m') => k a m'
    | (Raised e, m') => (x <- h e ;; k x) m'
    | (Exited code, m') => (Exited code, m')
    end.
Proof.
  unfold bind, except. destruct (c m) as [[x|e|code] m']; reflexivity.
Qed.

(** The second machine has the disk, the tools' machine and the processes
    started of the first: at most the console differs. *)
Definition untouched (m m' : machine) : Prop :=
  fs (io m') = fs (io m) /\ host m' = host m /\ calls m' = calls m.

Lemma untouched_says lines m : untouched m (says lines m).
Proof. repeat split. Qed.

Lemma untouched_trans m1 m2 m3 :
  untouched m1 m2 -> untouched m2 m3 -> untouched m1 m3.
Proof. unfold untouched. intuition congruence. Qed.

(** *** A component without a file *)

Lemma provided_missing given c m :
  Resolver.first_missing (Resolver.glob_stl (path_of given) (fs (io m)))
  = Some c ->
  untouched m (snd (provided given m)) /\
  (fst (provided given m) = Exited 1 \/
   fst (provided given m) = Raised EOFError).
Proof.
  intros Hmiss. unfold provided.
  rewrite bind_lift. unfold exists_.
  destruct (Fs.exists_ (path_of given) (fs (io m))); cbn [negb].
  2:{ rewrite bind_assoc, bind_print, bind_exit.
      split; [|left; reflexivity]. repeat split. }
  rewrite bind_ret, bind_lift. unfold Selector.isdir. cbn [io fs].
  destruct (match Fs.lookup (path_of given) (fs (io m)) with
            | Some (Fs.Dir _) => true
            | _ => false
            end); cbn [negb].
  2:{ rewrite bind_assoc, bind_print, bind_exit.
      split; [|left; reflexivity]. repeat split. }
  rewrite bind_ret, bind_print, bind_lift.
  match goal with
  | |- context [Resolver._find_stl_files_in_folder ?f ?w] =>
      pose proof (keeps_fs_find f w) as K;
      rewrite (find_stl_files_eq f w) in K |- *;
      pose proof (@for_components_missing f (Resolver.glob_stl f (fs w))
                    Resolver.stl_components c Hmiss [] (listed f w)) as Hc;
      destruct (Resolver.for_components f (Resolver.glob_stl f (fs w))
                  Resolver.stl_components [] (listed f w)) as [v w']
  end.
  cbn [io says fs] in K.
  destruct Hc as [[-> _]|[-> _]]; cbn [snd] in K.
  - rewrite bind_print. unfold exit.
    split; [|left; reflexivity]. repeat split. exact K.
  - split; [|right; reflexivity]. repeat split. exact K.
Qed.

(** X18.  When [--stl-dir] is given and some canonical component has no matching
    file in it, the program leaves with status 1 before it has changed
    anything on the disk and before any process is started; this whether
    the directory exists or not, and also when the input runs out at a
    prompt for an ambiguous component. *)
Theorem unresolved_component_stops_main (a : args) (m : machine)
    (given c : str) :
  Fs.exists_ (path_of (base_dir a)) (fs (io m)) = true ->
  stl_dir a = Some given -> given <> [] ->
  Resolver.first_missing (Resolver.glob_stl (path_of given) (fs (io m)))
  = Some c ->
  let r := main a m in
  fst r = Exited 1 /\
  fs (io (snd r)) = fs (io m) /\ host (snd r) = host m /\
  calls (snd r) = calls m.
Proof.
  intros Hb Hd Hne Hmiss. cbv zeta. rewrite (main_start a m Hb).
  unfold selection. rewrite Hd. destruct given as [|c0 d]; [congruence|].
  destruct (@provided_missing (c0 :: d) c (says header m) Hmiss)
    as (U & E).
  rewrite bind_except.
  destruct (provided (c0 :: d) (says header m)) as [o m'].
  cbn [fst snd] in U, E. destruct E as [-> | ->].
  - cbn [fst snd]. split; [reflexivity | exact U].
  - unfold selection_failed. rewrite bind_assoc, bind_print, bind_exit.
    cbn [fst snd]. split; [reflexivity|]. destruct U as (U1 & U2 & U3).
    repeat split; assumption.
Qed.

(** *** A folder with one file per component *)





(** *** What the selection can do *)

(** A mapping with the five canonical components as its keys. *)
Definition complete (found : list (str * Fs.path)) : Prop :=
  map fst found = Resolver.stl_components.

(** A selection leaves the disk and the machine alone; it leaves the
    program with status 1, raises, or returns a complete mapping. *)
Definition selects (c : Proc (list (str * Fs.path))) : Prop :=
  forall m,
    untouched m (snd (c m)) /\
    (fst (c m) = Exited 1 \/ (exists e, fst (c m) = Raised e) \/
     exists found, fst (c m) = Returned found /\ complete found).

Lemma selects_print line c : selects c -> selects (print line ;; c).
Proof.
  intros H m. rewrite bind_print. destruct (H (says [line] m)) as [U R].
  split; [|exact R]. eapply untouched_trans; [apply untouched_says | exact U].
Qed.

Lemma selects_exit : selects (exit 1).
Proof. intros m. split; [repeat split | left; reflexivity]. Qed.

Lemma selects_find folder where_ :
  selects (stl_files <- lift (Resolver._find_stl_files_in_folder folder) ;;
           match stl_files with
           | [] => print (could_not_find where_) ;; exit 1
           | _ => ret stl_files
           end).
Proof.
  intros m. rewrite bind_lift.
  pose proof (keeps_fs_find folder (io m)) as K.
  pose proof (@find_bound folder (io m)) as B.
  destruct (Resolver._find_stl_files_in_folder folder (io m))
    as [[found|e] w]; cbn [fst snd] in K, B.
  - destruct found as [|b found].
    + rewrite bind_print. unfold exit. cbn [fst snd].
      split; [repeat split; exact K | left; reflexivity].
    + unfold ret. cbn [fst snd]. split; [repeat split; exact K|].
      right. right. exists (b :: found). split; [reflexivity|].
      apply (B (b :: found)); [reflexivity | discriminate].
  - cbn [fst snd]. split; [repeat split; exact K|]. right. left. eauto.
Qed.

Lemma selects_provided given : selects (provided given).
Proof.
  intros m. unfold provided.
  rewrite bind_lift. unfold exists_.
  destruct (Fs.exists_ (path_of given) (fs (io m))); cbn [negb].
  2:{ rewrite bind_assoc, bind_print, bind_exit.
      split; [repeat split | left; reflexivity]. }
  rewrite bind_ret, bind_lift. unfold Selector.isdir. cbn [io fs].
  destruct (match Fs.lookup (path_of given) (fs (io m)) with
            | Some (Fs.Dir _) => true
            | _ => false
            end); cbn [negb].
  2:{ rewrite bind_assoc, bind_print, bind_exit.
      split; [repeat split | left; reflexivity]. }
  rewrite bind_ret.
  match goal with
  | |- untouched _ (snd (_ ?m')) /\ _ =>
      destruct (@selects_print
                  (text "Using provided STL directory: " ++ given) _
                  (selects_find (path_of given) (text "provided directory"))
                  m') as [U R]
  end.
  split; [|exact R]. eapply untouched_trans; [|exact U]. repeat split.
Qed.

Lemma selects_of_res {A} (r : res A) (k : A -> Proc (list (str * Fs.path))) :
  (forall x, selects (k x)) -> selects (x <- of_res r ;; k x).
Proof.
  intros H m. unfold bind, of_res. destruct r as [x|e].
  - apply H.
  - cbn [fst snd]. split; [repeat split | right; left; eauto].
Qed.

Lemma selects_gui : selects select_files_gui.
Proof.
  unfold select_files_gui.
  apply selects_of_res; intros _. apply selects_print.
  apply selects_of_res; intros [|c folder_path].
  - apply selects_print, selects_exit.
  - apply selects_print, selects_find.
Qed.

Lemma selects_cli : selects (lift Selector.select_files_cli).
Proof.
  intros m. unfold lift, Selector.select_files_cli.
  destruct (@SelectorFacts.cli_rounds_ends Ps (S (length (stdin (io m))))
              (io m) (Nat.lt_succ_diag_r _)) as [F R].
  destruct (Selector.cli_rounds (S (length (stdin (io m)))) (io m))
    as [[found|e] w]; cbn [fst snd] in *.
  - split; [repeat split; exact F|]. right. right.
    destruct R as [(found' & E & C)|[E _]]; [|discriminate].
    inversion E; subst. eauto.
  - split; [repeat split; exact F|]. right. left. eauto.
Qed.

Lemma selects_selection a : selects (selection a).
Proof.
  unfold selection. destruct (stl_dir a) as [[|c d]|].
  - destruct (cli_mode a); [apply selects_cli | apply selects_gui].
  - apply selects_provided.
  - destruct (cli_mode a); [apply selects_cli | apply selects_gui].
Qed.

(** Whatever is raised during the selection ends the program with
    status 1. *)
Lemma selection_cases a m :
  let r := except (selection a) selection_failed m in
  untouched m (snd r) /\
  (fst r = Exited 1 \/
   exists found, fst r = Returned found /\ complete found).
Proof.
  cbv zeta. unfold except.
  destruct (selects_selection a m) as [U R].
  destruct (selection a m) as [[found|e|code] m']; cbn [fst snd] in *.
  - split; [exact U|]. right.
    destruct R as [R|[[e R]|(found' & R & C)]]; try discriminate.
    inversion R; subst. eauto.
  - unfold selection_failed. rewrite bind_print. unfold exit. cbn [fst snd].
    split; [|left; reflexivity].
    eapply untouched_trans; [exact U | apply untouched_says].
  - split; [exact U|]. left.
    destruct R as [R|[[e R]|(found' & R & C)]]; try discriminate.
    exact R.
Qed.

(** *** The confirmation *)

(** Whether an answer to the confirmation lets the simulation go on. *)
Definition agrees (line : str) : bool :=
  let confirm := Text.lower (Resolver.strip line) in
  Text.eqb confirm (text "y") || Text.eqb confirm (text "yes").

Definition settings (a : args) : list str :=
  [Text.nl :: text "Simulation settings:";
   text "  Base directory: " ++ base_dir a;
   text "  Case directory: " ++ case_dir a;
   text "  Processors: " ++ Text.of_Z (n_proc a);
   Text.nl :: text "Proceed with simulation? (y/N): "].

(** The machine once [line] has been read from its input and [lines] have
    been printed. *)
Definition answered (lines : list str) (rest : list str) (m : machine)
    : machine :=
  mk_machine (mk_world (fs (io m)) rest (stdout (io m) ++ lines))
    (host m) (calls m).

Lemma confirm_eq a m :
  confirm a m
  = if auto_run a then (Returned tt, m)
    else match stdin (io m) with
         | [] => (Raised EOFError, answered (settings a) [] m)
         | line :: rest =>
             if agrees line then (Returned tt, answered (settings a) rest m)
             else (Exited 0,
                   answered (settings a ++ [text "Simulation cancelled."])
                     rest m)
         end.
Proof.
  unfold confirm. destruct (auto_run a); cbn [negb]; [reflexivity|].
  rewrite !bind_print, !says_says, bind_lift. unfold input.
  cbn [io says stdin stdout fs host calls app].
  destruct (stdin (io m)) as [|line rest].
  - unfold answered, settings. rewrite <- !app_assoc. reflexivity.
  - cbv zeta. fold (agrees line). destruct (agrees line); cbn [negb].
    + unfold ret, answered, settings. cbn [fs stdin stdout].
      rewrite <- !app_assoc. reflexivity.
    + rewrite bind_print. unfold exit, says, answered, settings.
      cbn [io fs stdin stdout host calls]. rewrite <- !app_assoc.
      reflexivity.
Qed.

Lemma confirm_cases a m :
  untouched m (snd (confirm a m)) /\
  (fst (confirm a m) = Returned tt \/ fst (confirm a m) = Exited 0 \/
   fst (confirm a m) = Raised EOFError).
Proof.
  rewrite confirm_eq. destruct (auto_run a).
  - split; [repeat split | auto].
  - destruct (stdin (io m)) as [|line rest].
    + split; [repeat split | auto].
    + destruct (agrees line); split; try (repeat split); auto.
Qed.

(** *** Before the set-up *)

(** Until the set-up starts, [main] changes nothing: it ends there, or goes
    on to the set-up with a complete mapping. *)
Lemma prelude a m :
  (untouched m (snd (main a m)) /\
   (fst (main a m) = Exited 1 \/ fst (main a m) = Exited 0 \/
    fst (main a m) = Raised EOFError)) \/
  exists stl_files m1,
    complete stl_files /\ untouched m m1 /\
    main a m = work a stl_files m1.
Proof.
  destruct (Fs.exists_ (path_of (base_dir a)) (fs (io m))) eqn:Hb.
  2:{ left. unfold main. rewrite !bind_print, !says_says.
      rewrite bind_lift. unfold exists_. cbn [io says fs].
      rewrite Hb. cbn [negb]. rewrite bind_assoc, bind_print, bind_exit.
      cbn [fst snd]. split; [repeat split | auto]. }
  rewrite (main_start a m Hb). rewrite bind_except.
  destruct (selection_cases a (says header m)) as [U R]. unfold except in U, R.
  unfold except.
  destruct (selection a (says header m)) as [[found|e|code] m1];
    cbn [fst snd] in *.
  - destruct R as [R|(found' & R & C)]; [discriminate|].
    inversion R; subst found'. rewrite listed_files.
    unfold bind. destruct (confirm_cases a (says (listing found) m1)) as [U' R'].
    destruct (confirm a (says (listing found) m1)) as [[[]|e|code] m2];
      cbn [fst snd] in *.
    + right. exists found, m2. split; [exact C|]. split; [|reflexivity].
      eapply untouched_trans; [|exact U'].
      eapply untouched_trans; [|apply untouched_says].
      eapply untouched_trans; [apply untouched_says | exact U].
    + left. split.
      * eapply untouched_trans; [|exact U'].
        eapply untouched_trans; [|apply untouched_says].
        eapply untouched_trans; [apply untouched_says | exact U].
      * destruct R' as [R'|[R'|R']]; try discriminate. auto.
    + left. split.
      * eapply untouched_trans; [|exact U'].
        eapply untouched_trans; [|apply untouched_says].
        eapply untouched_trans; [apply untouched_says | exact U].
      * destruct R' as [R'|[R'|R']]; try discriminate. auto.
  - left. unfold selection_failed in *.
    rewrite bind_assoc, bind_print, bind_exit. rewrite bind_print in U.
    unfold exit in U. cbn [fst snd] in *. split; [|auto].
    eapply untouched_trans; [apply untouched_says | exact U].
  - left. destruct R as [R|(found' & R & C)]; [|discriminate].
    inversion R; subst code. split; [|left; reflexivity].
    eapply untouched_trans; [apply untouched_says | exact U].
Qed.

(** *** The set-up, the run and the report *)

(** The commands of the run of [main], in order. *)
Definition run_commands (a : args) : list (list str) :=
  map snd (Runner.plan (CaseSetup.show_path (path_of (case_dir a)))
             (n_proc a)).

(** The run starts commands of the plan, in order, and answers whether
    they all succeeded; the disk is then as these processes left it. *)
Lemma run_cases a m :
  exists ok tr m',
    run (Runner.run_full_simulation
           (CaseSetup.show_path (path_of (case_dir a))) (n_proc a)) m
    = (Returned ok, m') /\
    calls m' = calls m ++ tr /\
    RunnerFacts.follows (run_commands a) tr ok /\
    fs (io m') = leaves tr (fs (io m)).
Proof.
  unfold run.
  destruct (RunnerFacts.run_full_simulation_follows
              (CaseSetup.show_path (path_of (case_dir a))) (n_proc a)
              (Runner.mk_state (host m) (stdout (io m)) (calls m)))
    as (tr & C & F & _).
  destruct (Runner.run_full_simulation _ _ _) as [ok s].
  cbn [fst snd Runner.calls] in C, F.
  exists ok, tr. eexists. split; [reflexivity|].
  cbn [calls io fs]. split; [exact C|]. split; [exact F|].
  rewrite C, skipn_app, skipn_all, Nat.sub_diag. reflexivity.
Qed.

(** Computations that start no process. *)
Definition idle {A} (c : Proc A) : Prop :=
  forall m, host (snd (c m)) = host m /\ calls (snd (c m)) = calls m.

Lemma idle_lift {A} (c : M A) : idle (lift c).
Proof.
  intros m. unfold lift. destruct (c (io m)) as [[x|e] w]; split; reflexivity.
Qed.

Lemma idle_print line : idle (print line).
Proof. apply idle_lift. Qed.

Lemma idle_bind {A B} (c : Proc A) (k : A -> Proc B) :
  idle c -> (forall x, idle (k x)) -> idle (bind c k).
Proof.
  intros Hc Hk m. unfold bind. destruct (Hc m) as [H1 H2].
  destruct (c m) as [[x|e|code] m']; cbn [snd] in *; [|auto ..].
  destruct (Hk x m') as [H3 H4]. split; congruence.
Qed.

Lemma idle_report a : idle (report a).
Proof.
  unfold report.
  apply idle_bind; [apply idle_print | intros _].
  apply idle_bind; [apply idle_print | intros _].
  apply idle_bind; [apply idle_lift | intros results].
  apply idle_bind.
  - destruct results as [r|].
    + apply idle_bind; [apply idle_lift | intros; apply idle_print].
    + apply idle_print.
  - intros _.
    repeat (apply idle_bind; [apply idle_print | intros _]).
    apply idle_print.
Qed.

(** From the set-up on: the program stops without having started any
    process, or the run takes place; a run that fails ends the program with
    status 1, and after one that succeeds the report is made. *)
Lemma work_cases a stl_files m :
  (host (snd (work a stl_files m)) = host m /\
   calls (snd (work a stl_files m)) = calls m /\
   (fst (work a stl_files m) = Exited 1 \/
    exists e, fst (work a stl_files m) = Raised e)) \/
  exists ok tr m2 m3,
    calls m3 = calls m ++ tr /\
    RunnerFacts.follows (run_commands a) tr ok /\
    fst (CaseSetup.setup_case (path_of (base_dir a)) (path_of (case_dir a))
           (n_proc a) stl_files
           (io (says [Text.nl :: text "2. Case Setup"; Text.times "-" 30] m)))
    = Ok true /\
    fs (io m2)
    = fs (snd (CaseSetup.setup_case (path_of (base_dir a))
                 (path_of (case_dir a)) (n_proc a) stl_files
                 (io (says [Text.nl :: text "2. Case Setup";
                            Text.times "-" 30] m)))) /\
    fs (io m3) = leaves tr (fs (io m2)) /\
    work a stl_files m
    = if ok then report a m3
      else (Exited 1, says [text "Simulation failed. Exiting..."] m3).
Proof.
  unfold work. rewrite !bind_print, !says_says, bind_lift. cbn [app].
  destruct (CaseSetup.setup_case _ _ _ _ _) as [[ok|e] w] eqn:Es.
  2:{ left. cbn [fst snd host calls says]. eauto. }
  destruct ok; cbn [negb].
  2:{ left. rewrite bind_assoc, bind_print, bind_exit.
      cbn [fst snd host calls says]. auto. }
  right. rewrite bind_ret, !bind_print, !says_says. unfold bind at 1.
  match goal with
  | |- context [run _ ?m2] =>
      destruct (run_cases a m2) as (ok & tr & m3 & -> & C & F & L);
      exists ok, tr, m2, m3
  end.
  cbn [calls says] in C. split; [exact C|]. split; [exact F|].
  split; [reflexivity|]. split; [reflexivity|]. split; [exact L|].
  destruct ok; cbn [negb].
  - reflexivity.
  - rewrite bind_assoc, bind_print, bind_exit. reflexivity.
Qed.

(** *** Properties of [main] *)

(** X19.  Until the case set-up starts, the program changes no file and starts no
    process, whatever its arguments, the disk and the input: either it ends
    there, with status 1, with status 0, or with the [EOFError] of a
    confirmation that finds no input, or it goes on to the set-up with a
    mapping whose keys are the five canonical components. *)
Theorem main_changes_nothing_before_assembly (a : args) (m : machine) :
  let r := main a m in
  (fs (io (snd r)) = fs (io m) /\ host (snd r) = host m /\
   calls (snd r) = calls m /\
   (fst r = Exited 1 \/ fst r = Exited 0 \/ fst r = Raised EOFError)) \/
  exists stl_files m1,
    map fst stl_files = Resolver.stl_components /\
    fs (io m1) = fs (io m) /\ host m1 = host m /\ calls m1 = calls m /\
    r = work a stl_files m1.
Proof.
  cbv zeta. destruct (prelude a m) as [[(F & H & C) R]|(stl & m1 & K & U & E)].
  - left. auto.
  - right. exists stl, m1. destruct U as (F & H & C). auto.
Qed.

Lemma main_returns a m :
  fst (main a m) = Returned tt ->
  exists m3 tr,
    main a m = report a m3 /\ calls m3 = calls m ++ tr /\
    RunnerFacts.follows (run_commands a) tr true.
Proof.
  intros Hr. destruct (prelude a m) as [[_ R]|(stl & m1 & _ & U & E)].
  { rewrite Hr in R. destruct R as [R|[R|R]]; discriminate. }
  rewrite E in Hr |- *.
  destruct (work_cases a stl m1)
    as [(_ & _ & R)|(ok & tr & m2 & m3 & C & F & _ & _ & _ & W)].
  { rewrite Hr in R. destruct R as [R|[e R]]; discriminate. }
  rewrite W in Hr |- *. destruct ok; [|discriminate].
  exists m3, tr. split; [reflexivity|]. split; [|exact F].
  destruct U as (_ & _ & U3). rewrite <- U3. exact C.
Qed.

(** X20.  The processes of a run of the program are commands of the plan,
    started in the order of the plan.  The program returns only when all
    ten have been started and have exited with status 0, and a process that
    exits with another status makes the program leave with status 1. *)
Theorem main_runs_the_plan (a : args) (m : machine) :
  let r := main a m in
  exists tr,
    calls (snd r) = calls m ++ tr /\
    map fst tr = firstn (length tr) (run_commands a) /\
    (fst r = Returned tt ->
     length tr = 10 /\ Forall Runner.succeeded tr) /\
    ((exists c, In c tr /\ snd c <> 0%Z) -> fst r = Exited 1).
Proof.
  cbv zeta.
  assert (Hnone : forall o : outcome unit,
             calls (snd (main a m)) = calls m ->
             fst (main a m) = o -> o <> Returned tt ->
             exists tr,
               calls (snd (main a m)) = calls m ++ tr /\
               map fst tr = firstn (length tr) (run_commands a) /\
               (fst (main a m) = Returned tt ->
                length tr = 10 /\ Forall Runner.succeeded tr) /\
               ((exists c, In c tr /\ snd c <> 0%Z) ->
                fst (main a m) = Exited 1)).
  { intros o C E Ho. exists []. rewrite app_nil_r. split; [exact C|].
    split; [reflexivity|]. split; [congruence|].
    intros (c & [] & _). }
  destruct (prelude a m) as [[(_ & _ & C) R]|(stl & m1 & _ & U & E)].
  { destruct R as [R|[R|R]]; apply (Hnone _ C R); discriminate. }
  destruct U as (_ & _ & C1).
  destruct (work_cases a stl m1)
    as [(_ & C & R)|(ok & tr & m2 & m3 & C & F & _ & _ & _ & W)].
  { rewrite <- E in C, R. rewrite C1 in C.
    destruct R as [R|[e R]]; apply (Hnone _ C R); discriminate. }
  rewrite <- E in W. rewrite C1 in C. exists tr.
  destruct F as [Hmap F]. destruct ok.
  - destruct (idle_report a m3) as [_ Cr].
    destruct F as [Hlen Hall]. rewrite W, Cr. split; [exact C|].
    split; [exact Hmap|]. split.
    + intros _. split; [rewrite Hlen; reflexivity | exact Hall].
    + intros (c & Hin & Hc). exfalso. rewrite Forall_forall in Hall.
      apply Hc. apply (Hall c Hin).
  - rewrite W. cbn [fst snd says calls]. split; [exact C|].
    split; [exact Hmap|]. split; [discriminate | reflexivity].
Qed.

Lemma print_says line m : print line m = (Returned tt, says [line] m).
Proof. reflexivity. Qed.

Lemma results_apart a :
  FsMore.apart (results_file a)
    (Results.coefficient_file (path_of (case_dir a))).
Proof.
  apply FsMore.apart_sym. unfold results_file, Results.coefficient_file.
  apply FsMore.apart_below. discriminate.
Qed.

Lemma write_text_ok p data w w' :
  write_text p data w = (Ok tt, w') ->
  Fs.put p (Fs.File data) (fs w) = Some (fs w').
Proof.
  unfold write_text, update_fs.
  destruct (Fs.lookup p (fs w)) as [[d|es]|];
    try discriminate;
    (destruct (Fs.put p (Fs.File data) (fs w)) as [t|]; [|discriminate]);
    intros H; inversion H; reflexivity.
Qed.

(** The report, by what the extraction and the writing of the results file
    answer. *)
Lemma report_eq a m :
  report a m
  = match Results.extract_latest_cd (path_of (case_dir a))
            (io (says [Text.nl :: text "4. Extracting Results";
                       Text.times "-" 30] m)) with
    | (Ok (Some r), w) =>
        match write_text (results_file a) (results_text r) w with
        | (Ok _, w') =>
            (Returned tt,
             says ((text "Results saved to: "
                    ++ CaseSetup.show_path (results_file a)) :: footer a)
               (mk_machine w' (host m) (calls m)))
        | (Raise e, w') => (Raised e, mk_machine w' (host m) (calls m))
        end
    | (Ok None, w) =>
        (Returned tt,
         says (text "Warning: Could not extract results from simulation."
               :: footer a)
           (mk_machine w (host m) (calls m)))
    | (Raise e, w) => (Raised e, mk_machine w (host m) (calls m))
    end.
Proof.
  unfold report. rewrite !bind_print, !says_says, bind_lift. cbn [app].
  destruct (Results.extract_latest_cd _ _) as [[[r|]|e] w]; [| |reflexivity].
  - rewrite bind_assoc, bind_lift. cbn [io host calls says].
    destruct (write_text _ _ w) as [[[]|e] w']; [|reflexivity].
    rewrite !bind_print, print_says, !says_says. reflexivity.
  - rewrite !bind_print, print_says, !says_says. reflexivity.
Qed.

(** What the report leaves when it returns and the coefficient table then
    on the disk ends with a row of seven columns or more. *)
Lemma report_saves a m data rows row :
  fst (report a m) = Returned tt ->
  Fs.lookup (Results.coefficient_file (path_of (case_dir a)))
    (fs (io (snd (report a m)))) = Some (Fs.File data) ->
  Results.table (Text.universal_newlines data) = Ok (rows ++ [row]) ->
  7 <= length row ->
  Fs.lookup (results_file a) (fs (io (snd (report a m))))
  = Some (Fs.File (results_text (Results.sample_of row))).
Proof.
  rewrite report_eq.
  match goal with
  | |- context [Results.extract_latest_cd ?c ?w0] =>
      pose proof (@ResultsFacts.keeps_fs_extract _ c w0) as K;
      pose proof (fun d => @ResultsFacts.extract_last _ c w0 d rows row) as X;
      destruct (Results.extract_latest_cd c w0) as [[[r|]|e] w]
  end; cbn [fst snd] in K, X.
  - destruct (write_text (results_file a) (results_text r) w)
      as [[[]|e] w'] eqn:W; [|intros H; discriminate H].
    apply write_text_ok in W. cbn [fst snd says io fs].
    intros _ Hl Ht Hrow.
    rewrite (@FsMore.lookup_put_apart _ _ _ _ _ W (results_apart a)), K in Hl.
    specialize (X data Hl Ht Hrow). inversion X; subst r.
    eapply FsFacts.lookup_put_same. exact W.
  - cbn [fst snd says io fs]. intros _ Hl Ht Hrow. rewrite K in Hl.
    specialize (X data Hl Ht Hrow). discriminate X.
  - intros H. discriminate H.
Qed.

(** X21.  When the program returns and the table of coefficients on the disk
    ends with a row of seven columns or more, [simulation_results.txt] in
    the case directory holds the report of that row: its columns 0, 1, 4
    and 6 as time, Cd, Cl and Cm, with six decimals. *)
Theorem main_saves_the_latest_sample (a : args) (m : machine)
    (data : str) (rows : list (list Num.float)) (row : list Num.float) :
  fst (main a m) = Returned tt ->
  Fs.lookup (Results.coefficient_file (path_of (case_dir a)))
    (fs (io (snd (main a m)))) = Some (Fs.File data) ->
  Results.table (Text.universal_newlines data) = Ok (rows ++ [row]) ->
  7 <= length row ->
  Fs.lookup (path_of (case_dir a) ++ [text "simulation_results.txt"])
    (fs (io (snd (main a m))))
  = Some (Fs.File (results_text (Results.sample_of row))).
Proof.
  intros Hr. destruct (main_returns a m Hr) as (m3 & tr & E & _).
  rewrite E in Hr |- *. intros Hl Ht Hrow.
  exact (@report_saves a m3 data rows row Hr Hl Ht Hrow).
Qed.


End WithEnvironment.

(** *** Sample runs *)

Lemma missing_base_stops_main_witness :
  let a := MoreSamples.arguments true in
  let m := MoreSamples.machine_on (mk_world (Fs.Dir []) [] []) in
  main (G:=Samples.sample_geometry) (N:=MoreSamples.whole_numbers)
    (Ps:=MoreSamples.slash_paths) (D:=MoreSamples.cancelled)
    (T:=MoreSamples.idle_tools) a m
  = (Exited 1,
     says (greeting ++ [text "Error: Base directory does not exist: baseCase"])
       m).
Proof.
  cbv zeta.
  apply (@missing_base_stops_main MoreSamples.all_succeed
           Samples.sample_geometry MoreSamples.whole_numbers
           MoreSamples.slash_paths MoreSamples.cancelled
           MoreSamples.idle_tools (MoreSamples.arguments true)
           (MoreSamples.machine_on (mk_world (Fs.Dir []) [] []))).
  vm_compute. reflexivity.
Defined.

Lemma unresolved_component_stops_main_witness :
  let a := MoreSamples.arguments true in
  let m := MoreSamples.machine_on (Samples.start Samples.stl_folder_no_RR) in
  let r := main (G:=Samples.sample_geometry) (N:=MoreSamples.whole_numbers)
             (Ps:=MoreSamples.slash_paths) (D:=MoreSamples.cancelled)
             (T:=MoreSamples.idle_tools) a m in
  fst r = Exited 1 /\
  fs (io (snd r)) = fs (io m) /\ host (snd r) = host m /\
  calls (snd r) = calls m.
Proof.
  cbv zeta.
  apply (@unresolved_component_stops_main MoreSamples.all_succeed
           Samples.sample_geometry MoreSamples.whole_numbers
           MoreSamples.slash_paths MoreSamples.cancelled
           MoreSamples.idle_tools (MoreSamples.arguments true)
           (MoreSamples.machine_on (Samples.start Samples.stl_folder_no_RR))
           (text "stl") (text "RR")).
  - vm_compute. reflexivity.
  - reflexivity.
  - discriminate.
  - vm_compute. reflexivity.
Defined.

Lemma main_saves_the_latest_sample_witness :
  let a := MoreSamples.arguments true in
  let m := MoreSamples.machine_on (Samples.start Samples.stl_folder) in
  let r := main (G:=Samples.sample_geometry) (N:=MoreSamples.whole_numbers)
             (Ps:=MoreSamples.slash_paths) (D:=MoreSamples.cancelled)
             (T:=MoreSamples.solver_writes) a m in
  fst r = Returned tt /\
  Fs.lookup [text "case"; text "simulation_results.txt"] (fs (io (snd r)))
  = Some (Fs.File (text
"OpenFOAM Simulation Results
==============================
Time: 2.000000
Drag Coefficient (Cd): 3.000000
Lift Coefficient (Cl): 6.000000
Moment Coefficient (Cm): 8.000000
")).
Proof.
  cbv zeta. split; [vm_compute; reflexivity|].
  transitivity
    (Some (Fs.File
             (results_text
                (Results.sample_of
                   (map MoreSamples.float_of_Z [2; 3; 4; 5; 6; 7; 8]%Z)))));
    [|vm_compute; reflexivity].
  apply (@main_saves_the_latest_sample MoreSamples.all_succeed
           Samples.sample_geometry MoreSamples.whole_numbers
           MoreSamples.slash_paths MoreSamples.cancelled
           MoreSamples.solver_writes (MoreSamples.arguments true)
           (MoreSamples.machine_on (Samples.start Samples.stl_folder))
           MoreSamples.coefficient_table
           [map MoreSamples.float_of_Z [1; 2; 3; 4; 5; 6; 7]%Z]
           (map MoreSamples.float_of_Z [2; 3; 4; 5; 6; 7; 8]%Z)).
  - vm_compute. reflexivity.
  - vm_compute. reflexivity.
  - vm_compute. reflexivity.
  - cbn [map length]. lia.
Defined.


End MainFacts.

(** ** The earlier set-up script *)

Module LegacyMore.
Import Io Fs TextFacts FsFacts IoFacts FsMore.
Local Open Scope io_scope.

Lemma is_prefix_parent a b :
  is_prefix a (parent b) = true -> is_prefix a b = true.
Proof.
  unfold parent. revert b. induction a as [|x a IH]; intros b H;
    [reflexivity|].
  destruct b as [|y [|z b]]; cbn [removelast is_prefix] in H;
    try discriminate.
  apply andb_true_iff in H. destruct H as [E H].
  cbn [is_prefix]. rewrite E. cbn [andb]. apply IH. exact H.
Qed.

Section WithDirectories.
Variable base_dir case_dir : path.
Hypothesis case_dir_not_root : case_dir <> [].

(** Copying the base case to a destination that is free. *)
Lemma copy_fresh t es pending out :
  lookup case_dir t = None -> is_dir (parent case_dir) t ->
  lookup base_dir t = Some (Dir es) -> apart case_dir base_dir ->
  exists t',
    put case_dir (Dir es) t = Some t' /\
    copytree base_dir case_dir (mk_world t pending out)
    = (Ok tt, mk_world t' pending out).
Proof.
  intros Hfree Hpar Hbase [_ Hap].
  destruct (@put_in_dir case_dir (Dir es) t case_dir_not_root Hpar)
    as [t' Hput].
  exists t'. split; [exact Hput|].
  unfold copytree. cbn [fs stdin stdout]. rewrite Hbase.
  unfold exists_. rewrite Hfree.
  destruct (is_prefix base_dir (parent case_dir)) eqn:Ep.
  { apply is_prefix_parent in Ep. congruence. }
  cbn [andb]. rewrite (makedirs_present Hpar).
  unfold update_fs. cbn [fs stdin stdout]. rewrite Hput. reflexivity.
Qed.

(** The world once an old destination has been cleared away. *)
Lemma clear_old w :
  is_dir (parent case_dir) (fs w) ->
  (forall data, lookup case_dir (fs w) <> Some (File data)) ->
  exists t,
    lookup case_dir t = None /\ is_dir (parent case_dir) t /\
    (forall p, apart case_dir p -> lookup p t = lookup p (fs w)) /\
    (if exists_ case_dir (fs w) then rmtree case_dir else ret tt) w
    = (Ok tt, mk_world t (stdin w) (stdout w)).
Proof.
  intros Hpar Hnf. unfold exists_.
  destruct (lookup case_dir (fs w)) as [[data|es]|] eqn:Hl.
  - destruct (Hnf data). reflexivity.
  - destruct (@remove_present _ _ _ case_dir_not_root Hl) as [t Hr].
    exists t. split; [apply (lookup_remove _ _ Hr)|].
    split; [apply (parent_after_remove _ _ Hr)|].
    split; [intros p Hp; apply (@lookup_remove_apart _ _ _ _ Hr Hp)|].
    unfold rmtree, update_fs. rewrite Hl, Hr. reflexivity.
  - exists (fs w). split; [exact Hl|]. split; [exact Hpar|].
    split; [reflexivity|]. destruct w; reflexivity.
Qed.

(** X23.  Without a number of processors, or with the number 0, the earlier
    set-up makes the case directory a copy of the base case and touches
    nothing else: whatever directory was at the destination is replaced,
    and no dictionary is patched. *)
Theorem legacy_setup_copies_the_base (w : world) (n_proc : option Z)
    (es : list (str * node)) :
  n_proc = None \/ n_proc = Some 0%Z ->
  lookup base_dir (fs w) = Some (Dir es) ->
  apart case_dir base_dir ->
  is_dir (parent case_dir) (fs w) ->
  (forall data, lookup case_dir (fs w) <> Some (File data)) ->
  let r := LegacySetup.setup_case base_dir case_dir n_proc w in
  fst r = Ok tt /\
  lookup case_dir (fs (snd r)) = Some (Dir es) /\
  (forall p, apart case_dir p -> lookup p (fs (snd r)) = lookup p (fs w)) /\
  stdin (snd r) = stdin w /\
  stdout (snd r)
  = stdout w ++ [text "Copied " ++ CaseSetup.show_path base_dir
                 ++ text " → " ++ CaseSetup.show_path case_dir
                 ++ text " Completed"].
Proof.
  intros Hn Hbase Hap Hpar Hnf. cbv zeta.
  destruct (clear_old w Hpar Hnf) as (t & Hfree & Hpar' & Hsame & E).
  assert (Hbase' : lookup base_dir t = Some (Dir es))
    by (rewrite (Hsame _ Hap); exact Hbase).
  destruct (copy_fresh (stdin w) (stdout w) Hfree Hpar' Hbase' Hap)
    as (t' & Hput & Ec).
  assert (Hskip : (match n_proc with
                   | Some n =>
                       if Z.eqb n 0 then ret tt
                       else
                         LegacySetup.update_decompose_par_dict case_dir n ;;
                         print (text "Updated decomposeParDict to use "
                                ++ Text.of_Z n ++ text " processors")
                   | None => ret tt
                   end) = ret tt)
    by (destruct Hn as [-> | ->]; reflexivity).
  assert (Eq : LegacySetup.setup_case base_dir case_dir n_proc w
               = (Ok tt,
                  mk_world t' (stdin w)
                    (stdout w
                     ++ [text "Copied " ++ CaseSetup.show_path base_dir
                         ++ text " → " ++ CaseSetup.show_path case_dir
                         ++ text " Completed"]))).
  { unfold LegacySetup.setup_case. rewrite bind_exists.
    unfold bind at 1. rewrite E. unfold bind at 1. rewrite Ec.
    rewrite Hskip. reflexivity. }
  rewrite Eq. cbn [fst snd fs stdin stdout].
  split; [reflexivity|].
  split; [eapply lookup_put_same; exact Hput|].
  split; [|auto].
  intros p Hp. rewrite (@lookup_put_apart _ _ _ _ _ Hput Hp). apply Hsame.
  exact Hp.
Qed.

(** X24.  When the destination is a directory and the base case is missing, or
    lies inside the destination, the earlier set-up deletes the destination
    and then raises [FileNotFoundError]: it has no handler and prints
    nothing. *)
Theorem legacy_setup_raises_without_base (w : world) (n_proc : option Z)
    (es : list (str * node)) :
  lookup case_dir (fs w) = Some (Dir es) ->
  (lookup base_dir (fs w) = None \/ is_prefix case_dir base_dir = true) ->
  exists t,
    remove case_dir (fs w) = Some t /\
    lookup case_dir t = None /\
    LegacySetup.setup_case base_dir case_dir n_proc w
    = (Raise FileNotFoundError, mk_world t (stdin w) (stdout w)).
Proof.
  intros Hl Hbase.
  destruct (@remove_present _ _ _ case_dir_not_root Hl) as [t Hr].
  pose proof (lookup_remove _ _ Hr) as Hgone.
  exists t. split; [exact Hr|]. split; [exact Hgone|].
  assert (Hb : lookup base_dir t = None).
  { destruct Hbase as [Hb|Hb].
    - apply (@lookup_remove_none _ _ _ _ Hr Hb).
    - apply is_prefix_app in Hb. destruct Hb as [r ->].
      apply lookup_below_none. exact Hgone. }
  unfold LegacySetup.setup_case. rewrite bind_exists.
  unfold exists_. rewrite Hl. unfold bind at 1.
  unfold rmtree, update_fs. rewrite Hl, Hr.
  unfold bind at 1, copytree. cbn [fs stdin stdout]. rewrite Hb.
  reflexivity.
Qed.

End WithDirectories.

Lemma legacy_setup_copies_the_base_witness :
  let w := Samples.start Samples.stl_folder in
  let r := LegacySetup.setup_case Samples.base_dir Samples.case_dir
             (Some 0%Z) w in
  fst r = Ok tt /\
  lookup Samples.case_dir (fs (snd r)) = Some Samples.base_case /\
  lookup Samples.base_dir (fs (snd r)) = Some Samples.base_case.
Proof.
  cbv zeta.
  assert (H : let r := LegacySetup.setup_case Samples.base_dir
                         Samples.case_dir (Some 0%Z)
                         (Samples.start Samples.stl_folder) in
              fst r = Ok tt /\
              lookup Samples.case_dir (fs (snd r)) = Some Samples.base_case /\
              (forall p, apart Samples.case_dir p ->
                         lookup p (fs (snd r))
                         = lookup p (fs (Samples.start Samples.stl_folder))) /\
              stdin (snd r) = [] /\
              stdout (snd r)
              = [] ++ [text "Copied " ++ CaseSetup.show_path Samples.base_dir
                       ++ text " → " ++ CaseSetup.show_path Samples.case_dir
                       ++ text " Completed"]).
  { apply (@legacy_setup_copies_the_base Samples.base_dir Samples.case_dir).
    - discriminate.
    - right. reflexivity.
    - reflexivity.
    - split; reflexivity.
    - eexists. reflexivity.
    - intros data. discriminate. }
  cbv zeta in H. destruct H as (H1 & H2 & H3 & _).
  split; [exact H1|]. split; [exact H2|].
  rewrite H3; [reflexivity | split; reflexivity].
Defined.

Lemma legacy_setup_raises_without_base_witness :
  let w := mk_world (Dir [(text "case", Dir [(text "old", File (text "x"))])])
             [] [] in
  exists t,
    remove Samples.case_dir (fs w) = Some t /\
    lookup Samples.case_dir t = None /\
    LegacySetup.setup_case Samples.base_dir Samples.case_dir None w
    = (Raise FileNotFoundError, mk_world t [] []).
Proof.
  cbv zeta.
  apply (@legacy_setup_raises_without_base Samples.base_dir Samples.case_dir
           ltac:(discriminate)
           (mk_world (Dir [(text "case", Dir [(text "old", File (text "x"))])])
              [] [])
           None [(text "old", File (text "x"))]).
  - reflexivity.
  - left. reflexivity.
Defined.

End LegacyMore.
